(** * ConvertMapGIS: a shallow embedding of [pymapgis.py]

    The reader [MapGisReader] decodes a MapGIS layer file into an attribute
    table, a list of geometries and a coordinate reference system.  This
    development embeds the parts of the reader that its specification makes
    statements about and proves or refutes those statements on the
    embedding. *)

From Stdlib Require Import ZArith Lia List Ascii String Strings.Byte Floats Sorted.
From stdpp Require Import base decidable option list sets gmap strings pretty.

Local Open Scope string_scope.
Local Open Scope list_scope.
Local Open Scope nat_scope.

(** ** Exceptions and results

    The exceptions the embedded code can raise, under their Python names.
    [SourceFileError] is the bare [Exception] that [_parse_polygons] raises
    in place of a [struct.error] met in the topology section. *)

Inductive exn : Type :=
  | InvalidFileError
  | struct_error
  | UnicodeDecodeError (msg : string)
  | OSError
  | KeyError (key : Z)
  | ValueError (msg : string)
  | IndexError
  | AttributeError
  | CRSError
  | RecursionError
  | OverflowError
  | SourceFileError.

Inductive result (A : Type) : Type :=
  | Ok (a : A)
  | Raise (e : exn).
Arguments Ok {A} a.
Arguments Raise {A} e.

#[global] Instance result_ret : MRet result := @Ok.
#[global] Instance result_bind : MBind result := fun A B f r =>
  match r with Ok a => f a | Raise e => Raise e end.

(** Text is a sequence of Unicode code points; [U+FFFD] is what a codec
    writes for undecodable input under [errors='replace']. *)
Definition text := list N.
Definition text_of_string (s : string) : text :=
  map (fun a => N_of_ascii a) (list_ascii_of_string s).
Definition replacement_character : N := 0xFFFD.

(** ** Column-name de-duplication ([MapGisReader._deduplicate_columns]) *)

Module Dedup.

(** The candidate [f"{col}-{idx}"]. *)
Definition suffixed (col : string) (idx : nat) : string :=
  col +:+ "-" +:+ pretty idx.

(** The inner [while new_col in seen] loop, started at [idx].  A round that
    finds the candidate in [seen] moves on to [idx + 1]; [fuel] bounds the
    number of rounds. *)
Fixpoint while_new_col_in_seen
    (fuel : nat) (col : string) (idx : nat) (seen : gset string)
    : option string :=
  match fuel with
  | O => None
  | S fuel' =>
      let new_col := suffixed col idx in
      if decide (new_col ∈ seen)
      then while_new_col_in_seen fuel' col (S idx) seen
      else Some new_col
  end.

(** One round of [for col in columns], on the pair [(seen, result)]. *)
Definition for_col (st : gset string * list string) (col : string)
    : option (gset string * list string) :=
  let '(seen, result) := st in
  if decide (col ∈ seen)
  then
    new_col ← while_new_col_in_seen (S (size seen)) col 1 seen;
    Some ({[ new_col ]} ∪ seen, result ++ [new_col])
  else Some ({[ col ]} ∪ seen, result ++ [col]).

Fixpoint for_columns (columns : list string) (st : gset string * list string)
    : option (gset string * list string) :=
  match columns with
  | [] => Some st
  | col :: rest => st' ← for_col st col; for_columns rest st'
  end.

Definition _deduplicate_columns (columns : list string) : option (list string) :=
  st ← for_columns columns (∅, []); Some (st.2).

(** What the outer loop keeps true: [seen] holds exactly the names given
    out, and no name was given out twice. *)
Definition dedup_inv (st : gset string * list string) : Prop :=
  (∀ x, x ∈ st.1 ↔ x ∈ st.2) ∧ NoDup st.2.

(** The rule of the specification for one name, given the names [given] out
    before it: a name not given out before stays as it is; any other name
    gets the suffix [-k] of the least [k] from 1 on whose suffixed name was
    not given out before. *)
Definition suffix_rule (given : list string) (col name : string) : Prop :=
  if decide (col ∈ given)
  then ∃ k, 1 ≤ k
            ∧ name = suffixed col k
            ∧ (suffixed col k ∉ given)
            ∧ ∀ j, 1 ≤ j < k → suffixed col j ∈ given
  else name = col.

End Dedup.


(** ** The [gbk] codec

    CPython's decoder reads one byte below [0x80] as ASCII; any other byte
    leads a two-byte sequence that is looked up in the codec's tables.  A
    lead byte without a second byte is an incomplete sequence, an unmapped
    pair an illegal one; either way the error covers the lead byte alone.
    The tables themselves are not part of the repository: [table] stands for
    them. *)

Module Gbk.

Record failure : Type := Failure {
  failure_position : nat;
  failure_byte : byte;
  failure_reason : string
}.

Definition is_ascii (c : byte) : bool := (Byte.to_N c <? 0x80)%N.

Section Codec.
Variable table : byte -> byte -> option N.

(** [bytes.decode('gbk')], reading from offset [pos]. *)
Fixpoint decode_from (pos : nat) (bs : list byte) : text + failure :=
  match bs with
  | [] => inl []
  | c :: rest =>
      if is_ascii c then
        match decode_from (S pos) rest with
        | inl t => inl (Byte.to_N c :: t)
        | inr f => inr f
        end
      else
        match rest with
        | [] => inr (Failure pos c "incomplete multibyte sequence")
        | c2 :: rest' =>
            match table c c2 with
            | Some u =>
                match decode_from (S (S pos)) rest' with
                | inl t => inl (u :: t)
                | inr f => inr f
                end
            | None => inr (Failure pos c "illegal multibyte sequence")
            end
        end
  end.

(** [bytes.decode('gbk', errors='replace')]: each failing lead byte becomes
    [U+FFFD] and decoding resumes at the byte after it. *)
Fixpoint decode_replace (bs : list byte) : text :=
  match bs with
  | [] => []
  | c :: rest =>
      if is_ascii c then Byte.to_N c :: decode_replace rest
      else
        match rest with
        | [] => [replacement_character]
        | c2 :: rest' =>
            match table c c2 with
            | Some u => u :: decode_replace rest'
            | None => replacement_character :: decode_replace rest
            end
        end
  end.

End Codec.

Definition hex_digit (n : N) : ascii :=
  match n with
  | 0 => "0" | 1 => "1" | 2 => "2" | 3 => "3" | 4 => "4" | 5 => "5"
  | 6 => "6" | 7 => "7" | 8 => "8" | 9 => "9" | 10 => "a" | 11 => "b"
  | 12 => "c" | 13 => "d" | 14 => "e" | _ => "f"
  end%char%N.

Definition hex2 (c : byte) : string :=
  String (hex_digit (Byte.to_N c / 16)) (String (hex_digit (Byte.to_N c mod 16)) "").

(** [str(err)] of the [UnicodeDecodeError] for a one-byte error range. *)
Definition message (f : failure) : string :=
  "'gbk' codec can't decode byte 0x" +:+ hex2 (failure_byte f)
  +:+ " in position " +:+ pretty (failure_position f)
  +:+ ": " +:+ failure_reason f.

Definition decode (table : byte -> byte -> option N) (bs : list byte) : result text :=
  match decode_from table 0 bs with
  | inl t => Ok t
  | inr f => Raise (UnicodeDecodeError (message f))
  end.

End Gbk.

(** [str.strip('\x00')] *)
Fixpoint lstrip_nul (t : text) : text :=
  match t with
  | 0%N :: t' => lstrip_nul t'
  | _ => t
  end.
Definition strip_nul (t : text) : text := rev (lstrip_nul (rev (lstrip_nul t))).

(** ** [struct.unpack] on the formats the reader uses

    Without a prefix character [struct] uses the machine's byte order, taken
    to be little-endian here; a buffer of the wrong size is a
    [struct.error]. *)

Module Struct.

Definition le_unsigned (bs : list byte) : Z :=
  fold_right (fun b acc => (Z.of_N (Byte.to_N b) + 256 * acc)%Z) 0%Z bs.

Definition signed (bits : Z) (u : Z) : Z :=
  if (u <? 2 ^ (bits - 1))%Z then u else (u - 2 ^ bits)%Z.

(** [struct.unpack('1i', buf)[0]] *)
Definition unpack_i (buf : list byte) : result Z :=
  if decide (length buf = 4) then Ok (signed 32 (le_unsigned buf))
  else Raise struct_error.

(** [struct.unpack('2i', buf)] *)
Definition unpack_2i (buf : list byte) : result (Z * Z) :=
  if decide (length buf = 8)
  then Ok (signed 32 (le_unsigned (take 4 buf)), signed 32 (le_unsigned (drop 4 buf)))
  else Raise struct_error.

End Struct.

(** ** Opening a file: magic tag and header table

    The file is opened read-only, so its bytes never change; a computation on
    it takes the current offset and returns a value with the new offset, or
    raises. *)

Module Reader.

Inductive shape_type : Type := POINT | POLYGON | LINE.

Section File.
Variable content : list byte.

Definition M (A : Type) : Type := nat -> result (A * nat).

Definition ret {A} (a : A) : M A := fun pos => Ok (a, pos).
Definition bind {A B} (m : M A) (f : A -> M B) : M B := fun pos =>
  match m pos with
  | Ok (a, pos') => f a pos'
  | Raise e => Raise e
  end.
Definition lift {A} (r : result A) : M A := fun pos =>
  match r with Ok a => Ok (a, pos) | Raise e => Raise e end.

Notation "x <- m ;; k" := (bind m (fun x => k))
  (at level 100, m at next level, right associativity).

(** [self.file.read(n)]: the bytes at the current offset, fewer than [n] of
    them (possibly none) at the end of the file. *)
Definition read (n : nat) : M (list byte) := fun pos =>
  let chunk := take n (drop pos content) in
  Ok (chunk, pos + length chunk).

(** [self.file.seek(target)]: any offset from [0] on is accepted, also one
    past the end of the file. *)
Definition seek (target : Z) : M unit := fun pos =>
  if (target <? 0)%Z then Raise OSError else Ok (tt, Z.to_nat target).

(** [[self.file.read(n) for _ in range(count)]] *)
Fixpoint read_blocks (count n : nat) : M (list (list byte)) :=
  match count with
  | O => ret []
  | S count' =>
      block <- read n ;;
      blocks <- read_blocks count' n ;;
      ret (block :: blocks)
  end.

Variable gbk_table : byte -> byte -> option N.

Definition type_dict : list (text * shape_type) :=
  [ (text_of_string "WMAP`D22", POINT);
    (text_of_string "WMAP`D23", POLYGON);
    (text_of_string "WMAP`D21", LINE) ].

Fixpoint dict_get {V} (d : list (text * V)) (k : text) : option V :=
  match d with
  | [] => None
  | (k', v) :: d' => if decide (k = k') then Some v else dict_get d' k
  end.

Definition _detect_shape_type : M shape_type :=
  raw <- read 8 ;;
  file_type <- lift (Gbk.decode gbk_table raw) ;;
  match dict_get type_dict file_type with
  | None => lift (Raise InvalidFileError)
  | Some shape =>
      _ <- read 4 ;;
      ret shape
  end.

Definition _read_headers : M (list (list byte)) :=
  raw <- read 4 ;;
  data_start <- lift (Struct.unpack_i raw) ;;
  _ <- seek data_start ;;
  read_blocks 10 10.

(** [self.headers[i][:-2]] *)
Definition header_pair (headers : list (list byte)) (i : nat) : result (Z * Z) :=
  match headers !! i with
  | None => Raise IndexError
  | Some block => Struct.unpack_2i (take (length block - 2) block)
  end.

(** The header block that locates the attribute table of a layer. *)
Definition attribute_header (shape : shape_type) : nat :=
  match shape with
  | POINT => 2
  | LINE => 2
  | POLYGON => 9
  end.

(** What follows the first statement of each branch of [_parse_feature_data]
    ([_parse_attributes(start)], the layer's geometry parser) and the table
    builder called last by [__init__] are taken together as [decode_rest],
    which yields the feature table. *)
Context {table : Type}.
Variable decode_rest : shape_type -> list (list byte) -> Z -> M table.

Definition _parse_feature_data (shape : shape_type) (headers : list (list byte))
    : M table :=
  start <- lift (header_pair headers (attribute_header shape)) ;;
  decode_rest shape headers (fst start).

Definition __init__ : result table :=
  match
    (shape <- _detect_shape_type ;;
     headers <- _read_headers ;;
     _parse_feature_data shape headers) 0
  with
  | Ok (t, _) => Ok t
  | Raise e => Raise e
  end.

End File.

(** The errors the specification declares for opening a file, and the
    exception each one stands for in the reader.  Every other exception is
    undeclared. *)
Inductive open_error : Type := UnsupportedFormat | CorruptHeader | SourceFileCorrupt.

Definition declared_as (e : exn) : option open_error :=
  match e with
  | InvalidFileError => Some UnsupportedFormat
  | SourceFileError => Some SourceFileCorrupt
  | _ => None
  end.

(** The offset of the header table, stored in bytes 12..15, and the bytes of
    the table: what the file holds from that offset on. *)
Definition table_offset (content : list byte) : Z :=
  Struct.signed 32 (Struct.le_unsigned (take 4 (drop 12 content))).

Definition header_table (content : list byte) : list byte :=
  drop (Z.to_nat (table_offset content)) content.

(** The ten blocks of a header table, each with the bytes there are for it. *)
Definition blocks_of (table : list byte) : list (list byte) :=
  (fun i => take 10 (drop (i * 10) table)) <$> seq 0 10.

(** The three magic tags as bytes, with the layer each one announces. *)
Definition magic_tags : list (list byte * shape_type) :=
  [ (list_byte_of_string "WMAP`D22", POINT);
    (list_byte_of_string "WMAP`D23", POLYGON);
    (list_byte_of_string "WMAP`D21", LINE) ].

End Reader.

(** ** Text fields of the attribute table ([_parse_attributes]) *)

Module Attributes.

Definition backslash : ascii := ascii_of_N 92.

Definition is_digit (c : ascii) : bool :=
  let n := N_of_ascii c in ((48 <=? n) && (n <=? 57))%N.

Fixpoint strip_prefix (p s : string) : option string :=
  match p, s with
  | EmptyString, _ => Some s
  | String a p', String b s' => if Ascii.eqb a b then strip_prefix p' s' else None
  | String _ _, EmptyString => None
  end.

Fixpoint take_while (f : ascii -> bool) (s : string) : string :=
  match s with
  | EmptyString => EmptyString
  | String c s' => if f c then String c (take_while f s') else EmptyString
  end.

(** [re.search('in position ' + group, s).group(1)], where [group] tells
    what the parenthesised part matches at the start of a string: the
    leftmost occurrence of the literal after which the group matches. *)
Fixpoint re_search_in_position (group : string -> option string) (s : string)
    : option string :=
  let here :=
    match strip_prefix "in position " s with
    | Some rest => group rest
    | None => None
    end in
  match here with
  | Some g => Some g
  | None =>
      match s with
      | EmptyString => None
      | String _ s' => re_search_in_position group s'
      end
  end.

(** The group of [r'in position (\d+)'] (line 81): one or more digits. *)
Definition group_digits (rest : string) : option string :=
  match take_while is_digit rest with
  | EmptyString => None
  | g => Some g
  end.

(** The group of [r'in position (\\d+)'] (line 136).  In a raw string the two
    backslashes stay two characters, which the regular expression reads as
    one literal backslash: the group is a backslash followed by one or more
    letters [d]. *)
Definition group_backslash_d (rest : string) : option string :=
  match rest with
  | String c rest' =>
      if Ascii.eqb c backslash then
        match take_while (Ascii.eqb "d") rest' with
        | EmptyString => None
        | g => Some (String backslash g)
        end
      else None
  | EmptyString => None
  end.

Definition invalid_literal (s : string) : exn :=
  ValueError ("invalid literal for int() with base 10: '" +:+ s +:+ "'").

(** [int(s)] for a text of decimal digits with an optional sign, the only
    texts it is applied to that do not raise [ValueError]. *)
Fixpoint digits_value (acc : Z) (s : string) : option Z :=
  match s with
  | EmptyString => Some acc
  | String c s' =>
      if is_digit c
      then digits_value (10 * acc + Z.of_N (N_of_ascii c - 48))%Z s'
      else None
  end.

Definition int (s : string) : result Z :=
  let unsigned (sign : Z) (d : string) :=
    match d with
    | EmptyString => Raise (invalid_literal s)
    | _ => match digits_value 0 d with
           | Some z => Ok (sign * z)%Z
           | None => Raise (invalid_literal s)
           end
    end in
  match s with
  | String "-" d => unsigned (-1)%Z d
  | String "+" d => unsigned 1%Z d
  | _ => unsigned 1%Z s
  end.

(** Whether a character occurs in a text. *)
Fixpoint mentions (c : ascii) (s : string) : bool :=
  match s with
  | EmptyString => false
  | String a s' => Ascii.eqb a c || mentions c s'
  end.

Section Fields.
Variable gbk_table : byte -> byte -> option N.

(** Lines 78-82: the name of a field. *)
Definition field_name (raw : list byte) : result text :=
  match Gbk.decode_from gbk_table 0 raw with
  | inl t => Ok (strip_nul t)
  | inr err =>
      match re_search_in_position group_digits (Gbk.message err) with
      | None => Raise AttributeError
      | Some g =>
          p ← int g;
          Gbk.decode gbk_table (take (Z.to_nat p) raw)
      end
  end.

(** Lines 132-140: the value of a field of type [0] (string). *)
Definition string_field (value : list byte) : result text :=
  match Gbk.decode_from gbk_table 0 value with
  | inl t => Ok (strip_nul t)
  | inr err =>
      match re_search_in_position group_backslash_d (Gbk.message err) with
      | Some g =>
          p ← int g;
          Gbk.decode gbk_table (take (Z.to_nat p) value)
      | None => Ok (strip_nul (Gbk.decode_replace gbk_table value))
      end
  end.

End Fields.

End Attributes.

(** ** Coordinate reference system ([_parse_crs]) *)

Module Crs.

(** A caller's [wkid]: an integer, or the text of one. *)
Inductive pyval : Type := PyInt (z : Z) | PyStr (s : string).

Definition str (v : pyval) : string :=
  match v with
  | PyInt z => pretty z
  | PyStr s => s
  end.

(** The coordinate scale: the caller's [scale_factor], the integer [1], or a
    float. *)
Inductive number : Type := Int (z : Z) | Float (f : float).

Definition float_of_Z (z : Z) : float :=
  SF2Prim (SpecFloat.binary_normalize prec emax z 0 false).

(** [x == 0] *)
Definition is_zero (x : number) : bool :=
  match x with
  | Int z => (z =? 0)%Z
  | Float f => PrimFloat.eqb f 0
  end.

(** [z / 1000] for an [int]: the exact quotient rounded once, to the nearest
    double (ties to even), by the division of [SpecFloat] on the integers
    themselves; [OverflowError] when the rounded quotient is beyond the
    doubles. *)
Definition int_div1000 (z : Z) : result float :=
  match z with
  | Z0 => Ok 0%float
  | _ =>
      let '(mz, ez, lz) :=
        SpecFloat.SFdiv_core_binary prec emax (Z.abs z) 0 1000 0 in
      match SpecFloat.binary_round_aux prec emax (z <? 0)%Z mz ez lz with
      | SpecFloat.S754_infinity _ => Raise OverflowError
      | q => Ok (SF2Prim q)
      end
  end.

(** [x / 1000]: the division of doubles for a float, which does not raise. *)
Definition div1000 (x : number) : result number :=
  match x with
  | Int z => q ← int_div1000 z; Ok (Float q)
  | Float f => Ok (Float (f / 1000)%float)
  end.

(** A CRS object is described by what it was built from: the parameters of
    the [+proj=tmerc] or [+proj=longlat] text, or the EPSG code. *)
Inductive crs_def : Type :=
  | Tmerc (lon_0 : float) (ellps : string)
  | LongLat (ellps : string)
  | Epsg (code : pyval).

(** The values [self.crs] takes. *)
Inductive crs_value : Type :=
  | EmptyStr
  | PyNone
  | CRS (d : crs_def).

(** Truth value of [self.crs] in [if self.crs:]. *)
Definition truthy (c : crs_value) : bool :=
  match c with
  | CRS _ => true
  | _ => false
  end.

Inductive key : Type := KInt (z : Z) | KStr (s : string).

#[global] Instance key_eq_dec : EqDecision key.
Proof. solve_decision. Defined.

Definition ellip_dict : list (key * string) :=
  [ (KInt 1, "+ellps=krass +towgs84=15.8,-154.4,-82.3,0,0,0,0 +units=m +no_d");
    (KInt 2, "+a=6378140 +b=6356755.288157528");
    (KInt 7, "+datum=WGS84");
    (KInt 9, "+ellps=WGS72");
    (KInt 10, "+ellps=aust_SA +towgs84=-117.808,-51.536,137.784,0.303,0.446,0.234,-0.29");
    (KInt 11, "+ellps=aust_SA +towgs84=-134,-48,149,0,0,0,0");
    (KInt 16, "+ellps=krass");
    (KInt 116, "+ellps=clrk80 +towgs84=-166,-15,204,0,0,0,0");
    (KStr "cgcs2000", "+ellps=GRS80") ].

Fixpoint dict_get (d : list (key * string)) (k : key) : option string :=
  match d with
  | [] => None
  | (k', v) :: d' => if decide (k = k') then Some v else dict_get d' k
  end.

(** [ellip_dict[ellipsoid]] *)
Definition getitem (ellipsoid : Z) : result string :=
  match dict_get ellip_dict (KInt ellipsoid) with
  | Some v => Ok v
  | None => Raise (KeyError ellipsoid)
  end.

(** [ellipsoid in ellip_dict] *)
Definition contains (ellipsoid : Z) : bool :=
  bool_decide (is_Some (dict_get ellip_dict (KInt ellipsoid))).

(** What [_parse_crs] reads at its fixed offsets: the bytes at 109 and 110,
    the double at 143, and the double at 151 in the form the code uses it,
    its decimal text [str(cl)]. *)
Record crs_block : Type := CrsBlock {
  proj_type : Z;
  ellipsoid : Z;
  file_scale : float;
  meridian_text : string
}.

(** [s.split('.')[0]] *)
Fixpoint before_dot (s : string) : string :=
  match s with
  | EmptyString => EmptyString
  | String c s' => if Ascii.eqb c "." then EmptyString else String c (before_dot s')
  end.

(** [s[lo:hi]] for offsets counted back from the end, as Python clips them. *)
Definition slice_from_end (s : string) (lo hi : nat) : string :=
  let n := String.length s in
  substring (n - lo) ((n - hi) - (n - lo)) s.

(** An [int] in arithmetic with a float: the nearest double, and
    [OverflowError] for an integer beyond the doubles. *)
Definition float_of_int (z : Z) : result float :=
  match SpecFloat.binary_normalize prec emax z 0 false with
  | SpecFloat.S754_infinity _ => Raise OverflowError
  | q => Ok (SF2Prim q)
  end.

(** Lines 458 and 466: degrees, minutes and seconds packed as [DDDMMSS], in
    the order in which Python evaluates the sum. *)
Definition central_meridian (cl : string) : result float :=
  let whole := before_dot cl in
  d ← Attributes.int (slice_from_end whole (String.length whole) 4);
  m ← Attributes.int (slice_from_end whole 4 2);
  minutes ← float_of_int m;
  degrees ← float_of_int d;
  s ← Attributes.int (slice_from_end whole 2 0);
  seconds ← float_of_int s;
  Ok (degrees + minutes / 60 + seconds / 60 / 60)%float.

Section Resolve.
(** Whether [CRS.from_epsg] knows a code; it raises [CRSError] otherwise. *)
Variable epsg_known : pyval -> bool.

(** Lines 455-474, entered with the values of [self.crs] (if set) and
    [self.coordinate_scale]. *)
Definition by_projection (wkid : option pyval) (blk : crs_block)
    (crs : option crs_value) (scale : number)
    : result (option crs_value * number) :=
  st ← (if (proj_type blk =? 5)%Z && bool_decide (wkid = None) then
          cl ← central_meridian (meridian_text blk);
          ellps ← getitem (ellipsoid blk);
          Ok (Some (CRS (Tmerc cl ellps)), scale)
        else if (proj_type blk =? 0)%Z && bool_decide (wkid = None) then
          ellps ← getitem (ellipsoid blk);
          Ok (Some (CRS (LongLat ellps)), scale)
        else if ((proj_type blk =? 2)%Z || (proj_type blk =? 3)%Z)
                && bool_decide (wkid = None) then
          scale ← div1000 scale;
          _ ← central_meridian (meridian_text blk);
          Ok (match wkid with None => Some PyNone | Some _ => crs end, scale)
        else Ok (crs, scale));
  match wkid with
  | Some code =>
      if epsg_known code then Ok (Some (CRS (Epsg code)), st.2)
      else Raise CRSError
  | None => Ok st
  end.

(** [_parse_crs]: from the caller's [wkid] and [scale_factor] to the values
    of [self.crs] ([None] while the attribute is not set) and
    [self.coordinate_scale]. *)
Definition _parse_crs (wkid : option pyval) (scale_factor : option number)
    (blk : crs_block) : result (option crs_value * number) :=
  let '(scale_key, scale) :=
    match scale_factor with
    | Some s => (1%Z, s)
    | None => (0%Z, Float (file_scale blk))
    end in
  if negb (contains (ellipsoid blk)) || is_zero scale then
    if (ellipsoid blk =? 0)%Z
       && match wkid with
          | None => true
          | Some code => String.eqb (str code) "0"
          end
    then Ok (Some EmptyStr, scale)
    else
      scale ← (if (scale_key =? 1)%Z then div1000 scale else Ok (Int 1));
      by_projection wkid blk (Some EmptyStr) scale
  else by_projection wkid blk None scale.

End Resolve.

(** The specification's [Empty] CRS: [self.crs] holds no CRS object. *)
Definition is_empty (c : option crs_value) : bool :=
  match c with
  | Some EmptyStr => true
  | Some PyNone => true
  | _ => false
  end.

End Crs.

(** ** Polygons with holes from rings ([get_multipolygons]) *)

Module Polygons.

Section Assemble.
Context {ring : Type}.

(** Lines 682-687: whether the polygon of one ring lies within the polygon
    of another, by shapely's [within] or, where that raises, by one vertex
    lying within.  The geometry library is not part of the repository. *)
Variable inside : ring -> ring -> bool.

(** [shapely.geometry.Polygon(shell, holes)] *)
Record Polygon : Type := MkPolygon { shell : ring; holes : list ring }.

(** [level_0]: a dict from ring index to rings, in insertion order. *)
Definition level : Type := list (nat * list ring).

Definition relation_row (lines : list ring) (i : nat) (li : ring) : list bool :=
  imap (fun j lj => if decide (i = j) then false else inside li lj) lines.

(** The matrix [relation], row by row. *)
Definition relation (lines : list ring) : list (list bool) :=
  imap (relation_row lines) lines.

(** [(relation[i] == 1).sum()] *)
Fixpoint row_sum (row : list bool) : nat :=
  match row with
  | [] => 0
  | b :: row' => (if b then 1 else 0) + row_sum row'
  end.

(** [np.argwhere(relation[i] == 1)[0][0]] *)
Fixpoint first_one (row : list bool) : option nat :=
  match row with
  | [] => None
  | b :: row' => if b then Some 0 else S <$> first_one row'
  end.

Fixpoint dict_mem (d : level) (k : nat) : bool :=
  match d with
  | [] => false
  | (k', _) :: d' => if decide (k = k') then true else dict_mem d' k
  end.

(** [d[k] = v] *)
Fixpoint dict_set (d : level) (k : nat) (v : list ring) : level :=
  match d with
  | [] => [(k, v)]
  | (k', v') :: d' =>
      if decide (k = k') then (k, v) :: d' else (k', v') :: dict_set d' k v
  end.

(** [d[k].append(x)] *)
Fixpoint dict_append (d : level) (k : nat) (x : ring) : level :=
  match d with
  | [] => []
  | (k', v') :: d' =>
      if decide (k = k') then (k', v' ++ [x]) :: d' else (k', v') :: dict_append d' k x
  end.

(** The rings with their index and their row of [relation]. *)
Definition indexed (lines : list ring) : list (nat * (ring * list bool)) :=
  imap (fun i x => (i, x)) (zip lines (relation lines)).

(** Lines 691-693: a ring that no ring contains opens an entry. *)
Definition seed_outer (lines : list ring) : level :=
  fold_left
    (fun d '(i, (line, row)) =>
       if existsb id row then d else dict_set d i [line])
    (indexed lines) [].

(** Lines 694-699: a ring with one container joins that ring's entry. *)
Definition attach_holes (lines : list ring) (d : level) : level :=
  fold_left
    (fun d '(i, (line, row)) =>
       if decide (row_sum row = 1) then
         match first_one row with
         | Some idx =>
             let d := if dict_mem d idx then d else dict_set d idx [] in
             dict_append d idx line
         | None => d
         end
       else d)
    (indexed lines) d.

Definition level_0 (lines : list ring) : level :=
  attach_holes lines (seed_outer lines).

(** [[Polygon(i[0], i[1:]) for i in level_0.values()]] *)
Fixpoint polygons_of (d : level) : result (list Polygon) :=
  match d with
  | [] => Ok []
  | (_, []) :: _ => Raise IndexError
  | (_, outer :: inner) :: d' =>
      rest ← polygons_of d';
      Ok (MkPolygon outer inner :: rest)
  end.

(** [((relation == 1).sum(1) == 2).any()] *)
Definition some_row_sums_to_two (lines : list ring) : bool :=
  existsb (fun row => bool_decide (row_sum row = 2)) (relation lines).

(** [[lines[i] for i in np.argwhere((relation == 1).sum(1) > 1).flatten()]] *)
Definition contained_more_than_once (lines : list ring) : list ring :=
  fst <$> filter (fun lr => 1 < row_sum (snd lr)) (zip lines (relation lines)).

(** The function proper, with a bound on the depth of its recursion. *)
Fixpoint get_multipolygons_rec (fuel : nat) (lines : list ring)
    : result (list Polygon) :=
  match fuel with
  | O => Raise RecursionError
  | S fuel' =>
      if negb (some_row_sums_to_two lines) then polygons_of (level_0 lines)
      else
        temp ← polygons_of (level_0 lines);
        more ← get_multipolygons_rec fuel' (contained_more_than_once lines);
        Ok (temp ++ more)
  end.

(** A call that passes all of its rings on repeats itself without end; every
    other call passes fewer rings on, so that a depth of one more than the
    number of rings is never reached otherwise. *)
Definition get_multipolygons (lines : list ring) : result (list Polygon) :=
  get_multipolygons_rec (S (length lines)) lines.

End Assemble.

(** Rings for examples: the corners of axis-parallel rectangles with integer
    coordinates, for which [within] is inclusion of the one rectangle in the
    other. *)
Definition rectangle (x0 y0 x1 y1 : Z) : list (Z * Z) :=
  [(x0, y0); (x1, y0); (x1, y1); (x0, y1); (x0, y0)].

Definition extent (r : list (Z * Z)) : Z * Z * Z * Z :=
  match r with
  | [] => (0, 0, 0, 0)%Z
  | (x, y) :: r' =>
      fold_left
        (fun '(x0, y0, x1, y1) '(x, y) =>
           (Z.min x0 x, Z.min y0 y, Z.max x1 x, Z.max y1 y))
        r' (x, y, x, y)
  end.

Definition rectangle_within (a b : list (Z * Z)) : bool :=
  let '(ax0, ay0, ax1, ay1) := extent a in
  let '(bx0, by0, bx1, by1) := extent b in
  ((bx0 <=? ax0) && (by0 <=? ay0) && (ax1 <=? bx1) && (ay1 <=? by1))%Z.

End Polygons.

(** ** The feature table ([_build_geodataframe]) *)

Module Builder.

(** [needle in s] *)
Fixpoint substring_of (needle s : string) : bool :=
  match Attributes.strip_prefix needle s with
  | Some _ => true
  | None =>
      match s with
      | EmptyString => false
      | String _ s' => substring_of needle s'
      end
  end.

(** The message pandas gives a [ValueError] for a column of [g] values set on
    a frame of [d] rows. *)
Definition length_mismatch (d g : nat) : string :=
  "Length of values (" +:+ pretty g +:+ ") does not match length of index ("
  +:+ pretty d +:+ ")".

(** What pandas does with a column of [g] values set on a frame of [d] rows:
    a frame without rows takes the index of the column, whatever [g] is; a
    frame with rows refuses a column of another length. *)
Definition pandas_lengths (d g : nat) : option string :=
  if decide (d = 0 ∨ d = g) then None else Some (length_mismatch d g).

Section Build.
Context {row geometry : Type}.

(** [gpd.GeoDataFrame(data, geometry=geom)] belongs to geopandas, not to the
    repository: [frame_error d g] is the message of the [ValueError] it
    raises for [d] rows and [g] geometries, if it raises one. *)
Variable frame_error : nat -> nat -> option string.

(** A row of the frame holds the attributes of a row of the table, or
    missing values ([None]), and a geometry. *)
Record GeoDataFrame : Type := MkFrame {
  features : list (option row * geometry);
  frame_crs : option Crs.crs_value
}.

(** What the builder leaves on the reader. *)
Record built : Type := MkBuilt {
  data : list row;
  geom : list geometry;
  geodataframe : GeoDataFrame;
  _data_repaired : bool
}.

(** The rows of a frame that was accepted: a table without rows that is
    given geometries gets one row of missing values for each of them. *)
Definition rows (data : list row) (geom : list geometry)
    : list (option row * geometry) :=
  match data with
  | [] => (fun g => (None, g)) <$> geom
  | _ :: _ => zip (Some <$> data) geom
  end.

Definition new_frame (data : list row) (geom : list geometry) : result GeoDataFrame :=
  match frame_error (length data) (length geom) with
  | Some msg => Raise (ValueError msg)
  | None => Ok (MkFrame (rows data geom) None)
  end.

(** [if self.crs: self.geodataframe.crs = self.crs]; reading an attribute
    that was never set raises. *)
Definition with_crs (self_crs : option Crs.crs_value) (frame : GeoDataFrame)
    : result GeoDataFrame :=
  match self_crs with
  | None => Raise AttributeError
  | Some c =>
      Ok (if Crs.truthy c then MkFrame (features frame) (Some c) else frame)
  end.

Definition _build_geodataframe (self_crs : option Crs.crs_value)
    (data : list row) (geom : list geometry) : result built :=
  match new_frame data geom ≫= with_crs self_crs with
  | Ok frame => Ok (MkBuilt data geom frame false)
  | Raise (ValueError msg) =>
      if substring_of "Length of values" msg then
        let min_length := Nat.min (length data) (length geom) in
        let data := take min_length data in
        let geom := take min_length geom in
        frame ← new_frame data geom ≫= with_crs self_crs;
        Ok (MkBuilt data geom frame true)
      else Raise (ValueError msg)
  | Raise e => Raise e
  end.

End Build.

End Builder.

(** ** Values too wide for a shapefile field ([to_file]) *)

Module Sanitizer.

Section Frame.
Context {object : Type}.

(** The columns a reader's frame has: [float64], where a missing value is a
    NaN, [int64], and [object] for everything else. *)
Inductive column : Type :=
  | Float64 (values : list float)
  | Int64 (values : list Z)
  | Object (values : list object).

Definition frame : Type := list (string * column).

(** [col.dtype in ['float64', 'float32', 'int64', 'int32']] *)
Definition numeric (col : column) : bool :=
  match col with
  | Object _ => false
  | _ => true
  end.

(** numpy's [abs] on [int64] wraps around at the least value. *)
Definition int64_abs (v : Z) : Z :=
  if (v =? - 2 ^ 63)%Z then v else Z.abs v.

(** [(col.abs() > threshold) | (col.isnull())] *)
Definition large_values (threshold : float) (col : column) : list bool :=
  match col with
  | Float64 values =>
      map (fun x => PrimFloat.ltb threshold (PrimFloat.abs x) || PrimFloat.is_nan x) values
  | Int64 values =>
      map (fun v => PrimFloat.ltb threshold (Crs.float_of_Z (int64_abs v)) || false) values
  | Object values => map (fun _ => false) values
  end.

Fixpoint set_where {A} (mask : list bool) (zero : A) (values : list A) : list A :=
  match mask, values with
  | m :: mask', v :: values' => (if m then zero else v) :: set_where mask' zero values'
  | _, _ => values
  end.

(** [df.loc[mask, column_name] = 0.0] on one column. *)
Definition zero_where (mask : list bool) (col : column) : column :=
  match col with
  | Float64 values => Float64 (set_where mask 0%float values)
  | Int64 values => Int64 (set_where mask 0%Z values)
  | Object values => Object values
  end.

Fixpoint get (df : frame) (name : string) : option column :=
  match df with
  | [] => None
  | (n, c) :: df' => if decide (name = n) then Some c else get df' name
  end.

Fixpoint set (df : frame) (name : string) (col : column) : frame :=
  match df with
  | [] => []
  | (n, c) :: df' =>
      if decide (name = n) then (n, col) :: df' else (n, c) :: set df' name col
  end.

Definition fix_large_values (df : frame) (column_name : string) (threshold : float)
    : frame :=
  match get df column_name with
  | None => df
  | Some col =>
      if numeric col then
        let mask := large_values threshold col in
        if existsb id mask then set df column_name (zero_where mask col) else df
      else df
  end.

(** What lines 519-523 make of one column. *)
Definition zeroed (col : column) : column :=
  if numeric col then
    if existsb id (large_values 1e12 col)
    then zero_where (large_values 1e12 col) col else col
  else col.

(** One call of [fix_large_values] on a frame whose names are distinct. *)
Definition zeroed_at (name : string) (nc : string * column) : string * column :=
  (nc.1, if decide (nc.1 = name) then zeroed nc.2 else nc.2).

(** What the specification asks of one column: 0 in place of each entry
    that is null or whose absolute value exceeds [1e12], every other entry
    as it is. *)
Definition sanitized (col : column) : column :=
  match col with
  | Float64 values =>
      Float64 (map (fun x =>
                 if PrimFloat.ltb 1e12 (PrimFloat.abs x) || PrimFloat.is_nan x
                 then 0%float else x) values)
  | Int64 values =>
      Int64 (map (fun v =>
               if PrimFloat.ltb 1e12 (Crs.float_of_Z (Z.abs v))
               then 0%Z else v) values)
  | Object values => Object values
  end.


(** [select_dtypes(include=[...]).columns] *)
Definition numeric_columns (df : frame) : list string :=
  fst <$> filter (fun nc => numeric (snd nc)) df.

(** Lines 525-527 of [to_file]. *)
Definition fix_all_large_values (df : frame) : frame :=
  fold_left (fun df col => fix_large_values df col 1e12%float) (numeric_columns df) df.

End Frame.

End Sanitizer.

(** ** Files and values for the examples *)

Module Examples.

(** A polygon layer whose header table, at offset 16, stops after 50 bytes. *)
Definition short_table_file : list byte :=
  list_byte_of_string "WMAP`D23"
  ++ [x00; x00; x00; x00]
  ++ [x10; x00; x00; x00]
  ++ repeat x01 50.

(** A point layer whose header table, at offset 16, stops after its third
    block; that block puts the attribute table at offset 64. *)
Definition point_short_table_file : list byte :=
  list_byte_of_string "WMAP`D22"
  ++ [x00; x00; x00; x00]
  ++ [x10; x00; x00; x00]
  ++ repeat x01 20
  ++ [x40; x00; x00; x00; x00; x00; x00; x00; x00; x00].

(** A codec table without any double-byte character, and a decoder that
    returns as soon as the attribute table is located. *)
Definition no_pairs : byte -> byte -> option N := fun _ _ => None.

Definition stop_at_attributes
    : Reader.shape_type -> list (list byte) -> Z -> Reader.M Z :=
  fun _ _ start => Reader.ret start.

(** Every EPSG code resolves. *)
Definition all_codes : Crs.pyval -> bool := fun _ => true.

(** Gauss-Krueger projection, an ellipsoid code that the reader does not
    know, a scale of 1 and the central meridian 117 degrees. *)
Definition gk_unknown_ellipsoid : Crs.crs_block :=
  Crs.CrsBlock 2 3 1%float "1170000.0".

(** Longitude and latitude on the same unknown ellipsoid. *)
Definition longlat_unknown_ellipsoid : Crs.crs_block :=
  Crs.CrsBlock 0 3 1%float "0.0".

(** An unknown ellipsoid with a projection the reader has no branch for. *)
Definition other_unknown_ellipsoid : Crs.crs_block :=
  Crs.CrsBlock 1 3 1%float "0.0".

(** Transverse Mercator with ellipsoid code 0. *)
Definition tmerc_no_ellipsoid : Crs.crs_block :=
  Crs.CrsBlock 5 0 1%float "1170000.0".

(** Transverse Mercator on WGS84. *)
Definition tmerc_wgs84 : Crs.crs_block :=
  Crs.CrsBlock 5 7 1%float "1170000.0".

(** A frame with one [float64] column, one [int64] column and one column of
    texts. *)
Definition measurements : @Sanitizer.frame string :=
  [ ("area", Sanitizer.Float64 [5; 2e13; nan; -3e13]%float);
    ("count", Sanitizer.Int64 [7; 20000000000000; -2147483648]%Z);
    ("name", Sanitizer.Object ["a"; "b"; "c"; "d"]) ].

(** Four rectangles: [small] lies within each of the other three, none of
    which lies within another. *)
Definition small : list (Z * Z) := Polygons.rectangle 4 4 6 6.
Definition left_sheet : list (Z * Z) := Polygons.rectangle 0 0 10 10.
Definition right_sheet : list (Z * Z) := Polygons.rectangle 2 2 12 12.
Definition tall_sheet : list (Z * Z) := Polygons.rectangle 3 (-1) 9 13.

(** Three rectangles, each within the one before, and one apart from them. *)
Definition outer : list (Z * Z) := Polygons.rectangle 0 0 10 10.
Definition hole : list (Z * Z) := Polygons.rectangle 2 2 8 8.
Definition island : list (Z * Z) := Polygons.rectangle 4 4 6 6.
Definition apart : list (Z * Z) := Polygons.rectangle 20 0 30 10.

End Examples.

(** ** Helpers for statements about texts *)

Module TextFacts.

(** Whether every character of a text satisfies a test. *)
Fixpoint all_chars (p : ascii -> bool) (s : string) : bool :=
  match s with
  | EmptyString => true
  | String c s' => p c && all_chars p s'
  end.

End TextFacts.

(** ** More files and values for the examples *)

Module MoreExamples.

(** A line layer that ends after the tag's four reserved bytes and two more,
    and a line layer whose table offset is -1. *)
Definition truncated_file : list byte :=
  list_byte_of_string "WMAP`D21" ++ [x00; x00; x00; x00; x10; x00].

Definition negative_offset_file : list byte :=
  list_byte_of_string "WMAP`D21" ++ [x00; x00; x00; x00] ++ [xff; xff; xff; xff].

(** Longitude and latitude on WGS84, and on an ellipsoid code of 0. *)
Definition longlat_wgs84 : Crs.crs_block :=
  Crs.CrsBlock 0 7 1%float "0.0".

Definition longlat_no_ellipsoid : Crs.crs_block :=
  Crs.CrsBlock 0 0 1%float "0.0".

(** Transverse Mercator on an unknown ellipsoid. *)
Definition tmerc_unknown_ellipsoid : Crs.crs_block :=
  Crs.CrsBlock 5 3 1%float "1170000.0".

(** Transverse Mercator on WGS84 with a central meridian of 0. *)
Definition tmerc_meridian_zero : Crs.crs_block :=
  Crs.CrsBlock 5 7 1%float "0.0".

(** WGS84 with a projection type the reader has no branch for. *)
Definition other_projection_wgs84 : Crs.crs_block :=
  Crs.CrsBlock 1 7 1%float "0.0".

End MoreExamples.

(** ** Measures on frames *)

Module FrameFacts.

(** The number of entries of a column. *)
Definition rows {object : Type} (col : @Sanitizer.column object) : nat :=
  match col with
  | Sanitizer.Float64 values => length values
  | Sanitizer.Int64 values => length values
  | Sanitizer.Object values => length values
  end.

(** Whether the sanitizer takes a float, or an integer, for too large or
    null. *)
Definition float_too_large (x : float) : bool :=
  PrimFloat.ltb 1e12 (PrimFloat.abs x) || PrimFloat.is_nan x.

Definition int_too_large (v : Z) : bool :=
  PrimFloat.ltb 1e12 (Crs.float_of_Z (Sanitizer.int64_abs v)).

(** Whether the absolute value of an integer, as a float, is beyond
    [1e12]. *)
Definition int_beyond_bound (v : Z) : bool :=
  PrimFloat.ltb 1e12 (Crs.float_of_Z (Z.abs v)).

End FrameFacts.

(** ** Chaining boundary segments into rings ([_parse_polygons], lines 384-413) *)

Module Chain.

Section Rings.
Context {point : Type}.

(** [np.allclose(a, b)] on two coordinate pairs; numpy is not part of the
    repository. *)
Variable allclose : point -> point -> bool.

(** [l[0]] and [l[-1]] *)
Definition first (l : list point) : result point :=
  match l with
  | [] => Raise IndexError
  | p :: _ => Ok p
  end.

Definition final (l : list point) : result point :=
  match last l with
  | None => Raise IndexError
  | Some p => Ok p
  end.

(** Lines 392-411: the four ways in which a segment continues the ring, tried
    in order; [None] when the segment fits at neither end. *)
Definition join (ring seg : list point) : result (option (list point)) :=
  ring_end ← final ring;
  seg_start ← first seg;
  if allclose ring_end seg_start then Ok (Some (ring ++ tail seg))
  else
    seg_end ← final seg;
    if allclose ring_end seg_end then Ok (Some (ring ++ rev (removelast seg)))
    else
      ring_start ← first ring;
      if allclose ring_start seg_end then Ok (Some (removelast seg ++ ring))
      else if allclose ring_start seg_start then Ok (Some (removelast (rev seg) ++ ring))
      else Ok None.

(** Lines 391-411: the first segment of [m] that continues the ring is joined
    to it and taken out of [m]. *)
Fixpoint scan (ring : list point) (m : list (list point))
    : result (option (list point * list (list point))) :=
  match m with
  | [] => Ok None
  | seg :: rest =>
      joined ← join ring seg;
      match joined with
      | Some ring' => Ok (Some (ring', rest))
      | None =>
          found ← scan ring rest;
          Ok (match found with
              | Some (ring', rest') => Some (ring', seg :: rest')
              | None => None
              end)
      end
  end.

(** Lines 389-411, [while changed and m]: every round but the last takes a
    segment out of [m], so that one round per segment and one more are
    enough. *)
Fixpoint grow (rounds : nat) (ring : list point) (m : list (list point))
    : result (list point * list (list point)) :=
  match m with
  | [] => Ok (ring, [])
  | _ :: _ =>
      match rounds with
      | O => Raise RecursionError
      | S rounds' =>
          found ← scan ring m;
          match found with
          | Some (ring', m') => grow rounds' ring' m'
          | None => Ok (ring, m)
          end
      end
  end.

(** Lines 386-412, [while m]: every round takes at least one segment. *)
Fixpoint chain (rounds : nat) (m : list (list point)) : result (list (list point)) :=
  match m with
  | [] => Ok []
  | ring :: rest =>
      match rounds with
      | O => Raise RecursionError
      | S rounds' =>
          grown ← grow (S (length rest)) ring rest;
          lines ← chain rounds' grown.2;
          Ok (grown.1 :: lines)
      end
  end.

(** Lines 385-413: the rings made of the segments [m], without those of two
    points or fewer. *)
Definition rings (m : list (list point)) : result (list (list point)) :=
  lines ← chain (length m) m;
  Ok (filter (fun ring => 2 < length ring) lines).

End Rings.

(** The number of points of some rings or segments. *)
Definition points {point : Type} (ls : list (list point)) : nat :=
  length (concat ls).

End Chain.

(** ** Boundary segments of a unit square *)

Module ChainExamples.

(** Coordinates are whole numbers here, on which [np.allclose] holds for
    equal pairs only. *)
Definition same_point (a b : Z * Z) : bool :=
  (a.1 =? b.1)%Z && (a.2 =? b.2)%Z.

(** The four sides of a square, two of them drawn backwards, and a segment
    that touches none of them. *)
Definition south : list (Z * Z) := [(0, 0); (1, 0)]%Z.
Definition east : list (Z * Z) := [(1, 1); (1, 0)]%Z.
Definition north : list (Z * Z) := [(1, 1); (0, 1)]%Z.
Definition west : list (Z * Z) := [(0, 0); (0, 1)]%Z.
Definition stray : list (Z * Z) := [(5, 5); (6, 6)]%Z.

Definition sides : list (list (Z * Z)) := [south; east; stray; north; west].

Definition square : list (Z * Z) := [(0, 0); (1, 0); (1, 1); (0, 1); (0, 0)]%Z.

End ChainExamples.

(** ** Record layout ([_parse_attributes], lines 101-115) *)

Module Layout.

(** [l[i]] for an index that is not negative. *)
Definition item {A : Type} (l : list A) (i : nat) : result A :=
  match l !! i with
  | Some a => Ok a
  | None => Raise IndexError
  end.

(** A bound of a slice [l[a:b]]: counted from the end when negative, and cut
    to the length of [l]. *)
Definition slice_bound (len : nat) (i : Z) : nat :=
  if (i <? 0)%Z then Z.to_nat (Z.max 0 (Z.of_nat len + i))
  else Nat.min (Z.to_nat i) len.

(** [l[start:stop]], where [stop] may be [None]. *)
Definition slice {A : Type} (l : list A) (start : Z) (stop : option Z) : list A :=
  let lo := slice_bound (length l) start in
  let hi := match stop with
            | Some e => slice_bound (length l) e
            | None => length l
            end in
  take (hi - lo) (drop lo l).

(** [[body(i) for i in range(start, start + count)]] *)
Fixpoint for_range {A : Type} (body : nat -> result A) (start count : nat)
    : result (list A) :=
  match count with
  | O => Ok []
  | S count' =>
      a ← body start;
      rest ← for_range body (S start) count';
      Ok (a :: rest)
  end.

(** Lines 101-102: the length of each field, from the offset of the next
    one, or from the length of the record for the last. *)
Definition field_actual_lengths (field_offsets : list Z) (record_length : Z)
    : result (list Z) :=
  let offsets := field_offsets ++ [record_length] in
  for_range (fun i =>
               hi ← item offsets (i + 1);
               lo ← item offsets i;
               Ok (hi - lo)%Z)
            0 (length field_offsets).

(** Lines 113-115: the bytes of field [j] in a row. *)
Definition field_value (row : list byte) (field_offsets : list Z) (j : nat)
    : result (list byte) :=
  start_idx ← item field_offsets j;
  end_idx ← (if decide (j < length field_offsets - 1)
             then e ← item field_offsets (j + 1); Ok (Some e)
             else Ok None);
  Ok (slice row start_idx end_idx).

(** Lines 112-115: the bytes of every field of a row. *)
Definition field_values (row : list byte) (field_offsets : list Z)
    : result (list (list byte)) :=
  for_range (field_value row field_offsets) 0 (length field_offsets).

End Layout.

(** What a comprehension over the indexes of a list computes from each item
    and the one that follows it, by recursion on the list. *)
Module LayoutAux.

Fixpoint adjacent {A B : Type} (h : A -> option A -> B) (l : list A) : list B :=
  match l with
  | [] => []
  | a :: rest => h a (head rest) :: adjacent h rest
  end.

End LayoutAux.

(** A record of eight bytes with fields at offsets 0, 4 and 6. *)
Module LayoutExamples.

Definition offsets : list Z := [0; 4; 6]%Z.

Definition row : list byte :=
  [x01; x00; x00; x00; x41; x42; x07; x00]%byte.

End LayoutExamples.

(** ** Field names for a shapefile ([_sanitize_field_names], lines 534-645) *)

Module FieldNames.

Definition underscore : N := 95.

(** [f"_{idx}"] *)
Definition suffix (idx : nat) : text :=
  underscore :: text_of_string (pretty idx).

(** Lines 537-585: the dict literal [field_map], item by item. *)
Definition field_map : list (text * text) :=
  [
    (text_of_string "ID", text_of_string "ID");
    ([0x9762; 0x79EF]%N, text_of_string "Area"); (* 面积 *)
    ([0x5468; 0x957F]%N, text_of_string "Perimeter"); (* 周长 *)
    (text_of_string "GB", text_of_string "GB");
    (text_of_string "Shape_Leng", text_of_string "Shape_Leng");
    (text_of_string "Shape_Area", text_of_string "Shape_Area");
    (text_of_string "ID-1", text_of_string "ID_1");
    ([0x586B; 0x5145; 0x989C; 0x8272]%N, text_of_string "FillColor"); (* 填充颜色 *)
    ([0x586B; 0x5145; 0x7B26; 0x53F7]%N, text_of_string "FillSymbol"); (* 填充符号 *)
    ([0x56FE; 0x6848; 0x9AD8; 0x5EA6]%N, text_of_string "PatternH"); (* 图案高度 *)
    ([0x56FE; 0x6848; 0x5BBD; 0x5EA6]%N, text_of_string "PatternW"); (* 图案宽度 *)
    ([0x56FE; 0x6848; 0x989C; 0x8272]%N, text_of_string "PatternC"); (* 图案颜色 *)
    ([0x5750; 0x6807; 0x58]%N, text_of_string "CoordX"); (* 坐标X *)
    ([0x5750; 0x6807; 0x59]%N, text_of_string "CoordY"); (* 坐标Y *)
    ([0x70B9; 0x7C7B; 0x578B]%N, text_of_string "PntType"); (* 点类型 *)
    ([0x900F; 0x660E; 0x8F93; 0x51FA]%N, text_of_string "TransOut"); (* 透明输出 *)
    ([0x989C; 0x8272]%N, text_of_string "Color"); (* 颜色 *)
    ([0x5B57; 0x7B26; 0x4E32]%N, text_of_string "StrText"); (* 字符串 *)
    ([0x5B57; 0x7B26; 0x9AD8; 0x5EA6]%N, text_of_string "CharH"); (* 字符高度 *)
    ([0x5B57; 0x7B26; 0x5BBD; 0x5EA6]%N, text_of_string "CharW"); (* 字符宽度 *)
    ([0x5B57; 0x7B26; 0x95F4; 0x9694]%N, text_of_string "CharSpc"); (* 字符间隔 *)
    ([0x5B57; 0x7B26; 0x4E32; 0x89D2; 0x5EA6]%N, text_of_string "StrAng"); (* 字符串角度 *)
    ([0x4E2D; 0x6587; 0x5B57; 0x4F53]%N, text_of_string "FontCN"); (* 中文字体 *)
    ([0x897F; 0x6587; 0x5B57; 0x4F53]%N, text_of_string "FontEN"); (* 西文字体 *)
    ([0x5B57; 0x5F62]%N, text_of_string "FontSty"); (* 字形 *)
    ([0x6392; 0x5217]%N, text_of_string "Arrange"); (* 排列 *)
    ([0x5B50; 0x56FE; 0x53F7]%N, text_of_string "SubNo"); (* 子图号 *)
    ([0x5B50; 0x56FE; 0x9AD8]%N, text_of_string "SubH"); (* 子图高 *)
    ([0x5B50; 0x56FE; 0x5BBD]%N, text_of_string "SubW"); (* 子图宽 *)
    ([0x5B50; 0x56FE; 0x89D2; 0x5EA6]%N, text_of_string "SubAng"); (* 子图角度 *)
    ([0x5B50; 0x56FE; 0x7EBF; 0x5BBD]%N, text_of_string "SubLW"); (* 子图线宽 *)
    ([0x5B50; 0x56FE; 0x8F85; 0x8272]%N, text_of_string "SubCol2"); (* 子图辅色 *)
    ([0x5706; 0x534A; 0x5F84]%N, text_of_string "CRadius"); (* 圆半径 *)
    ([0x5706; 0x8F6E; 0x5ED3; 0x989C; 0x8272]%N, text_of_string "CCLR"); (* 圆轮廓颜色 *)
    ([0x5706; 0x7B14; 0x5BBD]%N, text_of_string "CPenW"); (* 圆笔宽 *)
    ([0x5706; 0x586B; 0x5145]%N, text_of_string "CFill"); (* 圆填充 *)
    ([0x5F27; 0x534A; 0x5F84]%N, text_of_string "ARadius"); (* 弧半径 *)
    ([0x5F27; 0x8D77; 0x59CB; 0x89D2; 0x5EA6]%N, text_of_string "AStartAng"); (* 弧起始角度 *)
    ([0x5F27; 0x7EC8; 0x6B62; 0x89D2; 0x5EA6]%N, text_of_string "AEndAng"); (* 弧终止角度 *)
    ([0x5F27; 0x7B14; 0x5BBD]%N, text_of_string "APenW"); (* 弧笔宽 *)
    ([0x7EBF; 0x578B]%N, text_of_string "LineType"); (* 线型 *)
    ([0x7EBF; 0x989C; 0x8272]%N, text_of_string "LineCol"); (* 线颜色 *)
    ([0x7EBF; 0x5BBD]%N, text_of_string "LineWid"); (* 线宽 *)
    ([0x7EBF; 0x7C7B; 0x578B]%N, text_of_string "LineKind"); (* 线类型 *)
    ([0x58; 0x7CFB; 0x6570]%N, text_of_string "XFact"); (* X系数 *)
    ([0x59; 0x7CFB; 0x6570]%N, text_of_string "YFact"); (* Y系数 *)
    ([0x8F85; 0x52A9; 0x989C; 0x8272]%N, text_of_string "AuxCol") (* 辅助颜色 *)
  ].

(** [d.get(key)] for a dict written as its items, where a later item
    replaces an earlier one of the same key. *)
Definition dict_get (d : list (text * text)) (key : text) : option text :=
  foldl (fun found kv => if decide (kv.1 = key) then Some kv.2 else found) None d.

(** [''.join([i[0] for i in syllables])] (line 605) *)
Fixpoint initials (syllables : list (list text)) : result text :=
  match syllables with
  | [] => Ok []
  | i :: rest =>
      first ← Layout.item i 0;
      more ← initials rest;
      Ok (first ++ more)
  end.

(** Lines 614 and 632: the name with the suffix of [idx], cut so that the
    two together have ten characters when the name alone would have more
    than the suffix leaves. *)
Definition numbered (orig : text) (idx : nat) : text :=
  let suffix := suffix idx in
  (if decide (10 - Z.of_nat (length suffix) < Z.of_nat (length orig))%Z
   then Layout.slice orig 0 (Some (10 - Z.of_nat (length suffix))%Z)
   else orig) ++ suffix.

(** The [while ... in used] loops (lines 592-595, 612-615, 630-633): [idx]
    counts up until the candidate of [idx] is not in [used].  The loops have
    no bound of their own; [fuel] bounds the number of rounds here. *)
Fixpoint while_in_used
    (fuel : nat) (candidate : nat -> text) (idx : nat) (used : gset text)
    : result text :=
  match fuel with
  | O => Raise RecursionError
  | S fuel' =>
      let name := candidate idx in
      if decide (name ∈ used)
      then while_in_used fuel' candidate (S idx) used
      else Ok name
  end.

Section Sanitize.

(** [pypinyin.pinyin(s, style=pypinyin.NORMAL)]: the readings of each
    character of [s]; [None] when the module cannot be imported. *)
Variable pypinyin : option (text -> list (list text)).

(** [c.isalnum()] *)
Variable isalnum : N -> bool.

(** Lines 606-610 and 624-628: every character that is neither alphanumeric
    nor an underscore becomes an underscore, the name is cut to ten
    characters, and an empty name becomes [field]. *)
Definition short_name (s : text) : text :=
  let s := (fun c => if isalnum c || (c =? underscore)%N then c else underscore) <$> s in
  let s := if decide (10 < length s) then Layout.slice s 0 (Some 10%Z) else s in
  if decide (s = []) then text_of_string "field" else s.

(** One round of [for col in df.columns], on the pair [(used, new_columns)]. *)
Definition for_col (table : list (text * text))
    (st : gset text * list text) (col : text)
    : result (gset text * list text) :=
  let '(used, new_columns) := st in
  match dict_get table col with
  | Some eng_col =>
      eng_col ←
        (if decide (eng_col ∈ used)
         then while_in_used (S (size used)) (fun idx => eng_col ++ suffix idx) 1 used
         else Ok eng_col);
      Ok ({[ eng_col ]} ∪ used, new_columns ++ [eng_col])
  | None =>
      source ←
        match pypinyin with
        | Some pinyin => initials (pinyin col)
        | None => Ok col
        end;
      let orig := short_name source in
      name ←
        (if decide (orig ∈ used)
         then while_in_used (S (size used)) (numbered orig) 1 used
         else Ok orig);
      Ok ({[ name ]} ∪ used, new_columns ++ [name])
  end.

Fixpoint for_columns (table : list (text * text))
    (columns : list text) (st : gset text * list text)
    : result (gset text * list text) :=
  match columns with
  | [] => Ok st
  | col :: rest => st' ← for_col table st col; for_columns table rest st'
  end.

Definition _sanitize_field_names (columns : list text) : result (list text) :=
  st ← for_columns field_map columns (∅, []);
  Ok (st.2).

End Sanitize.

(** What the loop over the columns keeps true: [used] holds exactly the
    names given out, and no name was given out twice. *)
Definition names_inv (st : gset text * list text) : Prop :=
  (∀ x, x ∈ st.1 ↔ x ∈ st.2) ∧ NoDup st.2.

End FieldNames.

(** Columns of a layer, and a reading of the two characters of [名称]. *)
Module FieldNamesExamples.

Definition toy_pinyin (s : text) : list (list text) :=
  (fun c => if (c =? 0x540D)%N then [text_of_string "ming"]
            else if (c =? 0x79F0)%N then [text_of_string "cheng"]
            else [[c]]) <$> s.

Definition ascii_alnum (c : N) : bool :=
  ((48 <=? c) && (c <=? 57) || (65 <=? c) && (c <=? 90)
   || (97 <=? c) && (c <=? 122))%N.

(** [ID], [面积], [名称] twice, [ID-1] and [ID_1]; on the characters that
    reach it here, [ascii_alnum] is [isalnum]. *)
Definition columns : list text :=
  [ text_of_string "ID"; [0x9762; 0x79EF]%N; [0x540D; 0x79F0]%N;
    [0x540D; 0x79F0]%N; text_of_string "ID-1"; text_of_string "ID_1" ].

End FieldNamesExamples.

(** * Properties *)

(** ** De-duplication *)

Section DedupFacts.
Import Dedup.

#[local] Instance suffixed_inj col : Inj (=) (=) (suffixed col).
Proof.
  intros i j H. unfold suffixed in H.
  apply (inj (String.app col)) in H.
  apply (inj (String.app "-")) in H.
  by apply (inj pretty) in H.
Qed.

Lemma while_none fuel col idx seen :
  while_new_col_in_seen fuel col idx seen = None →
  ∀ k, idx ≤ k < idx + fuel → suffixed col k ∈ seen.
Proof.
  revert idx. induction fuel as [|fuel IH]; intros idx H k Hk; [lia|].
  simpl in H. destruct (decide (suffixed col idx ∈ seen)) as [Hin|]; [|done].
  destruct (decide (k = idx)) as [->|]; [done|].
  apply (IH (S idx)); [done|lia].
Qed.

Lemma while_some fuel col idx seen s :
  while_new_col_in_seen fuel col idx seen = Some s →
  (s ∉ seen) ∧ (∃ k, s = suffixed col k).
Proof.
  revert idx. induction fuel as [|fuel IH]; intros idx H; [done|].
  simpl in H. destruct (decide (suffixed col idx ∈ seen)); [by eapply IH|].
  simplify_eq. eauto.
Qed.

(** The loop ends: [seen] cannot hold one more candidate than it has
    elements. *)
Lemma while_total col idx (seen : gset string) :
  is_Some (while_new_col_in_seen (S (size seen)) col idx seen).
Proof.
  destruct (while_new_col_in_seen _ _ _ _) eqn:H; [by eexists|].
  exfalso.
  pose proof (while_none _ _ _ _ H) as Hall.
  set (cands := suffixed col <$> seq idx (S (size seen))).
  assert (list_to_set cands ⊆ seen) as Hsub.
  { intros x [k [-> Hk%elem_of_seq]]%elem_of_list_to_set%list_elem_of_fmap.
    apply Hall. lia. }
  apply subseteq_size in Hsub.
  rewrite size_list_to_set in Hsub.
  - unfold cands in Hsub. rewrite length_fmap, length_seq in Hsub. lia.
  - apply NoDup_fmap_2; [apply _|apply NoDup_seq].
Qed.


Lemma for_col_unfold seen result col :
  for_col (seen, result) col =
  if decide (col ∈ seen)
  then new_col ← while_new_col_in_seen (S (size seen)) col 1 seen;
       Some ({[ new_col ]} ∪ seen, result ++ [new_col])
  else Some ({[ col ]} ∪ seen, result ++ [col]).
Proof. reflexivity. Qed.

Lemma for_col_spec st col :
  dedup_inv st →
  ∃ name, for_col st col = Some ({[ name ]} ∪ st.1, st.2 ++ [name])
          ∧ (name ∉ st.1)
          ∧ (col ∉ st.1 → name = col).
Proof.
  destruct st as [seen result]. intros [Hseen Hnd]. simpl fst in *. simpl snd in *.
  rewrite for_col_unfold. destruct (decide (col ∈ seen)) as [Hin|Hnin].
  - destruct (while_total col 1 seen) as [s Hs]. rewrite Hs.
    apply while_some in Hs as [Hs _]. exists s. done.
  - exists col. done.
Qed.

Lemma dedup_inv_step st name :
  dedup_inv st → name ∉ st.1 →
  dedup_inv ({[ name ]} ∪ st.1, st.2 ++ [name]).
Proof.
  destruct st as [seen result]. intros [Hseen Hnd] Hnew. split; simpl in *.
  - intros x. rewrite elem_of_union, elem_of_singleton, elem_of_app,
      list_elem_of_singleton, Hseen. tauto.
  - apply NoDup_app. split_and!; [done| |apply NoDup_singleton].
    intros x Hx ->%list_elem_of_singleton. by apply Hnew, Hseen.
Qed.

Lemma for_columns_spec columns st :
  dedup_inv st →
  ∃ st', for_columns columns st = Some st'
         ∧ dedup_inv st'
         ∧ length (st'.2) = length (st.2) + length columns.
Proof.
  revert st. induction columns as [|col columns IH]; intros st Hinv; simpl.
  - exists st. split_and!; [done..|lia].
  - destruct (for_col_spec st col Hinv) as (name & -> & Hnew & _). simpl.
    destruct (IH _ (dedup_inv_step _ _ Hinv Hnew)) as (st' & -> & Hinv' & Hlen).
    exists st'. split_and!; [done..|].
    rewrite Hlen. simpl. rewrite length_app. simpl. lia.
Qed.

Lemma for_columns_distinct columns st :
  dedup_inv st → NoDup columns → (∀ x, x ∈ columns → x ∉ st.1) →
  ∃ seen', for_columns columns st = Some (seen', st.2 ++ columns).
Proof.
  revert st. induction columns as [|col columns IH]; intros st Hinv Hnd Hfresh; simpl.
  - exists st.1. rewrite app_nil_r. by destruct st.
  - apply NoDup_cons in Hnd as [Hcol Hnd].
    destruct (for_col_spec st col Hinv) as (name & -> & Hnew & Hsame). simpl.
    rewrite (Hsame (Hfresh col (list_elem_of_here _ _))) in *.
    destruct (IH _ (dedup_inv_step _ _ Hinv Hnew) Hnd) as (seen' & -> ).
    + intros x Hx. simpl. rewrite elem_of_union, elem_of_singleton.
      intros [->|Hin]; [done|]. by apply (Hfresh x); [right|].
    + exists seen'. simpl. by rewrite <-app_assoc.
Qed.

Lemma dedup_inv_init : dedup_inv (∅, []).
Proof. split; simpl; [set_solver|constructor]. Qed.

End DedupFacts.

Section DedupRule.
Import Dedup.

(** The candidate the inner loop stops at is the first, from [idx] on, that
    is not in [seen]. *)
Lemma while_least fuel col idx seen s :
  while_new_col_in_seen fuel col idx seen = Some s →
  ∃ k, idx ≤ k
       ∧ s = suffixed col k
       ∧ (s ∉ seen)
       ∧ ∀ j, idx ≤ j < k → suffixed col j ∈ seen.
Proof.
  revert idx. induction fuel as [|fuel IH]; intros idx H; [done|].
  simpl in H. destruct (decide (suffixed col idx ∈ seen)) as [Hin|Hnin].
  - destruct (IH _ H) as (k & Hk & -> & Hnew & Hbelow).
    exists k. split_and!; [lia|done|done|].
    intros j Hj. destruct (decide (j = idx)) as [->|]; [done|].
    apply Hbelow. lia.
  - injection H as <-. exists idx. split_and!; [lia|done|done|].
    intros j Hj. lia.
Qed.

Lemma for_col_rule st col :
  dedup_inv st →
  ∃ name, for_col st col = Some ({[ name ]} ∪ st.1, st.2 ++ [name])
          ∧ (name ∉ st.1)
          ∧ suffix_rule st.2 col name.
Proof.
  destruct st as [seen result]. intros [Hseen Hnd]. cbn [fst snd] in *.
  rewrite for_col_unfold. unfold suffix_rule.
  destruct (decide (col ∈ seen)) as [Hin|Hnin].
  - destruct (while_total col 1 seen) as [s Hs]. rewrite Hs.
    destruct (while_least _ _ _ _ _ Hs) as (k & Hk & -> & Hnew & Hbelow).
    exists (suffixed col k). split_and!; [done..|].
    rewrite decide_True by (by apply Hseen).
    exists k. split_and!; [done|done|by rewrite <-Hseen|].
    intros j Hj. by apply Hseen, Hbelow.
  - exists col. split_and!; [done..|].
    by rewrite decide_False by (by rewrite <-Hseen).
Qed.

Lemma for_columns_rule columns st :
  dedup_inv st →
  ∃ seen' names,
    for_columns columns st = Some (seen', st.2 ++ names)
    ∧ length names = length columns
    ∧ ∀ i col, columns !! i = Some col →
        ∃ name, names !! i = Some name
                ∧ suffix_rule (st.2 ++ take i names) col name.
Proof.
  revert st. induction columns as [|c columns IH]; intros st Hinv.
  - exists st.1, []. rewrite app_nil_r. split_and!; [by destruct st|done|].
    intros i col Hi. by rewrite lookup_nil in Hi.
  - destruct (for_col_rule st c Hinv) as (name & Hfor & Hnew & Hrule).
    destruct (IH _ (dedup_inv_step _ _ Hinv Hnew))
      as (seen' & names & Hrest & Hlen & Hall).
    cbn [fst snd] in Hrest, Hall.
    exists seen', (name :: names). split_and!.
    + cbn [for_columns]. rewrite Hfor. cbn [mbind option_bind].
      rewrite Hrest. by rewrite <-app_assoc.
    + simpl. by rewrite Hlen.
    + intros [|i] col Hi; simpl in Hi.
      * injection Hi as <-. exists name. split; [done|].
        by rewrite take_0, app_nil_r.
      * destruct (Hall i col Hi) as (n & Hn & Hr). exists n. split; [done|].
        cbn [take]. by rewrite cons_middle, app_assoc.
Qed.

End DedupRule.

(** C9: for every list of names the function returns a name for each of
    them that follows the rule of the suffixes in first-seen order: a name
    that was not given out before stays as it is, and any other name gets
    the suffix [-k] of the least [k] from 1 on whose suffixed name was not
    given out before.  The names [A, B, A, A] come out as
    [A, B, A-1, A-2]. *)
Theorem dedup_suffixes_in_first_seen_order :
  (∀ columns : list string,
     ∃ names,
       Dedup._deduplicate_columns columns = Some names
       ∧ length names = length columns
       ∧ ∀ i col, columns !! i = Some col →
           ∃ name, names !! i = Some name
                   ∧ Dedup.suffix_rule (take i names) col name)
  ∧ Dedup._deduplicate_columns ["A"; "B"; "A"; "A"] = Some ["A"; "B"; "A-1"; "A-2"].
Proof.
  split; [|vm_compute; reflexivity].
  intros columns.
  destruct (for_columns_rule columns _ dedup_inv_init)
    as (seen' & names & Hrun & Hlen & Hall).
  exists names. unfold Dedup._deduplicate_columns. rewrite Hrun.
  split_and!; done.
Qed.

Lemma dedup_suffixes_in_first_seen_order_witness :
  ∃ names,
    Dedup._deduplicate_columns ["A"; "B"; "A"; "A"] = Some names
    ∧ length names = 4
    ∧ ∃ name, names !! 3 = Some name
              ∧ Dedup.suffix_rule (take 3 names) "A" name.
Proof.
  destruct (proj1 dedup_suffixes_in_first_seen_order ["A"; "B"; "A"; "A"])
    as (names & Hrun & Hlen & Hall).
  exists names. split_and!; [exact Hrun|exact Hlen|].
  apply (Hall 3 "A"). reflexivity.
Defined.

(** C10, first half: for every list of names the function returns a list of
    the same length whose entries are pairwise distinct. *)
Lemma dedup_returns_distinct (columns : list string) :
  ∃ result, Dedup._deduplicate_columns columns = Some result
            ∧ length result = length columns
            ∧ NoDup result.
Proof.
  destruct (for_columns_spec columns _ dedup_inv_init) as (st & H & [_ Hnd] & Hlen).
  exists st.2. unfold Dedup._deduplicate_columns. rewrite H. done.
Qed.

(** C10: for every list of names, [_deduplicate_columns] returns a list of
    the same length whose entries are pairwise distinct, and it returns the
    input itself when the input's entries are already pairwise distinct. *)
Theorem dedup_distinct_and_identity (columns : list string) :
  (∃ result, Dedup._deduplicate_columns columns = Some result
             ∧ length result = length columns
             ∧ NoDup result)
  ∧ (NoDup columns → Dedup._deduplicate_columns columns = Some columns).
Proof.
  split; [apply dedup_returns_distinct|].
  intros Hnd.
  destruct (for_columns_distinct columns _ dedup_inv_init Hnd) as (seen' & H).
  { intros x _. set_solver. }
  unfold Dedup._deduplicate_columns. by rewrite H.
Qed.

Lemma dedup_distinct_and_identity_witness :
  (∃ result, Dedup._deduplicate_columns ["ID"; "GB"; "ID"] = Some result
             ∧ length result = 3 ∧ NoDup result)
  ∧ NoDup ["ID"; "GB"]
  ∧ Dedup._deduplicate_columns ["ID"; "GB"] = Some ["ID"; "GB"].
Proof.
  assert (NoDup ["ID"; "GB"]) as Hnd
    by (apply (bool_decide_unpack _); vm_compute; exact I).
  split_and!.
  - exact (proj1 (dedup_distinct_and_identity ["ID"; "GB"; "ID"])).
  - exact Hnd.
  - exact (proj2 (dedup_distinct_and_identity ["ID"; "GB"]) Hnd).
Defined.

(** ** The header table *)

Section ReaderFacts.
Import Reader.

Lemma read_blocks_spec (content : list byte) count n pos :
  ∃ pos', read_blocks content count n pos
          = Ok ((fun i => take n (drop (pos + i * n) content)) <$> seq 0 count, pos').
Proof.
  revert pos. induction count as [|count IH]; intros pos; simpl.
  - by eexists.
  - unfold bind at 1. unfold read at 1.
    set (chunk := take n (drop pos content)).
    destruct (IH (pos + length chunk)) as [pos' Hrest].
    unfold bind at 1. rewrite Hrest. unfold ret. exists pos'.
    do 2 f_equal.
    rewrite <-fmap_S_seq, <-list_fmap_compose. f_equal.
    { by rewrite Nat.add_0_r. }
    apply list_fmap_ext. intros _ i _. simpl.
    destruct (decide (length chunk = n)) as [->|Hshort].
    { f_equal. f_equal. lia. }
    assert (length content < pos + n) as Hend.
    { subst chunk. rewrite length_take, length_drop in Hshort. lia. }
    assert (length chunk = length content - pos) as ->.
    { subst chunk. rewrite length_take, length_drop. lia. }
    rewrite !drop_ge by lia. done.
Qed.

Lemma magic_tag_detected (content : list byte) gbk_table tag shape :
  (tag, shape) ∈ magic_tags → take 8 content = tag → 12 ≤ length content →
  _detect_shape_type content gbk_table 0 = Ok (shape, 12).
Proof.
  intros Htag Htake Hlen.
  assert (length (take 4 (drop 8 content)) = 4) as Hskip.
  { rewrite length_take, length_drop. lia. }
  unfold _detect_shape_type, bind, read, lift. rewrite drop_0, Htake.
  unfold magic_tags in Htag. rewrite !elem_of_cons in Htag.
  destruct Htag as [H|[H|[H|H]]]; [..|by apply elem_of_nil in H];
    injection H as -> ->; simpl; unfold ret; rewrite Hskip; reflexivity.
Qed.

Lemma read_headers_spec (content : list byte) :
  16 ≤ length content → (0 ≤ table_offset content)%Z →
  ∃ pos', _read_headers content 12 = Ok (blocks_of (header_table content), pos').
Proof.
  intros Hlen Hoff.
  assert (length (take 4 (drop 12 content)) = 4) as Hraw.
  { rewrite length_take, length_drop. lia. }
  unfold _read_headers, bind, read, lift, Struct.unpack_i, seek.
  destruct (decide _) as [_|Hne]; [|done].
  fold (table_offset content).
  destruct (Z.ltb_spec (table_offset content) 0) as [|_]; [lia|].
  destruct (read_blocks_spec content 10 10 (Z.to_nat (table_offset content)))
    as [pos' ->].
  exists pos'. do 2 f_equal. unfold blocks_of, header_table.
  apply list_fmap_ext. intros _ i _. by rewrite drop_drop.
Qed.

Lemma header_pair_short (table : list byte) k :
  k < 10 → length table < 10 * (k + 1) →
  header_pair (blocks_of table) k = Raise struct_error.
Proof.
  intros Hk Hshort. unfold header_pair, blocks_of.
  rewrite list_lookup_fmap, lookup_seq_lt by done. simpl.
  unfold Struct.unpack_2i. destruct (decide _) as [Hlen|_]; [|done].
  rewrite !length_take, length_drop in Hlen. lia.
Qed.

End ReaderFacts.

(** C1, as the code has it: for every file with a recognised magic tag whose
    header table lacks bytes of the block that locates the attribute table
    (block 9 of a polygon layer, so every table of fewer than 100 bytes;
    block 2 of a point or line layer, so every table of fewer than 30
    bytes), [_read_headers] does not fail and returns the ten blocks with
    the bytes there are, and opening the file then fails with
    [struct.error], which is none of the declared errors, before anything
    of the table is decoded. *)
Theorem short_header_table_raises_struct_error
    {table : Type} (content : list byte) (gbk_table : byte -> byte -> option N)
    (decode_rest : Reader.shape_type -> list (list byte) -> Z -> Reader.M table)
    (tag : list byte) (shape : Reader.shape_type) :
  (tag, shape) ∈ Reader.magic_tags →
  take 8 content = tag →
  16 ≤ length content →
  (0 ≤ Reader.table_offset content)%Z →
  length (Reader.header_table content) < 10 * (Reader.attribute_header shape + 1) →
  (∃ pos', Reader._read_headers content 12
           = Ok (Reader.blocks_of (Reader.header_table content), pos'))
  ∧ Reader.__init__ content gbk_table decode_rest = Raise struct_error
  ∧ Reader.declared_as struct_error = None.
Proof.
  intros Htag Htake Hlen Hoff Hshort.
  destruct (read_headers_spec content Hlen Hoff) as [pos' Hread].
  split_and!; [by exists pos'| |done].
  unfold Reader.__init__, Reader.bind at 1.
  rewrite (magic_tag_detected content gbk_table tag shape) by (done || lia).
  unfold Reader.bind at 1. rewrite Hread.
  unfold Reader._parse_feature_data, Reader.bind, Reader.lift.
  rewrite header_pair_short; [done| |done].
  destruct shape; simpl; lia.
Qed.

Lemma short_header_table_raises_struct_error_witness :
  (∃ pos', Reader._read_headers Examples.short_table_file 12
           = Ok (Reader.blocks_of (Reader.header_table Examples.short_table_file), pos'))
  ∧ Reader.__init__ Examples.short_table_file Examples.no_pairs
      Examples.stop_at_attributes = Raise struct_error
  ∧ Reader.declared_as struct_error = None.
Proof.
  apply (short_header_table_raises_struct_error Examples.short_table_file
           Examples.no_pairs Examples.stop_at_attributes
           (list_byte_of_string "WMAP`D23") Reader.POLYGON).
  - apply list_elem_of_In. vm_compute. tauto.
  - reflexivity.
  - vm_compute. lia.
  - vm_compute. discriminate.
  - vm_compute. lia.
Defined.

(** A point or line layer needs the first three blocks only: with a table of
    30 bytes the decoding goes on to the attribute table. *)
Lemma point_layer_short_table_goes_on :
  length (Reader.header_table Examples.point_short_table_file) = 30
  ∧ Reader.__init__ Examples.point_short_table_file Examples.no_pairs
      Examples.stop_at_attributes = Ok 64%Z.
Proof. split; vm_compute; reflexivity. Qed.

(** C1 as stated fails: a polygon layer whose header table has 50 bytes is
    not refused with [CorruptHeader]; opening it raises [struct.error]. *)
Lemma short_header_table_is_not_CorruptHeader :
  (take 8 Examples.short_table_file, Reader.POLYGON) ∈ Reader.magic_tags
  ∧ length (Reader.header_table Examples.short_table_file) = 50
  ∧ Reader.__init__ Examples.short_table_file Examples.no_pairs
      Examples.stop_at_attributes = Raise struct_error
  ∧ ¬ (∃ e, Reader.__init__ Examples.short_table_file Examples.no_pairs
              Examples.stop_at_attributes = Raise e
            ∧ Reader.declared_as e = Some Reader.CorruptHeader).
Proof.
  assert (Reader.__init__ Examples.short_table_file Examples.no_pairs
            Examples.stop_at_attributes = Raise struct_error) as Hopen
    by (vm_compute; reflexivity).
  split_and!.
  - apply list_elem_of_In. vm_compute. tauto.
  - vm_compute. reflexivity.
  - exact Hopen.
  - intros (e & He & Hdecl). rewrite Hopen in He. injection He as <-. discriminate.
Qed.

(** ** Text fields *)

Section AttributeFacts.
Import Attributes.


Lemma mentions_app c s1 s2 :
  mentions c (s1 +:+ s2) = mentions c s1 || mentions c s2.
Proof. induction s1 as [|a s1 IH]; simpl; [done|]. by rewrite IH, orb_assoc. Qed.

Lemma strip_prefix_app p s rest : strip_prefix p s = Some rest → s = p +:+ rest.
Proof.
  revert s. induction p as [|a p IH]; intros [|b s] H; simpl in *; simplify_eq; try done.
  destruct (Ascii.eqb_spec a b) as [->|]; [|done]. by rewrite (IH _ H).
Qed.

(** The pattern of line 136 only matches where the text has a backslash. *)
Lemma search_backslash_d_mentions s g :
  re_search_in_position group_backslash_d s = Some g → mentions backslash s = true.
Proof.
  induction s as [|a s IH].
  - simpl. done.
  - intros H. cbn [re_search_in_position] in H.
    destruct (strip_prefix "in position " (String a s)) as [rest|] eqn:Hp.
    + destruct (group_backslash_d rest) as [g'|] eqn:Hg.
      * apply strip_prefix_app in Hp. rewrite Hp, mentions_app.
        destruct rest as [|c rest]; [done|]. simpl in Hg.
        destruct (Ascii.eqb_spec c backslash) as [->|]; [|done].
        cbn [mentions]. rewrite Ascii.eqb_refl. by rewrite orb_true_r.
      * cbn [mentions]. rewrite (IH H). by rewrite orb_true_r.
    + cbn [mentions]. rewrite (IH H). by rewrite orb_true_r.
Qed.

Lemma pretty_N_go_mentions c x s :
  (∀ d, (d < 10)%N → pretty_N_char d ≠ c) →
  mentions c (pretty_N_go x s) = mentions c s.
Proof.
  intros Hc. revert s. induction (N.lt_wf_0 x) as [x _ IH]; intros s.
  destruct (decide (x = 0)%N) as [->|Hx]; [by rewrite pretty_N_go_0|].
  rewrite pretty_N_go_step by lia. rewrite IH by (apply N.div_lt; lia).
  simpl. destruct (Ascii.eqb_spec (pretty_N_char (x `mod` 10)) c) as [Heq|]; [|done].
  exfalso. apply (Hc (x `mod` 10)%N); [|done]. apply N.mod_lt. lia.
Qed.

Lemma pretty_nat_no_backslash (n : nat) : mentions backslash (pretty n) = false.
Proof.
  unfold pretty, pretty_nat, pretty, pretty_N.
  destruct (decide _); [done|].
  apply pretty_N_go_mentions. intros d Hd.
  unfold pretty_N_char. by repeat case_match.
Qed.

Lemma hex2_no_backslash c : mentions backslash (Gbk.hex2 c) = false.
Proof. by destruct c. Qed.

Lemma decode_from_reason table pos bs f :
  Gbk.decode_from table pos bs = inr f →
  Gbk.failure_reason f = "incomplete multibyte sequence"
  ∨ Gbk.failure_reason f = "illegal multibyte sequence".
Proof.
  revert pos. induction bs as [bs IH] using (induction_ltof1 _ (@length byte)).
  unfold ltof in IH. intros pos H.
  destruct bs as [|c rest]; [done|]. cbn [Gbk.decode_from] in H.
  destruct (Gbk.is_ascii c).
  - destruct (Gbk.decode_from table (S pos) rest) eqn:Hd; simplify_eq.
    eapply (IH rest); [simpl; lia|done].
  - destruct rest as [|c2 rest]; [simplify_eq; auto|].
    destruct (table c c2); [|simplify_eq; auto].
    destruct (Gbk.decode_from table (S (S pos)) rest) eqn:Hd; simplify_eq.
    eapply (IH rest); [simpl; lia|done].
Qed.

Lemma message_no_backslash table pos bs f :
  Gbk.decode_from table pos bs = inr f →
  mentions backslash (Gbk.message f) = false.
Proof.
  intros H. unfold Gbk.message.
  rewrite !mentions_app, hex2_no_backslash, pretty_nat_no_backslash.
  by destruct (decode_from_reason _ _ _ _ H) as [-> | ->].
Qed.

(** Whenever the strict decoding of a string field fails, the handler of
    lines 135-140 finds no position in the message and takes its last
    branch: the whole field is decoded with replacement characters. *)
Lemma string_field_on_error table value f :
  Gbk.decode_from table 0 value = inr f →
  string_field table value = Ok (strip_nul (Gbk.decode_replace table value)).
Proof.
  intros H. unfold string_field. rewrite H.
  destruct (re_search_in_position group_backslash_d (Gbk.message f)) as [g|] eqn:Hs; [|done].
  apply search_backslash_d_mentions in Hs.
  by rewrite (message_no_backslash _ _ _ _ H) in Hs.
Qed.

End AttributeFacts.

(** C2 at the field [b'AB\xb0'], whose last byte leads a sequence that the
    field cuts off: strict decoding fails at position 2, the field's value
    is not the text [AB] decoded from the two bytes before that position but
    [AB] followed by a replacement character.  The twin handler for field
    names, whose pattern is written with one backslash, does cut at the
    position. *)
Theorem string_field_not_truncated (table : byte -> byte -> option N) :
  Gbk.decode_from table 0 [x41; x42; xb0]
    = inr (Gbk.Failure 2 xb0 "incomplete multibyte sequence")
  ∧ Gbk.decode table (take 2 [x41; x42; xb0]) = Ok [65; 66]%N
  ∧ Attributes.string_field table [x41; x42; xb0] = Ok [65; 66; 0xFFFD]%N
  ∧ Attributes.field_name table [x41; x42; xb0] = Ok [65; 66]%N.
Proof. split_and!; reflexivity. Qed.

(** ** Coordinate reference system *)

Section CrsFacts.
Import Crs.

Lemma by_projection_with_wkid epsg_known code blk crs scale :
  by_projection epsg_known (Some code) blk crs scale
  = if epsg_known code then Ok (Some (CRS (Epsg code)), scale) else Raise CRSError.
Proof.
  unfold by_projection. simpl. rewrite !andb_false_r. reflexivity.
Qed.

(** Dividing by 1000 gives a float, fails by overflow only, and never fails
    on a float or on a scale that is 0. *)
Lemma div1000_float s q : div1000 s = Ok q → ∃ f, q = Float f.
Proof.
  destruct s as [z|f]; simpl.
  - destruct (int_div1000 z); simpl; [|done]. intros [= <-]. by eexists.
  - intros [= <-]. by eexists.
Qed.

Lemma int_div1000_only_OverflowError z e :
  int_div1000 z = Raise e → e = OverflowError.
Proof.
  unfold int_div1000. destruct z; [done|..];
    destruct (SpecFloat.SFdiv_core_binary _ _ _ _ _ _) as [[mz ez] lz];
    destruct (SpecFloat.binary_round_aux _ _ _ _ _ _); congruence.
Qed.

Lemma div1000_only_OverflowError s e : div1000 s = Raise e → e = OverflowError.
Proof.
  destruct s as [z|f]; simpl; [|done].
  destruct (int_div1000 z) eqn:Hz; simpl; [done|].
  intros [= <-]. by apply int_div1000_only_OverflowError in Hz.
Qed.

Lemma div1000_zero s : is_zero s = true → ∃ q, div1000 s = Ok q.
Proof.
  destruct s as [z|f]; simpl.
  - intros ->%Z.eqb_eq. by eexists.
  - by eexists.
Qed.

End CrsFacts.

(** C3 as stated fails: with the Gauss-Krueger projection, an unknown
    ellipsoid code and neither override, the scale is not reset to 1: it
    ends as 1/1000, the double [0x1.0624dd2f1a9fcp-10]. *)
Lemma unknown_ellipsoid_scale_not_reset :
  Crs.ellipsoid Examples.gk_unknown_ellipsoid ≠ 0%Z
  ∧ Crs.contains (Crs.ellipsoid Examples.gk_unknown_ellipsoid) = false
  ∧ Crs._parse_crs Examples.all_codes None None Examples.gk_unknown_ellipsoid
    = Ok (Some Crs.PyNone, Crs.Float 0x1.0624dd2f1a9fcp-10)
  ∧ ¬ (∃ crs, Crs._parse_crs Examples.all_codes None None Examples.gk_unknown_ellipsoid
              = Ok (crs, Crs.Int 1)).
Proof.
  assert (Crs._parse_crs Examples.all_codes None None Examples.gk_unknown_ellipsoid
          = Ok (Some Crs.PyNone, Crs.Float 0x1.0624dd2f1a9fcp-10)) as H
    by (vm_compute; reflexivity).
  split_and!; [done|reflexivity|exact H|].
  intros [crs Hc]. rewrite H in Hc. discriminate.
Qed.

(** With longitude and latitude, or with the transverse Mercator projection,
    an unknown ellipsoid code ends the decoding: the code goes on to look the
    ellipsoid up. *)
Lemma unknown_ellipsoid_KeyError :
  Crs._parse_crs Examples.all_codes None None Examples.longlat_unknown_ellipsoid
  = Raise (KeyError 3).
Proof. vm_compute. reflexivity. Qed.

(** A caller's scale that is an integer beyond the doubles cannot be divided
    by 1000: on an unknown ellipsoid the resolution ends there, with or
    without a [wkid]. *)
Lemma unknown_ellipsoid_huge_scale_OverflowError :
  Crs._parse_crs Examples.all_codes None (Some (Crs.Int (10 ^ 400)))
    Examples.other_unknown_ellipsoid = Raise OverflowError
  ∧ Crs._parse_crs Examples.all_codes (Some (Crs.PyStr "4326"))
      (Some (Crs.Int (10 ^ 400))) Examples.other_unknown_ellipsoid
    = Raise OverflowError.
Proof. split; vm_compute; reflexivity. Qed.

(** C3, as the code has it: for an ellipsoid code that is not 0 and not in
    the table, no [wkid], and a projection type other than 0 and 5, the
    resolution does not fail, for the types 2 and 3 once the central
    meridian reads as a number, and with a caller's scale once that scale
    divides by 1000 (an integer beyond the doubles does not).  The scale is
    reset to 1 without a caller's scale and is the caller's scale divided by
    1000 with one, and is divided by 1000 once more for the types 2 and 3;
    the CRS is empty. *)
Theorem unknown_ellipsoid_not_fatal
    (epsg_known : Crs.pyval -> bool) (scale_factor : option Crs.number)
    (blk : Crs.crs_block) :
  Crs.ellipsoid blk ≠ 0%Z →
  Crs.contains (Crs.ellipsoid blk) = false →
  Crs.proj_type blk ≠ 0%Z →
  Crs.proj_type blk ≠ 5%Z →
  (Crs.proj_type blk = 2%Z ∨ Crs.proj_type blk = 3%Z →
   ∃ cl, Crs.central_meridian (Crs.meridian_text blk) = Ok cl) →
  (∀ s, scale_factor = Some s → ∃ q, Crs.div1000 s = Ok q) →
  ∃ crs scale reset,
    Crs._parse_crs epsg_known None scale_factor blk = Ok (crs, scale)
    ∧ Crs.is_empty crs = true
    ∧ match scale_factor with
      | Some s => Crs.div1000 s = Ok reset
      | None => reset = Crs.Int 1
      end
    ∧ if bool_decide (Crs.proj_type blk = 2%Z ∨ Crs.proj_type blk = 3%Z)
      then Crs.div1000 reset = Ok scale
      else scale = reset.
Proof.
  intros Hne Hunknown Hp0 Hp5 Hcl Hdiv.
  assert (∃ reset,
            match scale_factor with
            | Some s => Crs.div1000 s = Ok reset
            | None => reset = Crs.Int 1
            end
            ∧ ∃ again, Crs.div1000 reset = Ok again) as (reset & Hreset & again & Hagain).
  { destruct scale_factor as [s|].
    - destruct (Hdiv s eq_refl) as [q Hq].
      destruct (div1000_float s q Hq) as [f ->].
      exists (Crs.Float f). split; [done|]. by eexists.
    - exists (Crs.Int 1). split; [done|]. by eexists. }
  assert (Crs._parse_crs epsg_known None scale_factor blk
          = Crs.by_projection epsg_known None blk (Some Crs.EmptyStr) reset) as ->.
  { unfold Crs._parse_crs.
    destruct scale_factor as [s|]; rewrite Hunknown; simpl negb; cbn [orb];
      (destruct (Z.eqb_spec (Crs.ellipsoid blk) 0) as [|_]; [done|]);
      cbn [andb Z.eqb Pos.eqb]; [by rewrite Hreset|by subst reset]. }
  unfold Crs.by_projection.
  destruct (Z.eqb_spec (Crs.proj_type blk) 5) as [|_]; [done|].
  destruct (Z.eqb_spec (Crs.proj_type blk) 0) as [|_]; [done|].
  cbn [andb].
  destruct (decide (Crs.proj_type blk = 2%Z ∨ Crs.proj_type blk = 3%Z)) as [H23|H23].
  - assert (((Crs.proj_type blk =? 2)%Z || (Crs.proj_type blk =? 3)%Z) = true) as ->.
    { apply orb_true_iff. by rewrite !Z.eqb_eq. }
    destruct (Hcl H23) as [cl Hmer]. cbn [andb bool_decide decide_rel].
    rewrite Hagain. cbn [mbind result_bind]. rewrite Hmer. cbn [mbind result_bind].
    exists (Some Crs.PyNone), again, reset. split_and!; [done..|].
    by rewrite bool_decide_eq_true_2.
  - assert (((Crs.proj_type blk =? 2)%Z || (Crs.proj_type blk =? 3)%Z) = false) as ->.
    { apply orb_false_iff. rewrite !Z.eqb_neq. tauto. }
    cbn [andb mbind result_bind].
    exists (Some Crs.EmptyStr), reset, reset. split_and!; [done..|].
    by rewrite bool_decide_eq_false_2.
Qed.

Lemma unknown_ellipsoid_not_fatal_witness :
  ∃ crs scale reset,
    Crs._parse_crs Examples.all_codes None (Some (Crs.Int 200))
      Examples.gk_unknown_ellipsoid = Ok (crs, scale)
    ∧ Crs.is_empty crs = true
    ∧ Crs.div1000 (Crs.Int 200) = Ok reset
    ∧ Crs.div1000 reset = Ok scale.
Proof.
  apply (unknown_ellipsoid_not_fatal Examples.all_codes (Some (Crs.Int 200))
           Examples.gk_unknown_ellipsoid).
  - discriminate.
  - reflexivity.
  - discriminate.
  - discriminate.
  - intros _. eexists. vm_compute. reflexivity.
  - intros s [= <-]. eexists. vm_compute. reflexivity.
Defined.

(** C5 as stated fails: a caller's [wkid] of 0 on a file whose ellipsoid code
    is 0 gives the empty CRS, not the system of the code. *)
Lemma wkid_zero_is_no_override :
  Crs._parse_crs Examples.all_codes (Some (Crs.PyInt 0)) None Examples.tmerc_no_ellipsoid
  = Ok (Some Crs.EmptyStr, Crs.Float 1%float)
  ∧ ¬ (∃ scale, Crs._parse_crs Examples.all_codes (Some (Crs.PyInt 0)) None
                  Examples.tmerc_no_ellipsoid
                = Ok (Some (Crs.CRS (Crs.Epsg (Crs.PyInt 0))), scale)).
Proof.
  assert (Crs._parse_crs Examples.all_codes (Some (Crs.PyInt 0)) None
            Examples.tmerc_no_ellipsoid
          = Ok (Some Crs.EmptyStr, Crs.Float 1%float)) as H
    by (vm_compute; reflexivity).
  split; [exact H|]. intros [scale Hs]. rewrite H in Hs. discriminate.
Qed.

(** C5, as the code has it: for every file and every [wkid] of the caller,
    except the [wkid] 0 on a file whose ellipsoid code is 0, and except a
    caller's scale that does not divide by 1000 (an integer beyond the
    doubles) on a file whose ellipsoid code is not in the table, the CRS is
    the one resolved from that code, whatever the projection type and the
    ellipsoid code are; where the registry does not know the code, its
    error is the outcome. *)
Theorem wkid_override_wins
    (epsg_known : Crs.pyval -> bool) (code : Crs.pyval)
    (scale_factor : option Crs.number) (blk : Crs.crs_block) :
  ¬ (Crs.ellipsoid blk = 0%Z ∧ Crs.str code = "0") →
  (Crs.contains (Crs.ellipsoid blk) = false →
   ∀ s, scale_factor = Some s → ∃ q, Crs.div1000 s = Ok q) →
  if epsg_known code
  then ∃ scale, Crs._parse_crs epsg_known (Some code) scale_factor blk
                = Ok (Some (Crs.CRS (Crs.Epsg code)), scale)
  else Crs._parse_crs epsg_known (Some code) scale_factor blk = Raise CRSError.
Proof.
  intros Hguard Hdiv. unfold Crs._parse_crs.
  assert ((Crs.ellipsoid blk =? 0)%Z && String.eqb (Crs.str code) "0" = false) as Hg.
  { apply andb_false_iff.
    destruct (Z.eqb_spec (Crs.ellipsoid blk) 0) as [Hz|]; [|by left].
    right. apply String.eqb_neq. intros Hs. by apply Hguard. }
  destruct scale_factor as [s|].
  - destruct (negb (Crs.contains (Crs.ellipsoid blk)) || Crs.is_zero s) eqn:Hreset.
    + rewrite Hg. cbn [Z.eqb Pos.eqb].
      assert (∃ q, Crs.div1000 s = Ok q) as [q ->].
      { apply orb_true_iff in Hreset as [Hc|Hz].
        - apply (Hdiv (proj1 (negb_true_iff _) Hc) s eq_refl).
        - by apply div1000_zero. }
      cbn [mbind result_bind]. rewrite by_projection_with_wkid.
      destruct (epsg_known code); eauto.
    + rewrite by_projection_with_wkid. destruct (epsg_known code); eauto.
  - destruct (negb (Crs.contains (Crs.ellipsoid blk)) || Crs.is_zero _);
      rewrite ?Hg; cbn [Z.eqb mbind result_bind];
      rewrite by_projection_with_wkid; destruct (epsg_known code); eauto.
Qed.

Lemma wkid_override_wins_witness :
  ∃ scale, Crs._parse_crs Examples.all_codes (Some (Crs.PyStr "4326"))
             (Some (Crs.Int 200)) Examples.other_unknown_ellipsoid
           = Ok (Some (Crs.CRS (Crs.Epsg (Crs.PyStr "4326"))), scale).
Proof.
  apply (wkid_override_wins Examples.all_codes (Crs.PyStr "4326")
           (Some (Crs.Int 200)) Examples.other_unknown_ellipsoid).
  - intros [H _]. discriminate H.
  - intros _ s [= <-]. eexists. vm_compute. reflexivity.
Defined.

(** ** The feature table *)

Lemma builder_length_rows {row geometry : Type}
    (data : list row) (geom : list geometry) :
  length (Builder.rows data geom)
  = if decide (length data = 0) then length geom
    else Nat.min (length data) (length geom).
Proof.
  destruct data as [|r data]; simpl; [by rewrite length_fmap|].
  destruct geom as [|g geom]; simpl; [done|].
  by rewrite length_zip, length_fmap.
Qed.

(** C6 as stated fails: a table without rows takes three geometries as they
    are.  Nothing is cut to the common prefix of length 0, the frame has
    three rows, and the repaired flag is not set. *)
Lemma empty_table_not_truncated :
  (∃ built,
     Builder._build_geodataframe Builder.pandas_lengths (Some Crs.EmptyStr)
       (@nil nat) (seq 100 3) = Ok built
     ∧ Builder.geom built = seq 100 3
     ∧ length (Builder.features (Builder.geodataframe built)) = 3
     ∧ Builder._data_repaired built = false)
  ∧ ¬ (∃ built,
         Builder._build_geodataframe Builder.pandas_lengths (Some Crs.EmptyStr)
           (@nil nat) (seq 100 3) = Ok built
         ∧ Builder.geom built
           = take (Nat.min (length (@nil nat)) (length (seq 100 3))) (seq 100 3)
         ∧ Builder._data_repaired built = true).
Proof.
  split.
  - eexists. split_and!; reflexivity.
  - intros (built & Hb & _ & Hrep). vm_compute in Hb.
    injection Hb as <-. discriminate Hrep.
Qed.

(** C6, as the code has it: given a frame constructor that accepts equal
    lengths, accepts any number of geometries on a table without rows, and
    refuses other lengths with a "Length of values" error, the builder never
    fails on a length mismatch.  On a table with rows, rows and geometries
    are cut to their common prefix of [min (len data) (len geom)] entries,
    which is all of them when the lengths are equal, the table has that
    many features, and the repaired flag tells whether the lengths
    differed.  On a table without rows nothing is cut: the frame has a row
    for every geometry and the repaired flag is not set. *)
Theorem builder_truncates_to_common_prefix
    {row geometry : Type} (frame_error : nat -> nat -> option string)
    (crs : Crs.crs_value) (data : list row) (geom : list geometry) :
  (∀ n, frame_error n n = None) →
  (∀ g, frame_error 0 g = None) →
  (∀ d g, d ≠ 0 → d ≠ g →
     ∃ msg, frame_error d g = Some msg
            ∧ Builder.substring_of "Length of values" msg = true) →
  ∃ built,
    Builder._build_geodataframe frame_error (Some crs) data geom = Ok built
    ∧ if decide (length data = 0)
      then Builder.data built = data
           ∧ Builder.geom built = geom
           ∧ length (Builder.features (Builder.geodataframe built)) = length geom
           ∧ Builder._data_repaired built = false
      else Builder.data built = take (Nat.min (length data) (length geom)) data
           ∧ Builder.geom built = take (Nat.min (length data) (length geom)) geom
           ∧ length (Builder.features (Builder.geodataframe built))
             = Nat.min (length data) (length geom)
           ∧ Builder._data_repaired built = bool_decide (length data ≠ length geom).
Proof.
  intros Hsame Hempty Hdiff.
  assert (∀ (d : list row) (g : list geometry),
            frame_error (length d) (length g) = None →
            ∃ frame,
              Builder.new_frame frame_error d g ≫= Builder.with_crs (Some crs)
              = Ok frame
              ∧ length (Builder.features frame) = length (Builder.rows d g)) as Hnew.
  { intros d g Hok. unfold Builder.new_frame. rewrite Hok.
    cbn [mbind result_bind Builder.with_crs].
    eexists. split; [reflexivity|]. by destruct (Crs.truthy crs). }
  unfold Builder._build_geodataframe.
  destruct (decide (length data = 0)) as [H0|H0].
  { destruct (Hnew data geom) as (frame & -> & Hlen); [rewrite H0; apply Hempty|].
    eexists. split_and!; [reflexivity|done|done| |done].
    cbn [Builder.geodataframe]. rewrite Hlen, builder_length_rows.
    by rewrite decide_True. }
  destruct (decide (length data = length geom)) as [Heq|Hne].
  - destruct (Hnew data geom) as (frame & -> & Hlen); [rewrite Heq; apply Hsame|].
    eexists. split_and!; [reflexivity|..]; cbn [Builder.data Builder.geom
      Builder.geodataframe Builder._data_repaired].
    + by rewrite take_ge by lia.
    + by rewrite take_ge by lia.
    + rewrite Hlen, builder_length_rows. by rewrite decide_False.
    + by rewrite bool_decide_eq_false_2 by (intros H; by apply H).
  - destruct (Hdiff _ _ H0 Hne) as (msg & Hmsg & Hsub).
    unfold Builder.new_frame at 1. rewrite Hmsg.
    cbn [mbind result_bind]. rewrite Hsub.
    set (n := Nat.min (length data) (length geom)).
    destruct (Hnew (take n data) (take n geom)) as (frame & -> & Hlen).
    { rewrite !length_take.
      replace (Nat.min n (length geom)) with (Nat.min n (length data)) by lia.
      apply Hsame. }
    cbn [mbind result_bind].
    eexists. split_and!; [reflexivity|..]; cbn [Builder.data Builder.geom
      Builder.geodataframe Builder._data_repaired]; [done|done| |].
    + rewrite Hlen, builder_length_rows, !length_take.
      destruct (decide (Nat.min n (length data) = 0)); lia.
    + by rewrite bool_decide_eq_true_2.
Qed.

Lemma builder_truncates_to_common_prefix_witness :
  ∃ built,
    Builder._build_geodataframe Builder.pandas_lengths (Some Crs.EmptyStr)
      (seq 0 10) (seq 100 7) = Ok built
    ∧ Builder.data built = seq 0 7
    ∧ Builder.geom built = seq 100 7
    ∧ length (Builder.features (Builder.geodataframe built)) = 7
    ∧ Builder._data_repaired built = true.
Proof.
  apply (builder_truncates_to_common_prefix Builder.pandas_lengths Crs.EmptyStr
           (seq 0 10) (seq 100 7)).
  - intros n. unfold Builder.pandas_lengths.
    destruct (decide (n = 0 ∨ n = n)) as [|Hn]; [reflexivity|].
    destruct Hn. by right.
  - intros g. reflexivity.
  - intros d g Hd Hne. exists (Builder.length_mismatch d g). split.
    + unfold Builder.pandas_lengths.
      destruct (decide (d = 0 ∨ d = g)) as [[|]|]; [done|done|reflexivity].
    + reflexivity.
Defined.

(** ** Values too wide for a shapefile field *)

Section SanitizerFacts.
Import Sanitizer.
Context {object : Type}.
Implicit Types (df : @frame object) (col : @column object).


Lemma set_where_map {A} (p : A → bool) (zero : A) (values : list A) :
  set_where (map p values) zero values = map (fun x => if p x then zero else x) values.
Proof. induction values as [|x values IH]; simpl; [done|]. by rewrite IH. Qed.

Lemma existsb_false_map {A} (p : A → bool) (zero : A) (values : list A) :
  existsb id (map p values) = false →
  map (fun x => if p x then zero else x) values = values.
Proof.
  induction values as [|x values IH]; simpl; [done|].
  intros [Hx Hrest]%orb_false_iff. unfold id in Hx. rewrite Hx. by rewrite IH.
Qed.

Lemma zeroed_float64 values :
  zeroed (@Float64 object values) = sanitized (Float64 values).
Proof.
  unfold zeroed, sanitized. simpl.
  destruct (existsb _ _) eqn:Hany.
  - by rewrite set_where_map.
  - by rewrite existsb_false_map.
Qed.




Lemma zeroed_at_absent df name :
  name ∉ (fst <$> df) → zeroed_at name <$> df = df.
Proof.
  induction df as [|[n c] df IH]; [done|]. rewrite !fmap_cons.
  rewrite not_elem_of_cons. intros [Hne Hnin]. rewrite (IH Hnin).
  unfold zeroed_at. simpl. by destruct (decide (n = name)).
Qed.

Lemma get_absent df name : name ∉ (fst <$> df) → get df name = None.
Proof.
  induction df as [|[n c] df IH]; [done|]. rewrite fmap_cons. simpl.
  rewrite not_elem_of_cons. intros [Hne Hnin].
  destruct (decide (name = n)); [done|]. by apply IH.
Qed.

Lemma fix_large_values_spec df name :
  NoDup (fst <$> df) →
  fix_large_values df name 1e12 = zeroed_at name <$> df.
Proof.
  unfold fix_large_values.
  induction df as [|[n c] df IH]; [done|]. rewrite !fmap_cons. cbn [get fst snd].
  intros [Hn Hnd]%NoDup_cons.
  unfold zeroed_at at 1. cbn [fst snd].
  destruct (decide (name = n)) as [->|Hne].
  - rewrite decide_True by done. rewrite (zeroed_at_absent df n Hn).
    unfold zeroed. destruct (numeric c); [|done].
    destruct (existsb _ _); [|done]. simpl. by rewrite decide_True.
  - rewrite decide_False by done. specialize (IH Hnd).
    destruct (get df name) as [col|] eqn:Hget.
    + destruct (numeric col); [|by rewrite <-IH].
      destruct (existsb _ _); [|by rewrite <-IH].
      simpl. rewrite decide_False by done. by rewrite IH.
    + by rewrite <-IH.
Qed.

Lemma names_zeroed_at df name : fst <$> (zeroed_at name <$> df) = fst <$> df.
Proof. rewrite <-list_fmap_compose. by apply list_fmap_ext. Qed.

Lemma fix_each_spec (names : list string) df :
  NoDup names → NoDup (fst <$> df) →
  fold_left (fun d name => fix_large_values d name 1e12) names df
  = (fun nc => (nc.1, if bool_decide (nc.1 ∈ names) then zeroed nc.2 else nc.2)) <$> df.
Proof.
  revert df. induction names as [|name names IH]; intros df Hnames Hdf; simpl.
  - rewrite <-(list_fmap_id df) at 1. apply list_fmap_ext. by intros _ [n c] _.
  - apply NoDup_cons in Hnames as [Hname Hnames].
    rewrite fix_large_values_spec by done.
    rewrite IH by (by rewrite ?names_zeroed_at).
    rewrite <-list_fmap_compose. apply list_fmap_ext. intros _ [n c] _.
    unfold zeroed_at. simpl. f_equal.
    destruct (decide (n = name)) as [->|Hne].
    + rewrite bool_decide_eq_false_2 by done.
      by rewrite bool_decide_eq_true_2 by left.
    + destruct (decide (n ∈ names)).
      * rewrite !bool_decide_eq_true_2; [done|by right|done].
      * rewrite !bool_decide_eq_false_2; [done| |done].
        rewrite not_elem_of_cons. done.
Qed.

Lemma fix_all_large_values_zeroed df :
  NoDup (fst <$> df) →
  fix_all_large_values df = (fun nc => (nc.1, zeroed nc.2)) <$> df.
Proof.
  intros Hdf. unfold fix_all_large_values.
  rewrite fix_each_spec; [|unfold numeric_columns|done].
  - apply list_fmap_ext. intros _ [n c] Hin%list_elem_of_lookup_2. simpl. f_equal.
    destruct (numeric c) eqn:Hnum.
    + rewrite bool_decide_eq_true_2; [done|].
      unfold numeric_columns. apply list_elem_of_fmap. exists (n, c). split; [done|].
      apply list_elem_of_filter. simpl. by rewrite Hnum.
    + unfold zeroed. rewrite Hnum. by destruct (bool_decide _).
  - apply (sublist_NoDup _ (fst <$> df)); [done|].
    apply fmap_sublist, sublist_filter.
Qed.

End SanitizerFacts.




(** ** Polygons from rings *)

Section PolygonFacts.
Import Polygons.
Context {ring : Type} (inside : ring -> ring -> bool).

Lemma polygons_of_no_RecursionError (d : @level ring) :
  polygons_of d ≠ Raise RecursionError.
Proof.
  induction d as [|[k [|outer inner]] d IH]; simpl; [done..|].
  destruct (polygons_of d) as [rest|e]; simpl; [done|]. intros [= ->]. done.
Qed.

Lemma relation_length (lines : list ring) :
  length (relation inside lines) = length lines.
Proof. unfold relation. by rewrite length_imap. Qed.

Lemma filter_length_eq {A} (P : A → Prop) `{!∀ x, Decision (P x)} (l : list A) :
  length (filter P l) = length l → filter P l = l.
Proof.
  induction l as [|x l IH]; [done|].
  rewrite filter_cons. destruct (decide (P x)); simpl; intros Hlen.
  - f_equal. apply IH. lia.
  - pose proof (length_filter P l). lia.
Qed.

Lemma contained_length (lines : list ring) :
  length (contained_more_than_once inside lines) ≤ length lines.
Proof.
  unfold contained_more_than_once. rewrite length_fmap.
  etrans; [apply length_filter|]. rewrite length_zip, relation_length. lia.
Qed.

Lemma contained_all (lines : list ring) :
  length (contained_more_than_once inside lines) = length lines →
  contained_more_than_once inside lines = lines.
Proof.
  unfold contained_more_than_once. rewrite length_fmap. intros Hlen.
  rewrite filter_length_eq.
  - apply fst_zip. rewrite relation_length. lia.
  - rewrite Hlen, length_zip, relation_length. lia.
Qed.

(** One more round does not change a result that was reached. *)
Lemma rec_fuel_S fuel (lines : list ring) :
  get_multipolygons_rec inside fuel lines ≠ Raise RecursionError →
  get_multipolygons_rec inside (S fuel) lines = get_multipolygons_rec inside fuel lines.
Proof.
  revert lines. induction fuel as [|fuel IH]; intros lines Hr; [done|].
  cbn [get_multipolygons_rec] in *.
  destruct (negb (some_row_sums_to_two inside lines)); [done|].
  destruct (polygons_of (level_0 inside lines)) as [temp|e]; [|done]. simpl in *.
  rewrite IH; [done|]. intros Heq. by rewrite Heq in Hr.
Qed.

Lemma rec_fuel_le fuel fuel' (lines : list ring) :
  fuel ≤ fuel' →
  get_multipolygons_rec inside fuel lines ≠ Raise RecursionError →
  get_multipolygons_rec inside fuel' lines = get_multipolygons_rec inside fuel lines.
Proof.
  induction 1 as [|fuel' Hle IH]; [done|]. intros Hr.
  rewrite rec_fuel_S; [by apply IH|]. by rewrite IH.
Qed.

(** A call that passes all its rings on never returns. *)
Lemma rec_repeats (lines : list ring) temp fuel :
  some_row_sums_to_two inside lines = true →
  contained_more_than_once inside lines = lines →
  polygons_of (level_0 inside lines) = Ok temp →
  get_multipolygons_rec inside fuel lines = Raise RecursionError.
Proof.
  intros Htwo Hall Htemp. induction fuel as [|fuel IH]; [done|].
  cbn [get_multipolygons_rec]. rewrite Htwo, Htemp, Hall. simpl. by rewrite IH.
Qed.

(** Running out of rounds with more rounds than rings means that no number
    of rounds is enough. *)
Lemma rec_diverges fuel (lines : list ring) :
  length lines < fuel →
  get_multipolygons_rec inside fuel lines = Raise RecursionError →
  ∀ fuel', get_multipolygons_rec inside fuel' lines = Raise RecursionError.
Proof.
  revert lines. induction fuel as [|fuel IH]; intros lines Hlen Hr; [lia|].
  cbn [get_multipolygons_rec] in Hr.
  destruct (negb (some_row_sums_to_two inside lines)) eqn:Htwo.
  { by apply polygons_of_no_RecursionError in Hr. }
  apply negb_false_iff in Htwo.
  destruct (polygons_of (level_0 inside lines)) as [temp|e] eqn:Htemp; simpl in Hr.
  2:{ destruct (polygons_of_no_RecursionError (level_0 inside lines)). by simplify_eq. }
  destruct (get_multipolygons_rec inside fuel _) as [more|e] eqn:Hmore;
    simpl in Hr; simplify_eq.
  pose proof (contained_length lines) as Hle.
  destruct (decide (length (contained_more_than_once inside lines) = length lines))
    as [Hall%contained_all|Hfewer].
  - intros fuel'. by eapply rec_repeats.
  - intros [|fuel']; [done|]. cbn [get_multipolygons_rec].
    rewrite Htwo, Htemp. simpl.
    rewrite (IH (contained_more_than_once inside lines)) by (lia || done). done.
Qed.

(** The bound of [get_multipolygons] can be taken for the recursive call. *)
Lemma rec_fuel_enough fuel (lines : list ring) :
  length lines < fuel →
  get_multipolygons_rec inside fuel lines = get_multipolygons inside lines.
Proof.
  intros Hlen. unfold get_multipolygons.
  destruct (get_multipolygons_rec inside (S (length lines)) lines) as [r|e] eqn:Hr.
  - rewrite <-Hr. apply rec_fuel_le; [lia|]. by rewrite Hr.
  - assert (e = RecursionError ∨ e ≠ RecursionError) as [->|He]
      by (destruct e; auto).
    + by apply (rec_diverges (S (length lines))); [lia|].
    + rewrite <-Hr. apply rec_fuel_le; [lia|]. rewrite Hr. by intros [= ->].
Qed.

Lemma get_multipolygons_unfold (lines : list ring) :
  get_multipolygons inside lines =
  if some_row_sums_to_two inside lines then
    temp ← polygons_of (level_0 inside lines);
    more ← get_multipolygons inside (contained_more_than_once inside lines);
    Ok (temp ++ more)
  else polygons_of (level_0 inside lines).
Proof.
  unfold get_multipolygons at 1. cbn [get_multipolygons_rec].
  destruct (some_row_sums_to_two inside lines) eqn:Htwo; simpl; [|done].
  destruct (polygons_of (level_0 inside lines)) as [temp|e] eqn:Htemp; simpl; [|done].
  pose proof (contained_length lines) as Hle.
  destruct (decide (length (contained_more_than_once inside lines) = length lines))
    as [Hall|Hfewer].
  - pose proof (contained_all _ Hall) as Heq. rewrite Heq.
    rewrite (rec_repeats lines temp (length lines)) by done.
    unfold get_multipolygons.
    by rewrite (rec_repeats lines temp (S (length lines))) by done.
  - by rewrite rec_fuel_enough by lia.
Qed.

End PolygonFacts.

(** C4 as stated fails: a ring with three containers, none of which has two,
    does not make the function recurse.  It returns the three outer
    polygons, and the ring within them, which the recursion would have
    resolved, is lost. *)
Lemma three_containers_no_recursion :
  Polygons.row_sum
    (Polygons.relation_row Polygons.rectangle_within
       [Examples.small; Examples.left_sheet; Examples.right_sheet; Examples.tall_sheet]
       0 Examples.small) = 3
  ∧ Polygons.get_multipolygons Polygons.rectangle_within
      [Examples.small; Examples.left_sheet; Examples.right_sheet; Examples.tall_sheet]
    = Ok [ Polygons.MkPolygon Examples.left_sheet [];
           Polygons.MkPolygon Examples.right_sheet [];
           Polygons.MkPolygon Examples.tall_sheet [] ]
  ∧ Polygons.get_multipolygons Polygons.rectangle_within
      [Examples.small; Examples.left_sheet; Examples.right_sheet; Examples.tall_sheet]
    ≠ (temp ← Polygons.polygons_of
                (Polygons.level_0 Polygons.rectangle_within
                   [Examples.small; Examples.left_sheet; Examples.right_sheet;
                    Examples.tall_sheet]);
       more ← Polygons.get_multipolygons Polygons.rectangle_within
                (Polygons.contained_more_than_once Polygons.rectangle_within
                   [Examples.small; Examples.left_sheet; Examples.right_sheet;
                    Examples.tall_sheet]);
       Ok (temp ++ more)).
Proof.
  split_and!.
  - vm_compute. reflexivity.
  - vm_compute. reflexivity.
  - vm_compute. discriminate.
Qed.

(** C4, as the code has it: for every list of rings in which some ring has
    exactly two containing rings, the function recurses: its result is the
    polygons of the resolved entries of [level_0], followed by the result of
    the function on the rings that more than one ring contains. *)
Theorem recursion_when_some_ring_has_two_containers
    {ring : Type} (inside : ring -> ring -> bool) (lines : list ring) :
  (∃ row, row ∈ Polygons.relation inside lines ∧ Polygons.row_sum row = 2) →
  Polygons.get_multipolygons inside lines
  = (temp ← Polygons.polygons_of (Polygons.level_0 inside lines);
     more ← Polygons.get_multipolygons inside
              (Polygons.contained_more_than_once inside lines);
     Ok (temp ++ more)).
Proof.
  intros (row & Hrow & Hsum).
  rewrite get_multipolygons_unfold at 1.
  assert (Polygons.some_row_sums_to_two inside lines = true) as ->; [|done].
  unfold Polygons.some_row_sums_to_two. apply existsb_exists.
  exists row. split; [by apply list_elem_of_In|]. by apply bool_decide_eq_true_2.
Qed.

Lemma recursion_when_some_ring_has_two_containers_witness :
  Polygons.get_multipolygons Polygons.rectangle_within
    [Examples.island; Examples.outer; Examples.hole; Examples.apart]
  = Ok [ Polygons.MkPolygon Examples.outer [Examples.hole];
         Polygons.MkPolygon Examples.apart [];
         Polygons.MkPolygon Examples.island [] ].
Proof.
  apply (recursion_when_some_ring_has_two_containers Polygons.rectangle_within
           [Examples.island; Examples.outer; Examples.hole; Examples.apart]).
  exists [false; true; true; false]. split.
  - apply list_elem_of_In. vm_compute. tauto.
  - reflexivity.
Defined.

(** C7: an outer ring and one ring contained in it, given in either order,
    make exactly one polygon, whose list of holes has length 1; two rings
    neither of which contains the other make exactly two polygons without
    holes. *)
Theorem one_hole_or_two_outers
    {ring : Type} (inside : ring -> ring -> bool) (a b : ring) :
  (inside b a = true → inside a b = false →
   Polygons.get_multipolygons inside [a; b] = Ok [Polygons.MkPolygon a [b]]
   ∧ Polygons.get_multipolygons inside [b; a] = Ok [Polygons.MkPolygon a [b]]
   ∧ length (Polygons.holes (Polygons.MkPolygon a [b])) = 1)
  ∧ (inside a b = false → inside b a = false →
     Polygons.get_multipolygons inside [a; b]
     = Ok [Polygons.MkPolygon a []; Polygons.MkPolygon b []]).
Proof.
  split.
  - intros Hba Hab. split_and!; [..|done].
    + unfold Polygons.get_multipolygons, Polygons.get_multipolygons_rec,
        Polygons.some_row_sums_to_two, Polygons.level_0, Polygons.attach_holes,
        Polygons.seed_outer, Polygons.indexed, Polygons.relation,
        Polygons.relation_row.
      simpl. rewrite Hba, Hab. reflexivity.
    + unfold Polygons.get_multipolygons, Polygons.get_multipolygons_rec,
        Polygons.some_row_sums_to_two, Polygons.level_0, Polygons.attach_holes,
        Polygons.seed_outer, Polygons.indexed, Polygons.relation,
        Polygons.relation_row.
      simpl. rewrite Hba, Hab. reflexivity.
  - intros Hab Hba.
    unfold Polygons.get_multipolygons, Polygons.get_multipolygons_rec,
      Polygons.some_row_sums_to_two, Polygons.level_0, Polygons.attach_holes,
      Polygons.seed_outer, Polygons.indexed, Polygons.relation,
      Polygons.relation_row.
    simpl. rewrite Hba, Hab. reflexivity.
Qed.

Lemma one_hole_or_two_outers_witness :
  (Polygons.get_multipolygons Polygons.rectangle_within [Examples.outer; Examples.hole]
   = Ok [Polygons.MkPolygon Examples.outer [Examples.hole]]
   ∧ Polygons.get_multipolygons Polygons.rectangle_within [Examples.hole; Examples.outer]
     = Ok [Polygons.MkPolygon Examples.outer [Examples.hole]]
   ∧ length (Polygons.holes (Polygons.MkPolygon Examples.outer [Examples.hole])) = 1)
  ∧ Polygons.get_multipolygons Polygons.rectangle_within [Examples.outer; Examples.apart]
    = Ok [Polygons.MkPolygon Examples.outer []; Polygons.MkPolygon Examples.apart []].
Proof.
  split.
  - apply (proj1 (one_hole_or_two_outers Polygons.rectangle_within
                    Examples.outer Examples.hole)); reflexivity.
  - apply (proj2 (one_hole_or_two_outers Polygons.rectangle_within
                    Examples.outer Examples.apart)); reflexivity.
Defined.

(** * Further properties of the embedded code *)

(** ** The codec *)

Section GbkFacts.
Variable table : byte -> byte -> option N.

Lemma decode_from_ascii pos (bs : list byte) :
  Forall (fun c => Gbk.is_ascii c = true) bs →
  Gbk.decode_from table pos bs = inl (Byte.to_N <$> bs).
Proof.
  intros H. revert pos. induction H as [|c bs Hc _ IH]; intros pos; [done|].
  cbn [Gbk.decode_from]. by rewrite Hc, IH.
Qed.

Lemma decode_replace_ascii (bs : list byte) :
  Forall (fun c => Gbk.is_ascii c = true) bs →
  Gbk.decode_replace table bs = Byte.to_N <$> bs.
Proof.
  induction 1 as [|c bs Hc _ IH]; [done|].
  cbn [Gbk.decode_replace]. by rewrite Hc, IH.
Qed.

Lemma decode_from_replace pos (bs : list byte) t :
  Gbk.decode_from table pos bs = inl t → Gbk.decode_replace table bs = t.
Proof.
  revert pos t. induction bs as [bs IH] using (induction_ltof1 _ (@length byte)).
  unfold ltof in IH. intros pos t H.
  destruct bs as [|c rest]; [by simplify_eq/=|].
  cbn [Gbk.decode_from Gbk.decode_replace] in *.
  destruct (Gbk.is_ascii c).
  - destruct (Gbk.decode_from table (S pos) rest) as [t'|] eqn:Hd; simplify_eq.
    by rewrite (IH rest ltac:(simpl; lia) _ _ Hd).
  - destruct rest as [|c2 rest]; [done|].
    destruct (table c c2); [|done].
    destruct (Gbk.decode_from table (S (S pos)) rest) as [t'|] eqn:Hd; simplify_eq.
    by rewrite (IH rest ltac:(simpl; lia) _ _ Hd).
Qed.

Lemma decode_from_failure pos (bs : list byte) f :
  Gbk.decode_from table pos bs = inr f →
  ∃ k t, Gbk.failure_position f = pos + k
         ∧ bs !! k = Some (Gbk.failure_byte f)
         ∧ Gbk.is_ascii (Gbk.failure_byte f) = false
         ∧ Gbk.decode_from table pos (take k bs) = inl t.
Proof.
  revert pos f. induction bs as [bs IH] using (induction_ltof1 _ (@length byte)).
  unfold ltof in IH. intros pos f H.
  destruct bs as [|c rest]; [done|].
  cbn [Gbk.decode_from] in H.
  destruct (Gbk.is_ascii c) eqn:Hc.
  - destruct (Gbk.decode_from table (S pos) rest) as [|f'] eqn:Hd; simplify_eq.
    destruct (IH rest ltac:(simpl; lia) _ _ Hd) as (k & t & Hp & Hk & Ha & Ht).
    exists (S k), (Byte.to_N c :: t). split_and!; [lia|done|done|].
    cbn [take Gbk.decode_from]. by rewrite Hc, Ht.
  - destruct rest as [|c2 rest].
    { simplify_eq. exists 0, []. simpl. split_and!; [lia|done..]. }
    destruct (table c c2) as [u|] eqn:Hu.
    2:{ simplify_eq. exists 0, []. simpl. split_and!; [lia|done..]. }
    destruct (Gbk.decode_from table (S (S pos)) rest) as [|f'] eqn:Hd; simplify_eq.
    destruct (IH rest ltac:(simpl; lia) _ _ Hd) as (k & t & Hp & Hk & Ha & Ht).
    exists (S (S k)), (u :: t). split_and!; [lia|done|done|].
    cbn [take Gbk.decode_from]. by rewrite Hc, Hu, Ht.
Qed.

End GbkFacts.

(** Bytes below [0x80] are decoded to the code points of the same
    number, whatever the codec's double-byte table holds, by the strict
    decoder and by the replacing one alike. *)
Theorem gbk_ascii_identity (table : byte -> byte -> option N) (bs : list byte) :
  Forall (fun c => Gbk.is_ascii c = true) bs →
  Gbk.decode table bs = Ok (Byte.to_N <$> bs)
  ∧ Gbk.decode_replace table bs = Byte.to_N <$> bs.
Proof.
  intros H. split; [|by apply decode_replace_ascii].
  unfold Gbk.decode. by rewrite decode_from_ascii.
Qed.

Lemma gbk_ascii_identity_witness :
  Gbk.decode Examples.no_pairs (list_byte_of_string "GB")
  = Ok (Byte.to_N <$> list_byte_of_string "GB")
  ∧ Gbk.decode_replace Examples.no_pairs (list_byte_of_string "GB")
    = Byte.to_N <$> list_byte_of_string "GB".
Proof.
  apply (gbk_ascii_identity Examples.no_pairs (list_byte_of_string "GB")).
  repeat constructor.
Defined.

(** Where strict decoding succeeds, decoding with [errors='replace']
    gives the same text: replacement characters only come from bytes the
    strict decoder refuses. *)
Theorem gbk_replace_agrees_with_strict
    (table : byte -> byte -> option N) (bs : list byte) (t : text) :
  Gbk.decode table bs = Ok t → Gbk.decode_replace table bs = t.
Proof.
  unfold Gbk.decode. intros H.
  destruct (Gbk.decode_from table 0 bs) as [t'|f] eqn:Hd; simplify_eq.
  by eapply decode_from_replace.
Qed.

Lemma gbk_replace_agrees_with_strict_witness :
  Gbk.decode_replace Examples.no_pairs [x41; x00; x42] = [65; 0; 66]%N.
Proof.
  apply (gbk_replace_agrees_with_strict Examples.no_pairs [x41; x00; x42]).
  reflexivity.
Defined.

(** When strict decoding fails, the position it reports is the index of
    a byte of the input that is not ASCII, which is the byte it names, and
    the bytes before that position decode without error. *)
Theorem gbk_failure_position
    (table : byte -> byte -> option N) (bs : list byte) (f : Gbk.failure) :
  Gbk.decode_from table 0 bs = inr f →
  bs !! Gbk.failure_position f = Some (Gbk.failure_byte f)
  ∧ Gbk.is_ascii (Gbk.failure_byte f) = false
  ∧ ∃ t, Gbk.decode table (take (Gbk.failure_position f) bs) = Ok t.
Proof.
  intros H. destruct (decode_from_failure table 0 bs f H) as (k & t & Hp & Hk & Ha & Ht).
  simpl in Hp. rewrite Hp. split_and!; [done..|].
  exists t. unfold Gbk.decode. by rewrite Ht.
Qed.

Lemma gbk_failure_position_witness :
  [x41; x42; xb0; x43] !! 2 = Some xb0
  ∧ Gbk.is_ascii xb0 = false
  ∧ ∃ t, Gbk.decode Examples.no_pairs (take 2 [x41; x42; xb0; x43]) = Ok t.
Proof.
  apply (gbk_failure_position Examples.no_pairs [x41; x42; xb0; x43]
           (Gbk.Failure 2 xb0 "illegal multibyte sequence")).
  reflexivity.
Defined.

(** ** Decimal texts *)

Section DecimalFacts.
Import Attributes TextFacts.

Lemma all_chars_app p s1 s2 :
  all_chars p (s1 +:+ s2) = all_chars p s1 && all_chars p s2.
Proof. induction s1 as [|c s1 IH]; simpl; [done|]. by rewrite IH, andb_assoc. Qed.

Lemma string_app_cons c (s1 s2 : string) : String c s1 +:+ s2 = String c (s1 +:+ s2).
Proof. reflexivity. Qed.

Lemma string_app_assoc (s1 s2 s3 : string) : (s1 +:+ s2) +:+ s3 = s1 +:+ (s2 +:+ s3).
Proof.
  induction s1 as [|c s1 IH]; [done|]. by rewrite !string_app_cons, IH.
Qed.

Lemma string_app_nil_r (s : string) : s +:+ "" = s.
Proof. induction s as [|c s IH]; [done|]. by rewrite string_app_cons, IH. Qed.

Lemma string_length_app (s1 s2 : string) :
  String.length (s1 +:+ s2) = String.length s1 + String.length s2.
Proof.
  induction s1 as [|c s1 IH]; [done|]. rewrite string_app_cons. simpl. by rewrite IH.
Qed.

Lemma pretty_N_char_digit (d : N) :
  (d < 10)%N →
  is_digit (pretty_N_char d) = true
  ∧ Z.of_N (N_of_ascii (pretty_N_char d) - 48) = Z.of_N d.
Proof.
  intros Hd.
  assert (d = 0 ∨ d = 1 ∨ d = 2 ∨ d = 3 ∨ d = 4 ∨ d = 5 ∨ d = 6
          ∨ d = 7 ∨ d = 8 ∨ d = 9)%N as Hcases by lia.
  repeat (destruct Hcases as [->|Hcases]; [by split|]). by subst.
Qed.

(** The digits that [pretty] writes for a number, and how [int] reads
    them. *)
Lemma pretty_N_go_digits (x : N) (s : string) :
  ∃ d, pretty_N_go x s = d +:+ s
       ∧ all_chars is_digit d = true
       ∧ ((0 < x)%N → d ≠ "")
       ∧ ∀ acc rest,
           digits_value acc (d +:+ rest)
           = digits_value (acc * 10 ^ Z.of_nat (String.length d) + Z.of_N x)%Z rest.
Proof.
  revert s. induction (N.lt_wf_0 x) as [x _ IH]; intros s.
  destruct (decide (x = 0)%N) as [->|Hx].
  - exists "". rewrite pretty_N_go_0. split_and!; [done|done|lia|].
    intros acc rest. simpl. f_equal. lia.
  - rewrite pretty_N_go_step by lia.
    destruct (IH (x `div` 10)%N ltac:(apply N.div_lt; lia)
                (String (pretty_N_char (x `mod` 10)) s))
      as (d' & Hgo & Hdig & _ & Hval).
    destruct (pretty_N_char_digit (x `mod` 10)%N) as [Hc Hcv].
    { apply N.mod_lt. lia. }
    exists (d' +:+ String (pretty_N_char (x `mod` 10)) "").
    split_and!.
    + by rewrite Hgo, string_app_assoc.
    + rewrite all_chars_app, Hdig. cbn [all_chars]. by rewrite Hc.
    + intros _. by destruct d'.
    + intros acc rest. rewrite string_app_assoc, string_app_cons.
      change ("" +:+ rest) with rest.
      rewrite Hval. cbn [digits_value]. rewrite Hc, Hcv. f_equal.
      rewrite string_length_app. cbn [String.length].
      rewrite Nat2Z.inj_add, Z.pow_add_r by lia.
      pose proof (N.div_mod x 10 ltac:(lia)) as Hdm.
      assert (Z.of_N x = 10 * Z.of_N (x `div` 10) + Z.of_N (x `mod` 10))%Z as ->
        by lia.
      change (10 ^ Z.of_nat 1)%Z with 10%Z. lia.
Qed.

Lemma int_of_digits (d : string) (z : Z) :
  d ≠ "" → all_chars is_digit d = true → digits_value 0 d = Some z →
  Attributes.int d = Ok z.
Proof.
  intros Hne Hdig Hval. destruct d as [|c d]; [done|].
  simpl in Hdig. apply andb_true_iff in Hdig as [Hc _].
  assert (c ≠ "-"%char ∧ c ≠ "+"%char) as [Hm Hp].
  { split; intros ->; done. }
  unfold Attributes.int.
  destruct c as [[] [] [] [] [] [] [] []]; try done;
    rewrite Hval; f_equal; lia.
Qed.

Lemma pretty_N_digits (x : N) :
  pretty x ≠ "" ∧ all_chars is_digit (pretty x) = true
  ∧ digits_value 0 (pretty x) = Some (Z.of_N x).
Proof.
  unfold pretty, pretty_N. destruct (decide (x = 0)%N) as [->|Hx]; [done|].
  destruct (pretty_N_go_digits x "") as (d & Hgo & Hdig & Hne & Hval).
  rewrite string_app_nil_r in Hgo. rewrite Hgo.
  split_and!; [apply Hne; lia|done|].
  specialize (Hval 0%Z ""). rewrite string_app_nil_r in Hval.
  rewrite Hval. simpl. f_equal.
Qed.

Lemma int_pretty_N (x : N) : Attributes.int (pretty x) = Ok (Z.of_N x).
Proof.
  destruct (pretty_N_digits x) as (Hne & Hdig & Hval). by apply int_of_digits.
Qed.

End DecimalFacts.

(** [int] reads back every integer from the text that [str] writes for
    it. *)
Theorem int_reads_back_str (z : Z) : Attributes.int (Crs.str (Crs.PyInt z)) = Ok z.
Proof.
  unfold Crs.str, pretty, pretty_Z. destruct z as [|p|p].
  - reflexivity.
  - apply (int_pretty_N (Npos p)).
  - destruct (pretty_N_digits (Npos p)) as (Hne & Hdig & Hval).
    change (pretty p) with (pretty (Npos p)).
    change ("-" +:+ pretty (N.pos p)) with (String "-" (pretty (N.pos p))).
    destruct (pretty (N.pos p)) as [|c d] eqn:Hd; [done|].
    unfold Attributes.int. cbn -[Attributes.digits_value Z.mul].
    rewrite Hval. f_equal.
Qed.

(** ** Names and text fields of the attribute table *)

Section FieldFacts.
Import Attributes TextFacts.

Lemma search_skip group c s :
  c ≠ "i"%char →
  re_search_in_position group (String c s) = re_search_in_position group s.
Proof.
  intros Hc. cbn [re_search_in_position strip_prefix].
  destruct (Ascii.eqb_spec "i" c) as [<-|_]; done.
Qed.

Lemma strip_prefix_same p rest : strip_prefix p (p +:+ rest) = Some rest.
Proof.
  induction p as [|a p IH]; [done|].
  rewrite string_app_cons. cbn [strip_prefix]. by rewrite Ascii.eqb_refl.
Qed.

Lemma search_here group rest g :
  group rest = Some g →
  re_search_in_position group ("in position " +:+ rest) = Some g.
Proof.
  intros Hg.
  change ("in position " +:+ rest)
    with (String "i" ("n position " +:+ rest)).
  cbn [re_search_in_position].
  change (String "i" ("n position " +:+ rest)) with ("in position " +:+ rest).
  by rewrite strip_prefix_same, Hg.
Qed.

Lemma take_while_digits d c rest :
  all_chars is_digit d = true → is_digit c = false →
  take_while is_digit (d +:+ String c rest) = d.
Proof.
  intros Hd Hc. induction d as [|a d IH].
  - simpl. by rewrite Hc.
  - simpl in Hd. apply andb_true_iff in Hd as [Ha Hd].
    rewrite string_app_cons. cbn [take_while]. by rewrite Ha, IH.
Qed.

Lemma hex_digit_not_i n : Gbk.hex_digit n ≠ "i"%char.
Proof. unfold Gbk.hex_digit. by repeat case_match. Qed.

(** The pattern of line 81 finds, in the message of a decoding error, the
    position that the error reports. *)
Lemma search_digits_message (f : Gbk.failure) :
  re_search_in_position group_digits (Gbk.message f)
  = Some (pretty (Gbk.failure_position f)).
Proof.
  unfold Gbk.message, Gbk.hex2.
  repeat (rewrite string_app_cons || change ("" +:+ ?s) with s).
  rewrite !search_skip by (apply hex_digit_not_i || done).
  apply (search_here group_digits
           (pretty (Gbk.failure_position f)
            +:+ String ":" (String " " (Gbk.failure_reason f)))).
  unfold group_digits.
  destruct (pretty_N_digits (N.of_nat (Gbk.failure_position f))) as (Hne & Hdig & _).
  change (pretty (N.of_nat (Gbk.failure_position f)))
    with (pretty (Gbk.failure_position f)) in *.
  rewrite take_while_digits by done.
  by destruct (pretty (Gbk.failure_position f)).
Qed.

End FieldFacts.

(** X1: decoding the name of a field never raises.  A name that the codec
    decodes is that text without the NULs at its ends; a name on which the
    codec fails is the text of the bytes before the position of the
    failure. *)
Theorem field_name_never_raises (table : byte -> byte -> option N) (raw : list byte) :
  ∃ t, Attributes.field_name table raw = Ok t
       ∧ match Gbk.decode_from table 0 raw with
         | inl whole => t = strip_nul whole
         | inr f => Gbk.decode table (take (Gbk.failure_position f) raw) = Ok t
         end.
Proof.
  unfold Attributes.field_name.
  destruct (Gbk.decode_from table 0 raw) as [whole|f] eqn:Hd; [by eexists|].
  rewrite search_digits_message.
  change (pretty (Gbk.failure_position f))
    with (pretty (N.of_nat (Gbk.failure_position f))).
  rewrite int_pretty_N. cbn [mbind result_bind].
  replace (Z.to_nat (Z.of_N (N.of_nat (Gbk.failure_position f))))
    with (Gbk.failure_position f) by lia.
  destruct (decode_from_failure table 0 raw f Hd) as (k & t & Hp & _ & _ & Ht).
  simpl in Hp. rewrite Hp. exists t. unfold Gbk.decode. by rewrite Ht.
Qed.

(** X2: decoding a text field never raises, and its value is in every case
    the field decoded with replacement characters, without the NULs at its
    ends. *)
Theorem string_field_never_raises (table : byte -> byte -> option N) (value : list byte) :
  Attributes.string_field table value
  = Ok (strip_nul (Gbk.decode_replace table value)).
Proof.
  destruct (Gbk.decode_from table 0 value) as [t|f] eqn:Hd.
  - unfold Attributes.string_field. rewrite Hd.
    by rewrite (decode_from_replace table 0 value t Hd).
  - by eapply string_field_on_error.
Qed.

(** ** Magic tag and header table, continued *)

Section OpenFacts.
Import Reader.

#[local] Instance byte_to_N_inj : Inj (=) (=) Byte.to_N.
Proof.
  intros a b H. pose proof (Byte.of_to_N a) as Ha.
  rewrite H, Byte.of_to_N in Ha. by injection Ha.
Qed.

(** A text of ASCII characters only comes from the bytes of the same
    numbers, given that the double-byte table maps to no ASCII character. *)
Lemma decode_from_ascii_inv (table : byte -> byte -> option N) pos (bs : list byte) t :
  (∀ c c2 u, table c c2 = Some u → (0x80 ≤ u)%N) →
  Gbk.decode_from table pos bs = inl t →
  Forall (fun u => (u < 0x80)%N) t →
  t = Byte.to_N <$> bs.
Proof.
  intros Htable. revert pos t.
  induction bs as [bs IH] using (induction_ltof1 _ (@length byte)).
  unfold ltof in IH. intros pos t H Ht.
  destruct bs as [|c rest]; [by simplify_eq/=|].
  cbn [Gbk.decode_from] in H.
  destruct (Gbk.is_ascii c).
  - destruct (Gbk.decode_from table (S pos) rest) as [t'|] eqn:Hd; simplify_eq.
    apply Forall_cons in Ht as [_ Ht].
    rewrite fmap_cons. f_equal. eapply (IH rest); [simpl; lia|done..].
  - destruct rest as [|c2 rest]; [done|].
    destruct (table c c2) as [u|] eqn:Hu; [|done].
    destruct (Gbk.decode_from table (S (S pos)) rest) as [t'|] eqn:Hd; simplify_eq.
    apply Forall_cons in Ht as [Hlt _]. apply Htable in Hu. lia.
Qed.

Lemma type_dict_tags (t : text) shape :
  dict_get type_dict t = Some shape →
  ∃ tag, (tag, shape) ∈ magic_tags ∧ t = Byte.to_N <$> tag.
Proof.
  unfold type_dict. cbn [dict_get]. intros H.
  destruct (decide _) as [->|_].
  { injection H as <-. exists (list_byte_of_string "WMAP`D22").
    split; [|reflexivity]. unfold magic_tags. rewrite !elem_of_cons. tauto. }
  destruct (decide _) as [->|_].
  { injection H as <-. exists (list_byte_of_string "WMAP`D23").
    split; [|reflexivity]. unfold magic_tags. rewrite !elem_of_cons. tauto. }
  destruct (decide _) as [->|_]; [|done].
  injection H as <-. exists (list_byte_of_string "WMAP`D21").
  split; [|reflexivity]. unfold magic_tags. rewrite !elem_of_cons. tauto.
Qed.

Lemma detect_inv (content : list byte) table shape pos :
  (∀ c c2 u, table c c2 = Some u → (0x80 ≤ u)%N) →
  _detect_shape_type content table 0 = Ok (shape, pos) →
  (take 8 content, shape) ∈ magic_tags
  ∧ pos = 8 + length (take 4 (drop 8 content)).
Proof.
  intros Htable. unfold _detect_shape_type, bind, read, lift, Gbk.decode.
  rewrite drop_0.
  destruct (Gbk.decode_from table 0 (take 8 content)) as [t|f] eqn:Hd; [|done].
  destruct (dict_get type_dict t) as [shape'|] eqn:Hdict; [|done].
  unfold ret. intros [= -> <-].
  destruct (type_dict_tags _ _ Hdict) as (tag & Htag & ->).
  assert (take 8 content = tag) as Heq.
  { apply (inj (fmap Byte.to_N)). symmetry.
    eapply decode_from_ascii_inv; [done..|].
    unfold magic_tags in Htag. rewrite !elem_of_cons in Htag.
    destruct Htag as [H|[H|[H|H]]]; [..|by apply elem_of_nil in H];
      injection H as -> _; repeat constructor. }
  rewrite Heq. split; [done|].
  assert (length tag = 8) as ->; [|done].
  unfold magic_tags in Htag. rewrite !elem_of_cons in Htag.
  destruct Htag as [H|[H|[H|H]]]; [..|by apply elem_of_nil in H];
    by injection H as -> _.
Qed.

Lemma magic_tag_detected_any (content : list byte) table tag shape :
  (tag, shape) ∈ magic_tags → take 8 content = tag →
  _detect_shape_type content table 0
  = Ok (shape, 8 + length (take 4 (drop 8 content))).
Proof.
  intros Htag Htake.
  unfold _detect_shape_type, bind, read, lift. rewrite drop_0, Htake.
  unfold magic_tags in Htag. rewrite !elem_of_cons in Htag.
  destruct Htag as [H|[H|[H|H]]]; [..|by apply elem_of_nil in H];
    injection H as -> ->; reflexivity.
Qed.

Lemma concat_blocks (t : list byte) n k :
  concat ((fun i => take n (drop (i * n) t)) <$> seq 0 k) = take (k * n) t.
Proof.
  induction k as [|k IH]; [by destruct t|].
  rewrite seq_S, fmap_app, concat_app, IH. simpl. rewrite app_nil_r.
  rewrite take_take_drop. f_equal. lia.
Qed.

Lemma read_headers_inv (content : list byte) headers pos' :
  _read_headers content 12 = Ok (headers, pos') →
  headers = blocks_of (header_table content).
Proof.
  unfold _read_headers, bind, read, lift, Struct.unpack_i, seek.
  destruct (decide _) as [Hlen|]; [|done].
  fold (table_offset content).
  destruct (Z.ltb_spec (table_offset content) 0) as [|Hoff]; [done|].
  destruct (read_blocks_spec content 10 10 (Z.to_nat (table_offset content)))
    as [pos'' ->].
  intros [= <- _]. unfold blocks_of, header_table. simpl.
  by rewrite !drop_drop, ?Nat.add_0_r.
Qed.

Lemma header_pair_full (table : list byte) k :
  k < 10 → 10 * (k + 1) ≤ length table →
  ∃ vol, header_pair (blocks_of table) k
         = Ok (Struct.signed 32 (Struct.le_unsigned (take 4 (drop (k * 10) table))), vol).
Proof.
  intros Hk Hlen. unfold header_pair, blocks_of.
  rewrite list_lookup_fmap, lookup_seq_lt by done. simpl.
  unfold Struct.unpack_2i.
  rewrite !length_take, !length_drop.
  replace (10 `min` (length table - k * 10) - 2) with 8 by lia.
  rewrite decide_True by lia.
  rewrite !take_take. simpl. by eexists.
Qed.

End OpenFacts.

(** X3: a file is taken for a layer only if its first eight bytes are one of
    the three magic tags, given that the codec's double-byte table maps to
    no ASCII character; the offset is then 12, or the end of a file that is
    shorter. *)
Theorem detect_accepts_only_tags
    (content : list byte) (table : byte -> byte -> option N)
    (shape : Reader.shape_type) (pos : nat) :
  (∀ c c2 u, table c c2 = Some u → (0x80 ≤ u)%N) →
  Reader._detect_shape_type content table 0 = Ok (shape, pos) →
  (take 8 content, shape) ∈ Reader.magic_tags
  ∧ pos = 8 + length (take 4 (drop 8 content)).
Proof. apply detect_inv. Qed.

Lemma detect_accepts_only_tags_witness :
  (take 8 Examples.short_table_file, Reader.POLYGON) ∈ Reader.magic_tags
  ∧ 12 = 8 + length (take 4 (drop 8 Examples.short_table_file)).
Proof.
  apply (detect_accepts_only_tags Examples.short_table_file Examples.no_pairs
           Reader.POLYGON 12).
  - intros c c2 u H. discriminate H.
  - reflexivity.
Defined.

(** X4: whenever [_read_headers] returns, it returns ten blocks of at most
    ten bytes each which, put together, are the first hundred bytes of the
    header table, or all of a shorter table. *)
Theorem read_headers_blocks
    (content : list byte) (headers : list (list byte)) (pos' : nat) :
  Reader._read_headers content 12 = Ok (headers, pos') →
  length headers = 10
  ∧ Forall (fun block => length block ≤ 10) headers
  ∧ concat headers = take 100 (Reader.header_table content).
Proof.
  intros ->%read_headers_inv. unfold Reader.blocks_of. split_and!.
  - by rewrite length_fmap, length_seq.
  - apply Forall_fmap, Forall_forall. intros i _. simpl. rewrite length_take. lia.
  - apply (concat_blocks (Reader.header_table content) 10 10).
Qed.

Lemma read_headers_blocks_witness :
  length (Reader.blocks_of (Reader.header_table Examples.short_table_file)) = 10
  ∧ Forall (fun block => length block ≤ 10)
      (Reader.blocks_of (Reader.header_table Examples.short_table_file))
  ∧ concat (Reader.blocks_of (Reader.header_table Examples.short_table_file))
    = take 100 (Reader.header_table Examples.short_table_file).
Proof.
  apply (read_headers_blocks Examples.short_table_file _ 66).
  reflexivity.
Defined.

(** X5: a file with a magic tag, a table offset that is not negative and a
    header table that holds the whole block of the layer's attribute table
    (block 2 of a point or line layer, block 9 of a polygon layer) gets as
    far as its attribute table: the rest of the decoding runs on the ten
    blocks with the offset stored in the first four bytes of that block, and
    its outcome is the outcome of opening the file. *)
Theorem open_reaches_attribute_table
    {table : Type} (content : list byte) (gbk_table : byte -> byte -> option N)
    (decode_rest : Reader.shape_type -> list (list byte) -> Z -> Reader.M table)
    (tag : list byte) (shape : Reader.shape_type) :
  (tag, shape) ∈ Reader.magic_tags →
  take 8 content = tag →
  16 ≤ length content →
  (0 ≤ Reader.table_offset content)%Z →
  10 * (Reader.attribute_header shape + 1) ≤ length (Reader.header_table content) →
  ∃ pos',
    Reader.__init__ content gbk_table decode_rest
    = match
        decode_rest shape (Reader.blocks_of (Reader.header_table content))
          (Struct.signed 32
             (Struct.le_unsigned
                (take 4 (drop (Reader.attribute_header shape * 10)
                           (Reader.header_table content)))))
          pos'
      with
      | Ok (t, _) => Ok t
      | Raise e => Raise e
      end.
Proof.
  intros Htag Htake Hlen Hoff Hfull.
  destruct (read_headers_spec content Hlen Hoff) as [pos' Hread].
  exists pos'.
  unfold Reader.__init__, Reader.bind at 1.
  rewrite (magic_tag_detected content gbk_table tag shape) by (done || lia).
  unfold Reader.bind at 1. rewrite Hread.
  unfold Reader._parse_feature_data, Reader.bind, Reader.lift.
  destruct (header_pair_full (Reader.header_table content)
              (Reader.attribute_header shape)) as [vol ->]; [|done..].
  destruct shape; simpl; lia.
Qed.

Lemma open_reaches_attribute_table_witness :
  ∃ pos',
    Reader.__init__ Examples.point_short_table_file Examples.no_pairs
      Examples.stop_at_attributes
    = match Examples.stop_at_attributes Reader.POINT
              (Reader.blocks_of (Reader.header_table Examples.point_short_table_file))
              64%Z pos'
      with
      | Ok (t, _) => Ok t
      | Raise e => Raise e
      end.
Proof.
  apply (open_reaches_attribute_table Examples.point_short_table_file
           Examples.no_pairs Examples.stop_at_attributes
           (list_byte_of_string "WMAP`D22") Reader.POINT).
  - apply list_elem_of_In. vm_compute. tauto.
  - reflexivity.
  - vm_compute. lia.
  - vm_compute. discriminate.
  - vm_compute. lia.
Defined.

(** X6: a file with a magic tag cannot be opened when the table offset is
    missing or negative: a file of fewer than 16 bytes fails with
    [struct.error], a negative offset with [OSError], in both cases before
    any header block is read. *)
Theorem open_without_table_offset
    {table : Type} (content : list byte) (gbk_table : byte -> byte -> option N)
    (decode_rest : Reader.shape_type -> list (list byte) -> Z -> Reader.M table)
    (tag : list byte) (shape : Reader.shape_type) :
  (tag, shape) ∈ Reader.magic_tags →
  take 8 content = tag →
  (length content < 16 →
   Reader.__init__ content gbk_table decode_rest = Raise struct_error)
  ∧ (16 ≤ length content → (Reader.table_offset content < 0)%Z →
     Reader.__init__ content gbk_table decode_rest = Raise OSError).
Proof.
  intros Htag Htake. split.
  - intros Hlen. unfold Reader.__init__, Reader.bind at 1.
    rewrite (magic_tag_detected_any content gbk_table tag shape) by done.
    unfold Reader.bind at 1.
    unfold Reader._read_headers, Reader.bind at 1, Reader.read at 1.
    unfold Reader.bind at 1, Reader.lift at 1, Struct.unpack_i.
    rewrite decide_False; [done|].
    rewrite !length_take, !length_drop. lia.
  - intros Hlen Hoff. unfold Reader.__init__, Reader.bind at 1.
    rewrite (magic_tag_detected content gbk_table tag shape) by (done || lia).
    unfold Reader.bind at 1.
    unfold Reader._read_headers, Reader.bind at 1, Reader.read at 1.
    unfold Reader.bind at 1, Reader.lift at 1, Struct.unpack_i.
    rewrite decide_True by (rewrite length_take, length_drop; lia).
    unfold Reader.bind at 1, Reader.seek.
    fold (Reader.table_offset content).
    destruct (Z.ltb_spec (Reader.table_offset content) 0) as [_|]; [done|lia].
Qed.

Lemma open_without_table_offset_witness :
  Reader.__init__ MoreExamples.truncated_file Examples.no_pairs
    Examples.stop_at_attributes = Raise struct_error
  ∧ Reader.__init__ MoreExamples.negative_offset_file Examples.no_pairs
      Examples.stop_at_attributes = Raise OSError.
Proof.
  split.
  - apply (open_without_table_offset MoreExamples.truncated_file Examples.no_pairs
             Examples.stop_at_attributes (list_byte_of_string "WMAP`D21") Reader.LINE).
    + apply list_elem_of_In. vm_compute. tauto.
    + reflexivity.
    + vm_compute. lia.
  - apply (open_without_table_offset MoreExamples.negative_offset_file Examples.no_pairs
             Examples.stop_at_attributes (list_byte_of_string "WMAP`D21") Reader.LINE).
    + apply list_elem_of_In. vm_compute. tauto.
    + reflexivity.
    + vm_compute. lia.
    + vm_compute. reflexivity.
Defined.

(** ** Coordinate reference system, continued *)

Section MoreCrsFacts.
Import Crs.

Lemma substring_0_0 s : substring 0 0 s = "".
Proof. by destruct s. Qed.

Lemma central_meridian_short cl :
  String.length (before_dot cl) ≤ 4 →
  ∃ msg, central_meridian cl = Raise (ValueError msg).
Proof.
  intros Hlen. unfold central_meridian, slice_from_end.
  replace (String.length (before_dot cl) - 4) with 0 by lia.
  rewrite Nat.sub_diag. simpl. rewrite substring_0_0. by eexists.
Qed.

Lemma by_projection_no_wkid_other epsg_known blk crs scale :
  proj_type blk ≠ 5%Z → proj_type blk ≠ 0%Z →
  proj_type blk ≠ 2%Z → proj_type blk ≠ 3%Z →
  by_projection epsg_known None blk crs scale = Ok (crs, scale).
Proof.
  intros H5 H0 H2 H3. unfold by_projection.
  destruct (Z.eqb_spec (proj_type blk) 5) as [|_]; [done|].
  destruct (Z.eqb_spec (proj_type blk) 0) as [|_]; [done|].
  destruct (Z.eqb_spec (proj_type blk) 2) as [|_]; [done|].
  destruct (Z.eqb_spec (proj_type blk) 3) as [|_]; [done|].
  reflexivity.
Qed.

End MoreCrsFacts.

(** X7: an ellipsoid code of 0 with no [wkid], or with a [wkid] whose text
    is 0, gives the empty CRS, whatever the projection type is, and leaves
    the scale as the caller gave it or as the file has it. *)
Theorem ellipsoid_zero_empty_crs
    (epsg_known : Crs.pyval -> bool) (wkid : option Crs.pyval)
    (scale_factor : option Crs.number) (blk : Crs.crs_block) :
  Crs.ellipsoid blk = 0%Z →
  (wkid = None ∨ ∃ code, wkid = Some code ∧ Crs.str code = "0") →
  Crs._parse_crs epsg_known wkid scale_factor blk
  = Ok (Some Crs.EmptyStr,
        match scale_factor with
        | Some s => s
        | None => Crs.Float (Crs.file_scale blk)
        end).
Proof.
  intros He Hw. unfold Crs._parse_crs. rewrite He.
  assert (match wkid with
          | Some code => String.eqb (Crs.str code) "0"
          | None => true
          end = true) as ->.
  { destruct Hw as [->|(code & -> & ->)]; reflexivity. }
  by destruct scale_factor.
Qed.

Lemma ellipsoid_zero_empty_crs_witness :
  Crs._parse_crs Examples.all_codes (Some (Crs.PyStr "0")) (Some (Crs.Int 500))
    MoreExamples.longlat_no_ellipsoid
  = Ok (Some Crs.EmptyStr, Crs.Int 500).
Proof.
  apply (ellipsoid_zero_empty_crs Examples.all_codes (Some (Crs.PyStr "0"))
           (Some (Crs.Int 500)) MoreExamples.longlat_no_ellipsoid).
  - reflexivity.
  - right. by eexists.
Defined.

(** X8: with an ellipsoid of the table, a scale that is not 0 and no
    [wkid], projection type 0 gives the longitude/latitude CRS of that
    ellipsoid and projection type 5 the transverse Mercator CRS of that
    ellipsoid about the central meridian read from the file; the scale stays
    as it is. *)
Theorem known_ellipsoid_derived_crs
    (epsg_known : Crs.pyval -> bool) (scale_factor : option Crs.number)
    (blk : Crs.crs_block) (ellps : string) :
  Crs.getitem (Crs.ellipsoid blk) = Ok ellps →
  Crs.is_zero (match scale_factor with
               | Some s => s
               | None => Crs.Float (Crs.file_scale blk)
               end) = false →
  (Crs.proj_type blk = 0%Z →
   Crs._parse_crs epsg_known None scale_factor blk
   = Ok (Some (Crs.CRS (Crs.LongLat ellps)),
         match scale_factor with
         | Some s => s
         | None => Crs.Float (Crs.file_scale blk)
         end))
  ∧ (Crs.proj_type blk = 5%Z →
     ∀ cl, Crs.central_meridian (Crs.meridian_text blk) = Ok cl →
     Crs._parse_crs epsg_known None scale_factor blk
     = Ok (Some (Crs.CRS (Crs.Tmerc cl ellps)),
           match scale_factor with
           | Some s => s
           | None => Crs.Float (Crs.file_scale blk)
           end)).
Proof.
  intros Hget Hz.
  assert (Crs.contains (Crs.ellipsoid blk) = true) as Hc.
  { unfold Crs.contains, Crs.getitem in *.
    destruct (Crs.dict_get _ _); [|done]. by apply bool_decide_eq_true_2. }
  split.
  - intros Hp. unfold Crs._parse_crs.
    destruct scale_factor as [s|]; rewrite Hc, Hz; simpl;
      unfold Crs.by_projection; rewrite Hp, Hget; reflexivity.
  - intros Hp cl Hcl. unfold Crs._parse_crs.
    destruct scale_factor as [s|]; rewrite Hc, Hz; simpl;
      unfold Crs.by_projection; rewrite Hp, Hcl, Hget; reflexivity.
Qed.

Lemma known_ellipsoid_derived_crs_witness :
  Crs._parse_crs Examples.all_codes None None MoreExamples.longlat_wgs84
  = Ok (Some (Crs.CRS (Crs.LongLat "+datum=WGS84")), Crs.Float 1%float)
  ∧ Crs._parse_crs Examples.all_codes None None Examples.tmerc_wgs84
    = Ok (Some (Crs.CRS (Crs.Tmerc 117%float "+datum=WGS84")), Crs.Float 1%float).
Proof.
  split.
  - apply (proj1 (known_ellipsoid_derived_crs Examples.all_codes None
                    MoreExamples.longlat_wgs84 "+datum=WGS84" eq_refl eq_refl)).
    reflexivity.
  - apply (proj2 (known_ellipsoid_derived_crs Examples.all_codes None
                    Examples.tmerc_wgs84 "+datum=WGS84" eq_refl eq_refl)).
    + reflexivity.
    + vm_compute. reflexivity.
Defined.

(** X9: an ellipsoid code that is neither 0 nor in the table ends the
    decoding with [KeyError] of that code when there is no [wkid], the
    caller's scale, if there is one, divides by 1000 (an integer beyond the
    doubles does not: that division comes first and raises), and the
    projection type is 0, or is 5 with a central meridian that reads as a
    number. *)
Theorem unknown_ellipsoid_raises_KeyError
    (epsg_known : Crs.pyval -> bool) (scale_factor : option Crs.number)
    (blk : Crs.crs_block) :
  Crs.ellipsoid blk ≠ 0%Z →
  Crs.contains (Crs.ellipsoid blk) = false →
  (∀ s, scale_factor = Some s → ∃ q, Crs.div1000 s = Ok q) →
  (Crs.proj_type blk = 0%Z
   ∨ (Crs.proj_type blk = 5%Z
      ∧ ∃ cl, Crs.central_meridian (Crs.meridian_text blk) = Ok cl)) →
  Crs._parse_crs epsg_known None scale_factor blk
  = Raise (KeyError (Crs.ellipsoid blk)).
Proof.
  intros Hne Hc Hdiv Hp.
  assert (Crs.getitem (Crs.ellipsoid blk) = Raise (KeyError (Crs.ellipsoid blk))) as Hget.
  { unfold Crs.contains, Crs.getitem in *.
    destruct (Crs.dict_get _ _) as [v|]; [|done].
    by rewrite bool_decide_eq_true_2 in Hc. }
  assert (∀ crs scale,
            Crs.by_projection epsg_known None blk crs scale
            = Raise (KeyError (Crs.ellipsoid blk))) as Hby.
  { intros crs scale. unfold Crs.by_projection.
    destruct Hp as [Hp|[Hp [cl Hcl]]]; rewrite Hp, ?Hcl, Hget; reflexivity. }
  unfold Crs._parse_crs.
  destruct scale_factor as [s|]; rewrite Hc; simpl negb; cbn [orb];
    (destruct (Z.eqb_spec (Crs.ellipsoid blk) 0) as [|_]; [done|]);
    cbn [andb Z.eqb Pos.eqb].
  - destruct (Hdiv s eq_refl) as [q ->]. cbn [mbind result_bind]. apply Hby.
  - cbn [mbind result_bind]. apply Hby.
Qed.

Lemma unknown_ellipsoid_raises_KeyError_witness :
  Crs._parse_crs Examples.all_codes None (Some (Crs.Int 200))
    MoreExamples.tmerc_unknown_ellipsoid
  = Raise (KeyError 3).
Proof.
  apply (unknown_ellipsoid_raises_KeyError Examples.all_codes (Some (Crs.Int 200))
           MoreExamples.tmerc_unknown_ellipsoid).
  - discriminate.
  - reflexivity.
  - intros s [= <-]. eexists. vm_compute. reflexivity.
  - right. split; [reflexivity|]. eexists. vm_compute. reflexivity.
Defined.

Section CrsErrorFacts.
Import Crs.

Lemma int_raises_ValueError s e :
  Attributes.int s = Raise e → ∃ msg, e = ValueError msg.
Proof.
  unfold Attributes.int, Attributes.invalid_literal. intros H.
  repeat case_match; simplify_eq; eauto.
Qed.

Lemma float_of_int_raises z e : float_of_int z = Raise e → e = OverflowError.
Proof.
  unfold float_of_int. destruct (SpecFloat.binary_normalize _ _ _ _ _); congruence.
Qed.

Lemma central_meridian_raises cl e :
  central_meridian cl = Raise e → e = OverflowError ∨ ∃ msg, e = ValueError msg.
Proof.
  unfold central_meridian. intros H.
  destruct (Attributes.int (slice_from_end _ _ 4)) as [d|e1] eqn:H1;
    [|simpl in H; simplify_eq; right; by eapply int_raises_ValueError].
  destruct (Attributes.int (slice_from_end _ 4 2)) as [m|e2] eqn:H2;
    [|simpl in H; simplify_eq; right; by eapply int_raises_ValueError].
  cbn [mbind result_bind] in H.
  destruct (float_of_int m) as [minutes|e4] eqn:H4;
    [|simpl in H; simplify_eq; left; by eapply float_of_int_raises].
  destruct (float_of_int d) as [degrees|e5] eqn:H5;
    [|simpl in H; simplify_eq; left; by eapply float_of_int_raises].
  cbn [mbind result_bind] in H.
  destruct (Attributes.int (slice_from_end _ 2 0)) as [s|e3] eqn:H3;
    [|simpl in H; simplify_eq; right; by eapply int_raises_ValueError].
  cbn [mbind result_bind] in H.
  destruct (float_of_int s) as [seconds|e6] eqn:H6;
    [|simpl in H; simplify_eq; left; by eapply float_of_int_raises].
  done.
Qed.

Lemma getitem_raises ellipsoid e :
  getitem ellipsoid = Raise e → e = KeyError ellipsoid.
Proof. unfold getitem. destruct (dict_get _ _); by intros [= <-]. Qed.

Lemma by_projection_KeyError epsg_known wkid blk crs scale k :
  by_projection epsg_known wkid blk crs scale = Raise (KeyError k) →
  k = ellipsoid blk ∧ wkid = None.
Proof.
  destruct wkid as [code|].
  { rewrite by_projection_with_wkid. by destruct (epsg_known code). }
  unfold by_projection. intros H. split; [|done].
  destruct ((proj_type blk =? 5)%Z && bool_decide (None = None)).
  { destruct (central_meridian _) as [cl|e] eqn:Hcl; simpl in H.
    - destruct (getitem _) as [v|e] eqn:Hg; simpl in H; [done|].
      apply getitem_raises in Hg. by simplify_eq.
    - apply central_meridian_raises in Hcl as [->|[msg ->]]; done. }
  destruct ((proj_type blk =? 0)%Z && bool_decide (None = None)).
  { destruct (getitem _) as [v|e] eqn:Hg; simpl in H; [done|].
    apply getitem_raises in Hg. by simplify_eq. }
  destruct (((proj_type blk =? 2)%Z || (proj_type blk =? 3)%Z) && bool_decide (None = None)).
  { destruct (div1000 scale) as [q|e] eqn:Hq; simpl in H;
      [|by apply div1000_only_OverflowError in Hq as ->].
    destruct (central_meridian _) as [cl|e] eqn:Hcl; simpl in H; [done|].
    apply central_meridian_raises in Hcl as [->|[msg ->]]; done. }
  done.
Qed.

End CrsErrorFacts.

(** X10: [_parse_crs] never raises [KeyError] of 0: with an ellipsoid code
    of 0 the table is not indexed, so a file is never refused for that
    code.  (The caller keeps a message for just that error.) *)
Theorem parse_crs_never_KeyError_zero
    (epsg_known : Crs.pyval -> bool) (wkid : option Crs.pyval)
    (scale_factor : option Crs.number) (blk : Crs.crs_block) :
  Crs._parse_crs epsg_known wkid scale_factor blk ≠ Raise (KeyError 0).
Proof.
  unfold Crs._parse_crs. intros H.
  destruct scale_factor as [s|];
    destruct (negb (Crs.contains (Crs.ellipsoid blk)) || Crs.is_zero _) eqn:Hfirst;
    try (apply by_projection_KeyError in H as [H0 ->];
         apply orb_false_iff in Hfirst as [Hc _];
         apply negb_false_iff in Hc; by rewrite <-H0 in Hc).
  all: assert (∀ (reset : result Crs.number) crs,
                 (scale ← reset; Crs.by_projection epsg_known wkid blk crs scale)
                 = Raise (KeyError 0) →
                 (∀ e, reset = Raise e → e = OverflowError) →
                 0%Z = Crs.ellipsoid blk ∧ wkid = None) as Hbind
         by (intros [q|e] crs Hb He; cbn [mbind result_bind] in Hb;
             [by apply by_projection_KeyError in Hb
             |by rewrite (He e eq_refl) in Hb]).
  all: destruct (Z.eqb_spec (Crs.ellipsoid blk) 0) as [He|He]; cbn [andb] in H;
    [destruct wkid as [code|]; [|done];
     destruct (String.eqb (Crs.str code) "0"); [done|]|];
    apply Hbind in H as [H0 ?]; try done;
    cbn [Z.eqb Pos.eqb]; intros e; try apply div1000_only_OverflowError; done.
Qed.

(** X11: a packed central meridian whose integer part has fewer than five
    digits cannot be read.  With no [wkid], an ellipsoid code other than 0,
    a caller's scale, if there is one, that divides by 1000 (an integer
    beyond the doubles does not: the division comes before the meridian is
    read, and raises) and a projection type of 2, 3 or 5, such a file ends
    the decoding with [ValueError]. *)
Theorem short_meridian_raises_ValueError
    (epsg_known : Crs.pyval -> bool) (scale_factor : option Crs.number)
    (blk : Crs.crs_block) :
  Crs.ellipsoid blk ≠ 0%Z →
  (∀ s, scale_factor = Some s → ∃ q, Crs.div1000 s = Ok q) →
  (Crs.proj_type blk = 2%Z ∨ Crs.proj_type blk = 3%Z ∨ Crs.proj_type blk = 5%Z) →
  String.length (Crs.before_dot (Crs.meridian_text blk)) ≤ 4 →
  ∃ msg, Crs._parse_crs epsg_known None scale_factor blk = Raise (ValueError msg).
Proof.
  intros Hne Hdiv Hp Hlen.
  destruct (central_meridian_short _ Hlen) as [msg Hcl]. exists msg.
  assert (∀ crs scale,
            (∃ q, Crs.div1000 scale = Ok q) →
            Crs.by_projection epsg_known None blk crs scale = Raise (ValueError msg)) as Hby.
  { intros crs scale [q Hq]. unfold Crs.by_projection.
    destruct Hp as [Hp|[Hp|Hp]]; rewrite Hp, ?Hq, Hcl; reflexivity. }
  unfold Crs._parse_crs.
  destruct scale_factor as [s|].
  - destruct (Hdiv s eq_refl) as [q Hq].
    destruct (negb (Crs.contains (Crs.ellipsoid blk)) || Crs.is_zero s).
    + destruct (Z.eqb_spec (Crs.ellipsoid blk) 0) as [|_]; [done|].
      cbn [andb Z.eqb Pos.eqb]. rewrite Hq. cbn [mbind result_bind].
      apply Hby. destruct (div1000_float s q Hq) as [f ->]. by eexists.
    + apply Hby. by exists q.
  - destruct (negb (Crs.contains (Crs.ellipsoid blk)) || Crs.is_zero _).
    + destruct (Z.eqb_spec (Crs.ellipsoid blk) 0) as [|_]; [done|].
      cbn [andb Z.eqb mbind result_bind]. apply Hby. by eexists.
    + apply Hby. by eexists.
Qed.

Lemma short_meridian_raises_ValueError_witness :
  ∃ msg, Crs._parse_crs Examples.all_codes None (Some (Crs.Int 200))
           MoreExamples.tmerc_meridian_zero
         = Raise (ValueError msg).
Proof.
  apply (short_meridian_raises_ValueError Examples.all_codes (Some (Crs.Int 200))
           MoreExamples.tmerc_meridian_zero).
  - discriminate.
  - intros s [= <-]. eexists. vm_compute. reflexivity.
  - right. right. reflexivity.
  - vm_compute. lia.
Defined.

(** X12: with an ellipsoid of the table, a scale that is not 0, no [wkid]
    and a projection type other than 0, 2, 3 and 5, [_parse_crs] returns
    without setting [self.crs], and building the table then fails with
    [AttributeError], whatever rows and geometries were decoded, given a
    frame constructor that accepts equal lengths and raises no [ValueError]
    but the "Length of values" one. *)
Theorem unhandled_projection_AttributeError
    {row geometry : Type} (epsg_known : Crs.pyval -> bool)
    (frame_error : nat -> nat -> option string)
    (scale_factor : option Crs.number) (blk : Crs.crs_block)
    (data : list row) (geom : list geometry) :
  Crs.contains (Crs.ellipsoid blk) = true →
  Crs.is_zero (match scale_factor with
               | Some s => s
               | None => Crs.Float (Crs.file_scale blk)
               end) = false →
  Crs.proj_type blk ≠ 0%Z → Crs.proj_type blk ≠ 2%Z →
  Crs.proj_type blk ≠ 3%Z → Crs.proj_type blk ≠ 5%Z →
  (∀ n, frame_error n n = None) →
  (∀ d g msg, frame_error d g = Some msg →
              Builder.substring_of "Length of values" msg = true) →
  ∃ scale,
    Crs._parse_crs epsg_known None scale_factor blk = Ok (None, scale)
    ∧ Builder._build_geodataframe frame_error None data geom = Raise AttributeError.
Proof.
  intros Hc Hz H0 H2 H3 H5 Hsame Hdiff.
  exists (match scale_factor with
          | Some s => s
          | None => Crs.Float (Crs.file_scale blk)
          end).
  split.
  - unfold Crs._parse_crs.
    destruct scale_factor as [s|]; rewrite Hc, Hz; cbn [negb orb];
      by rewrite by_projection_no_wkid_other.
  - unfold Builder._build_geodataframe.
    destruct (frame_error (length data) (length geom)) as [msg|] eqn:Hmsg.
    + pose proof (Hdiff _ _ _ Hmsg) as Hsub.
      unfold Builder.new_frame at 1. rewrite Hmsg. simpl. rewrite Hsub.
      unfold Builder.new_frame. rewrite !length_take.
      replace (Nat.min (Nat.min (length data) (length geom)) (length geom))
        with (Nat.min (Nat.min (length data) (length geom)) (length data)) by lia.
      by rewrite Hsame.
    + unfold Builder.new_frame. by rewrite Hmsg.
Qed.

Lemma unhandled_projection_AttributeError_witness :
  ∃ scale,
    Crs._parse_crs Examples.all_codes None None MoreExamples.other_projection_wgs84
    = Ok (None, scale)
    ∧ Builder._build_geodataframe Builder.pandas_lengths None (seq 0 3) (seq 0 3)
      = Raise AttributeError.
Proof.
  apply (unhandled_projection_AttributeError Examples.all_codes Builder.pandas_lengths
           None MoreExamples.other_projection_wgs84 (seq 0 3) (seq 0 3)).
  - reflexivity.
  - reflexivity.
  - discriminate.
  - discriminate.
  - discriminate.
  - discriminate.
  - intros n. unfold Builder.pandas_lengths.
    destruct (decide (n = 0 ∨ n = n)) as [|Hn]; [reflexivity|].
    destruct Hn. by right.
  - intros d g msg. unfold Builder.pandas_lengths.
    destruct (decide (d = 0 ∨ d = g)); [done|]. by intros [= <-].
Defined.

(** ** Polygons from rings, continued *)

Section MorePolygonFacts.
Import Polygons.
Context {ring : Type} (inside : ring -> ring -> bool).
Implicit Types (d : @level ring) (lines : list ring).

Lemma fold_left_invariant {A B} (P : A → Prop) (f : A → B → A) (l : list B) (a : A) :
  (∀ a b, P a → P (f a b)) → P a → P (fold_left f l a).
Proof. intros Hstep. revert a. induction l; simpl; auto. Qed.

Lemma dict_set_nonempty d k v :
  Forall (fun kv => kv.2 ≠ []) d → v ≠ [] →
  Forall (fun kv => kv.2 ≠ []) (dict_set d k v).
Proof.
  intros Hd Hv. induction Hd as [|[k' v'] d Hk Hd IH]; simpl.
  - by repeat constructor.
  - destruct (decide (k = k')); by constructor.
Qed.

Lemma dict_append_nonempty d k x :
  Forall (fun kv => kv.2 ≠ []) d →
  Forall (fun kv => kv.2 ≠ []) (dict_append d k x).
Proof.
  intros Hd. induction Hd as [|[k' v'] d Hk Hd IH]; simpl; [done|].
  destruct (decide (k = k')); constructor; try done. simpl. by destruct v'.
Qed.

Lemma dict_append_new_nonempty d k x :
  Forall (fun kv => kv.2 ≠ []) d →
  Forall (fun kv => kv.2 ≠ []) (dict_append (dict_set d k []) k x).
Proof.
  intros Hd. induction Hd as [|[k' v'] d Hk Hd IH]; simpl.
  - rewrite decide_True by done. by repeat constructor.
  - destruct (decide (k = k')) as [->|Hne]; simpl.
    + rewrite decide_True by done. by constructor.
    + rewrite decide_False by done. by constructor.
Qed.

Lemma level_0_nonempty lines :
  Forall (fun kv => kv.2 ≠ []) (level_0 inside lines).
Proof.
  unfold level_0, attach_holes, seed_outer.
  apply fold_left_invariant.
  - intros d [i [line row]] Hd.
    destruct (decide (row_sum row = 1)); [|done].
    destruct (first_one row) as [idx|]; [|done].
    destruct (dict_mem d idx).
    + by apply dict_append_nonempty.
    + by apply dict_append_new_nonempty.
  - apply fold_left_invariant; [|constructor].
    intros d [i [line row]] Hd.
    destruct (existsb id row); [done|]. by apply dict_set_nonempty.
Qed.

Lemma polygons_of_nonempty d :
  Forall (fun kv => kv.2 ≠ []) d → ∃ ps, polygons_of d = Ok ps.
Proof.
  induction 1 as [|[k [|outer inner]] d Hk _ [ps IH]]; simpl; [by eexists|done|].
  rewrite IH. by eexists.
Qed.

Lemma rec_only_RecursionError fuel lines e :
  get_multipolygons_rec inside fuel lines = Raise e → e = RecursionError.
Proof.
  revert lines. induction fuel as [|fuel IH]; intros lines; simpl.
  { by intros [= <-]. }
  destruct (polygons_of_nonempty _ (level_0_nonempty lines)) as [temp ->].
  destruct (negb _); [done|]. simpl.
  destruct (get_multipolygons_rec inside fuel _) as [more|e'] eqn:Hmore; [done|].
  simpl. intros [= <-]. by eapply IH.
Qed.

(** The rings with their rows, by index. *)
Lemma zip_relation lines :
  zip lines (relation inside lines)
  = imap (fun i line => (line, relation_row inside lines i line)) lines.
Proof.
  unfold relation. generalize (relation_row inside lines) as f.
  induction lines as [|line lines IH]; intros f; [done|].
  rewrite !imap_cons. simpl. f_equal. apply IH.
Qed.

Lemma row_without_container lines i line :
  (∀ j other, lines !! j = Some other → i ≠ j → inside line other = false) →
  existsb id (relation_row inside lines i line) = false
  ∧ row_sum (relation_row inside lines i line) = 0.
Proof.
  unfold relation_row. intros H.
  assert (∀ (f : nat → ring → bool) l,
            (∀ j other, l !! j = Some other → f j other = false) →
            existsb id (imap f l) = false ∧ row_sum (imap f l) = 0) as Haux.
  { intros f l. revert f. induction l as [|x l IH]; intros f Hf; [done|].
    rewrite imap_cons. simpl. rewrite (Hf 0 x eq_refl). simpl.
    apply IH. intros j other Hj. apply (Hf (S j)). done. }
  apply Haux. intros j other Hj.
  destruct (decide (i = j)); [done|]. by eapply H.
Qed.

(** Among finitely many distinct rings ordered by containment, one has no
    container. *)
Lemma outermost_exists lines :
  NoDup lines → lines ≠ [] →
  (∀ a b c, a ∈ lines → b ∈ lines → c ∈ lines →
            inside a b = true → inside b c = true → inside a c = true) →
  (∀ a b, a ∈ lines → b ∈ lines →
          inside a b = true → inside b a = true → a = b) →
  ∃ m, m ∈ lines ∧ ∀ y, y ∈ lines → y ≠ m → inside m y = false.
Proof.
  intros Hnd Hne Htrans Hanti.
  induction lines as [|x lines IH]; [done|].
  apply NoDup_cons in Hnd as [Hx Hnd].
  destruct lines as [|x' lines'] eqn:Hl.
  { exists x. split; [left|]. intros y ->%list_elem_of_singleton. done. }
  rewrite <-Hl in *.
  destruct IH as (m & Hm & Hmax); [done|by subst| | |].
  { intros a b c ???. apply Htrans; by right. }
  { intros a b ??. apply Hanti; by right. }
  destruct (inside m x) eqn:Hmx.
  - exists x. split; [left|]. intros y Hy Hyx.
    apply elem_of_cons in Hy as [->|Hy]; [done|].
    destruct (inside x y) eqn:Hxy; [|done].
    assert (y ≠ m) as Hym.
    { intros ->.
      assert (m = x) as -> by (apply Hanti; [by right|left|done..]). done. }
    rewrite <-(Hmax y Hy Hym). symmetry.
    apply (Htrans m x y); [by right|left|by right|done..].
  - exists m. split; [by right|]. intros y Hy Hym.
    apply elem_of_cons in Hy as [->|Hy]; [done|]. by apply Hmax.
Qed.

Lemma contained_sublist lines :
  contained_more_than_once inside lines `sublist_of` lines.
Proof.
  unfold contained_more_than_once.
  etrans; [apply fmap_sublist, sublist_filter|].
  rewrite fst_zip; [done|]. by rewrite relation_length.
Qed.

Lemma contained_fewer lines m :
  NoDup lines → m ∈ lines →
  (∀ y, y ∈ lines → y ≠ m → inside m y = false) →
  length (contained_more_than_once inside lines) < length lines.
Proof.
  intros Hnd Hm Hmax.
  apply list_elem_of_lookup in Hm as [i Hi].
  unfold contained_more_than_once. rewrite length_fmap, zip_relation.
  rewrite <-(length_imap (fun i line => (line, relation_row inside lines i line)) lines).
  eapply (length_filter_lt _ _ (m, relation_row inside lines i m)).
  - by apply (elem_of_lookup_imap_2
                (fun i line => (line, relation_row inside lines i line)) lines m i).
  - simpl. destruct (row_without_container lines i m) as [_ ->]; [|lia].
    intros j other Hj Hij. apply Hmax; [by eapply list_elem_of_lookup_2|].
    intros ->. apply Hij. by eapply NoDup_lookup.
Qed.

Lemma rec_returns fuel lines :
  length lines < fuel →
  NoDup lines →
  (∀ a b c, a ∈ lines → b ∈ lines → c ∈ lines →
            inside a b = true → inside b c = true → inside a c = true) →
  (∀ a b, a ∈ lines → b ∈ lines →
          inside a b = true → inside b a = true → a = b) →
  ∃ ps, get_multipolygons_rec inside fuel lines = Ok ps.
Proof.
  revert lines. induction fuel as [|fuel IH]; intros lines Hlen Hnd Htrans Hanti; [lia|].
  simpl.
  destruct (polygons_of_nonempty _ (level_0_nonempty lines)) as [temp ->].
  destruct (negb (some_row_sums_to_two inside lines)) eqn:Htwo; [by eexists|].
  simpl.
  assert (lines ≠ []) as Hne.
  { intros ->. done. }
  destruct (outermost_exists lines Hnd Hne Htrans Hanti) as (m & Hm & Hmax).
  pose proof (contained_fewer lines m Hnd Hm Hmax) as Hfewer.
  pose proof (contained_sublist lines) as Hsub.
  destruct (IH (contained_more_than_once inside lines)) as [more ->].
  - lia.
  - by eapply sublist_NoDup.
  - intros a b c Ha Hb Hc. apply Htrans; by eapply elem_of_sublist.
  - intros a b Ha Hb. apply Hanti; by eapply elem_of_sublist.
  - by eexists.
Qed.

End MorePolygonFacts.

(** X13: [i[0]] never raises [IndexError] in [get_multipolygons], at any
    depth of the recursion: every entry of [level_0] holds a ring when the
    polygons are made, also an entry that was opened empty for a ring with
    one container.  (What shapely raises for a ring it does not accept is not
    part of this.) *)
Theorem get_multipolygons_never_IndexError
    {ring : Type} (inside : ring -> ring -> bool) (lines : list ring) :
  Polygons.get_multipolygons inside lines ≠ Raise IndexError.
Proof.
  intros H. by apply rec_only_RecursionError in H.
Qed.

(** X14: on distinct rings among which containment is transitive and no two
    rings contain each other, [get_multipolygons] returns: each recursive
    call drops at least the rings that have no container. *)
Theorem get_multipolygons_returns_on_nested_rings
    {ring : Type} (inside : ring -> ring -> bool) (lines : list ring) :
  NoDup lines →
  (∀ a b c, a ∈ lines → b ∈ lines → c ∈ lines →
            inside a b = true → inside b c = true → inside a c = true) →
  (∀ a b, a ∈ lines → b ∈ lines →
          inside a b = true → inside b a = true → a = b) →
  ∃ ps, Polygons.get_multipolygons inside lines = Ok ps.
Proof. intros. apply rec_returns; [lia|done..]. Qed.

Lemma get_multipolygons_returns_on_nested_rings_witness :
  ∃ ps, Polygons.get_multipolygons Polygons.rectangle_within
          [Examples.island; Examples.outer; Examples.hole; Examples.apart] = Ok ps.
Proof.
  apply (get_multipolygons_returns_on_nested_rings Polygons.rectangle_within
           [Examples.island; Examples.outer; Examples.hole; Examples.apart]).
  - apply (bool_decide_unpack _). vm_compute. exact I.
  - intros a b c Ha Hb Hc.
    repeat (apply elem_of_cons in Ha as [->|Ha]); try (by apply elem_of_nil in Ha);
      repeat (apply elem_of_cons in Hb as [->|Hb]); try (by apply elem_of_nil in Hb);
      repeat (apply elem_of_cons in Hc as [->|Hc]); try (by apply elem_of_nil in Hc);
      vm_compute; intros; congruence.
  - intros a b Ha Hb.
    repeat (apply elem_of_cons in Ha as [->|Ha]); try (by apply elem_of_nil in Ha);
      repeat (apply elem_of_cons in Hb as [->|Hb]); try (by apply elem_of_nil in Hb);
      vm_compute; intros; congruence.
Defined.

Section DisjointRings.
Import Polygons.
Context {ring : Type} (inside : ring -> ring -> bool).
Implicit Types (d : @level ring) (lines : list ring).

Lemma dict_set_new d k v : dict_mem d k = false → dict_set d k v = d ++ [(k, v)].
Proof.
  induction d as [|[k' v'] d IH]; simpl; [done|].
  destruct (decide (k = k')); [done|]. intros H. by rewrite IH.
Qed.

Lemma dict_mem_app d d' k : dict_mem (d ++ d') k = dict_mem d k || dict_mem d' k.
Proof.
  induction d as [|[k' v'] d IH]; simpl; [done|]. by destruct (decide (k = k')).
Qed.

Lemma seed_fold (items : list (nat * (ring * list bool))) d :
  (∀ item, item ∈ items → existsb id item.2.2 = false) →
  NoDup (fst <$> items) →
  (∀ item, item ∈ items → dict_mem d item.1 = false) →
  fold_left
    (fun d '(i, (line, row)) => if existsb id row then d else dict_set d i [line])
    items d
  = d ++ ((fun item => (item.1, [item.2.1])) <$> items).
Proof.
  revert d. induction items as [|[i [line row]] items IH]; intros d Hrows Hnd Hfresh.
  { simpl. by rewrite app_nil_r. }
  rewrite fmap_cons in Hnd. apply NoDup_cons in Hnd as [Hi Hnd].
  cbn [fold_left].
  pose proof (Hrows (i, (line, row)) ltac:(left)) as Hrow. simpl in Hrow.
  pose proof (Hfresh (i, (line, row)) ltac:(left)) as Hnew. simpl in Hnew.
  rewrite Hrow, dict_set_new by done.
  rewrite IH.
  - rewrite fmap_cons. simpl. by rewrite <-app_assoc.
  - intros item Hitem. apply Hrows. by right.
  - done.
  - intros item Hitem. rewrite dict_mem_app.
    rewrite (Hfresh item); [|by right]. simpl.
    destruct (decide (item.1 = i)) as [Heq|]; [|done].
    destruct Hi. simpl. rewrite <-Heq. by apply list_elem_of_fmap_2.
Qed.

Lemma attach_fold (items : list (nat * (ring * list bool))) d :
  (∀ item, item ∈ items → row_sum item.2.2 ≠ 1) →
  fold_left
    (fun d '(i, (line, row)) =>
       if decide (row_sum row = 1) then
         match first_one row with
         | Some idx =>
             let d := if dict_mem d idx then d else dict_set d idx [] in
             dict_append d idx line
         | None => d
         end
       else d)
    items d
  = d.
Proof.
  revert d. induction items as [|[i [line row]] items IH]; intros d Hrows; [done|].
  cbn [fold_left].
  pose proof (Hrows (i, (line, row)) ltac:(left)) as Hrow. simpl in Hrow.
  rewrite decide_False by done.
  apply IH. intros item Hitem. apply Hrows. by right.
Qed.

Lemma polygons_of_singletons (items : list (nat * (ring * list bool))) :
  polygons_of ((fun item => (item.1, [item.2.1])) <$> items)
  = Ok ((fun item => MkPolygon item.2.1 []) <$> items).
Proof.
  induction items as [|item items IH]; [done|].
  rewrite !fmap_cons. cbn [polygons_of fst snd]. by rewrite IH.
Qed.

Lemma imap_imap_compose {A B C} (f : nat → B → C) (g : nat → A → B) (l : list A) :
  imap f (imap g l) = imap (fun i x => f i (g i x)) l.
Proof.
  revert f g. induction l as [|x l IH]; intros f g; [done|].
  rewrite !imap_cons. f_equal. apply IH.
Qed.

Lemma indexed_spec lines :
  indexed inside lines
  = imap (fun i line => (i, (line, relation_row inside lines i line))) lines.
Proof. unfold indexed. by rewrite zip_relation, imap_imap_compose. Qed.

Lemma disjoint_rings lines :
  (∀ i j a b, lines !! i = Some a → lines !! j = Some b → i ≠ j → inside a b = false) →
  get_multipolygons inside lines = Ok ((fun line => MkPolygon line []) <$> lines).
Proof.
  intros Hdisjoint.
  assert (∀ item, item ∈ indexed inside lines →
            existsb id item.2.2 = false ∧ row_sum item.2.2 = 0) as Hrows.
  { intros item. rewrite indexed_spec.
    intros (i & line & -> & Hi)%elem_of_lookup_imap. simpl.
    apply row_without_container. intros j other Hj Hij. by eapply Hdisjoint. }
  assert (some_row_sums_to_two inside lines = false) as Htwo.
  { unfold some_row_sums_to_two. apply not_true_iff_false.
    intros (row & Hin & Hsum)%existsb_exists.
    apply list_elem_of_In in Hin. unfold relation in Hin.
    apply elem_of_lookup_imap in Hin as (i & line & -> & Hi).
    apply bool_decide_eq_true_1 in Hsum.
    destruct (row_without_container inside lines i line) as [_ H0]; [|lia].
    intros j other Hj Hij. by eapply Hdisjoint. }
  unfold get_multipolygons. cbn [get_multipolygons_rec]. rewrite Htwo. simpl.
  unfold level_0, attach_holes, seed_outer.
  rewrite seed_fold.
  - rewrite attach_fold.
    + simpl. rewrite polygons_of_singletons. f_equal.
      rewrite indexed_spec, fmap_imap. simpl.
      apply (imap_const (fun line => MkPolygon line [])).
    + intros item Hitem. destruct (Hrows item Hitem) as [_ ->]. lia.
  - intros item Hitem. by destruct (Hrows item Hitem).
  - rewrite indexed_spec, fmap_imap.
    rewrite (imap_ext _ (fun j _ => id j)) by done.
    rewrite imap_seq_0, list_fmap_id. apply NoDup_seq.
  - done.
Qed.

End DisjointRings.

(** X15: rings none of which lies within another come out as one polygon
    without holes each, in the order of the rings. *)
Theorem disjoint_rings_one_polygon_each
    {ring : Type} (inside : ring -> ring -> bool) (lines : list ring) :
  (∀ i j a b, lines !! i = Some a → lines !! j = Some b → i ≠ j →
              inside a b = false) →
  Polygons.get_multipolygons inside lines
  = Ok ((fun line => Polygons.MkPolygon line []) <$> lines).
Proof. apply disjoint_rings. Qed.

Lemma disjoint_rings_one_polygon_each_witness :
  Polygons.get_multipolygons Polygons.rectangle_within
    [Examples.left_sheet; Examples.right_sheet; Examples.apart]
  = Ok [ Polygons.MkPolygon Examples.left_sheet [];
         Polygons.MkPolygon Examples.right_sheet [];
         Polygons.MkPolygon Examples.apart [] ].
Proof.
  apply (disjoint_rings_one_polygon_each Polygons.rectangle_within
           [Examples.left_sheet; Examples.right_sheet; Examples.apart]).
  intros [|[|[|i]]] [|[|[|j]]] a b Ha Hb Hij; simplify_eq/=; done.
Defined.

(** ** Values too wide for a shapefile field, continued *)

Section MoreSanitizerFacts.
Import Sanitizer FrameFacts.
Context {object : Type}.
Implicit Types (df : @frame object).

Lemma zeroed_float64_code values :
  zeroed (@Float64 object values)
  = Float64 (map (fun x => if float_too_large x then 0%float else x) values).
Proof. apply zeroed_float64. Qed.

Lemma zeroed_int64_code values :
  zeroed (@Int64 object values)
  = Int64 (map (fun v => if int_too_large v then 0%Z else v) values).
Proof.
  unfold zeroed. simpl.
  assert (map (fun v => PrimFloat.ltb 1e12 (Crs.float_of_Z (int64_abs v)) || false) values
          = map int_too_large values) as ->.
  { apply map_ext. intros v. by rewrite orb_false_r. }
  destruct (existsb _ _) eqn:Hany.
  - by rewrite set_where_map.
  - by rewrite existsb_false_map.
Qed.

Lemma map_zero_idem {A} (p : A → bool) (zero : A) (values : list A) :
  p zero = false →
  map (fun x => if p x then zero else x) (map (fun x => if p x then zero else x) values)
  = map (fun x => if p x then zero else x) values.
Proof.
  intros Hp. rewrite map_map. apply map_ext. intros x.
  destruct (p x) eqn:Hx; [by rewrite Hp|by rewrite Hx].
Qed.

Lemma zeroed_idem (col : @column object) : zeroed (zeroed col) = zeroed col.
Proof.
  destruct col as [values|values|values]; [| |done].
  - rewrite !zeroed_float64_code. f_equal. by apply map_zero_idem.
  - rewrite !zeroed_int64_code. f_equal. by apply map_zero_idem.
Qed.

Lemma zeroed_rows (col : @column object) : rows (zeroed col) = rows col.
Proof.
  destruct col as [values|values|values]; [| |done].
  - rewrite zeroed_float64_code. simpl. by rewrite length_map.
  - rewrite zeroed_int64_code. simpl. by rewrite length_map.
Qed.

Lemma names_zeroed df :
  fst <$> ((fun nc => (nc.1, zeroed nc.2)) <$> df) = fst <$> df.
Proof. rewrite <-list_fmap_compose. by apply list_fmap_ext. Qed.

End MoreSanitizerFacts.

(** X16: sanitizing is idempotent: on a frame whose column names are
    distinct, sanitizing the sanitized frame changes nothing. *)
Theorem sanitizer_idempotent {object : Type} (df : @Sanitizer.frame object) :
  NoDup (fst <$> df) →
  Sanitizer.fix_all_large_values (Sanitizer.fix_all_large_values df)
  = Sanitizer.fix_all_large_values df.
Proof.
  intros Hdf. rewrite (fix_all_large_values_zeroed df Hdf).
  rewrite fix_all_large_values_zeroed by (by rewrite names_zeroed).
  rewrite <-list_fmap_compose. apply list_fmap_ext. intros _ [n c] _. simpl.
  by rewrite zeroed_idem.
Qed.

Lemma sanitizer_idempotent_witness :
  Sanitizer.fix_all_large_values (Sanitizer.fix_all_large_values Examples.measurements)
  = Sanitizer.fix_all_large_values Examples.measurements.
Proof.
  apply (sanitizer_idempotent Examples.measurements).
  apply (bool_decide_unpack _). vm_compute. exact I.
Defined.

(** X17: the sanitizer neither adds, drops, renames nor reorders columns,
    keeps the number of entries of every column, and leaves every column
    that is not numeric as it is. *)
Theorem sanitizer_keeps_shape {object : Type} (df : @Sanitizer.frame object) :
  NoDup (fst <$> df) →
  fst <$> Sanitizer.fix_all_large_values df = fst <$> df
  ∧ (fun nc => FrameFacts.rows nc.2) <$> Sanitizer.fix_all_large_values df
    = (fun nc => FrameFacts.rows nc.2) <$> df
  ∧ ∀ name values,
      (name, Sanitizer.Object values) ∈ df →
      (name, Sanitizer.Object values) ∈ Sanitizer.fix_all_large_values df.
Proof.
  intros Hdf. rewrite (fix_all_large_values_zeroed df Hdf). split_and!.
  - apply names_zeroed.
  - rewrite <-list_fmap_compose. apply list_fmap_ext. intros _ [n c] _. simpl.
    apply zeroed_rows.
  - intros name values Hin.
    by apply (list_elem_of_fmap_2 (fun nc => (nc.1, Sanitizer.zeroed nc.2)) df
                (name, Sanitizer.Object values)).
Qed.

Lemma sanitizer_keeps_shape_witness :
  fst <$> Sanitizer.fix_all_large_values Examples.measurements
  = ["area"; "count"; "name"]
  ∧ (fun nc => FrameFacts.rows nc.2) <$> Sanitizer.fix_all_large_values Examples.measurements
    = [4; 3; 4]
  ∧ ∀ name values,
      (name, Sanitizer.Object values) ∈ Examples.measurements →
      (name, Sanitizer.Object values) ∈ Sanitizer.fix_all_large_values Examples.measurements.
Proof.
  apply (sanitizer_keeps_shape Examples.measurements).
  apply (bool_decide_unpack _). vm_compute. exact I.
Defined.

(** X18: after sanitizing, no float entry of a numeric column is a NaN or
    beyond [1e12] in absolute value, and no integer entry has an absolute
    value that, as a float, is beyond [1e12], but for the least [int64]:
    numpy's [abs] leaves that entry negative, and the sanitizer keeps
    it. *)
Theorem sanitizer_result_within_bound {object : Type} (df : @Sanitizer.frame object) :
  NoDup (fst <$> df) →
  (∀ name values x,
     (name, Sanitizer.Float64 values) ∈ Sanitizer.fix_all_large_values df →
     x ∈ values → FrameFacts.float_too_large x = false)
  ∧ (∀ name values v,
       (name, Sanitizer.Int64 values) ∈ Sanitizer.fix_all_large_values df →
       v ∈ values →
       v = (- 2 ^ 63)%Z ∨ FrameFacts.int_beyond_bound v = false)
  ∧ (∀ name values,
       (name, Sanitizer.Int64 values) ∈ df →
       (- 2 ^ 63)%Z ∈ values →
       ∃ values',
         (name, Sanitizer.Int64 values') ∈ Sanitizer.fix_all_large_values df
         ∧ (- 2 ^ 63)%Z ∈ values').
Proof.
  intros Hdf. rewrite (fix_all_large_values_zeroed df Hdf). split_and!.
  - intros name values x [[n c] [Heq Hin]]%list_elem_of_fmap Hx. simpl in Heq.
    destruct c as [vs|vs|vs].
    + rewrite zeroed_float64_code in Heq. injection Heq as _ ->.
      apply list_elem_of_In, in_map_iff in Hx as (y & <- & _).
      by destruct (FrameFacts.float_too_large y) eqn:Hy.
    + by rewrite zeroed_int64_code in Heq.
    + done.
  - intros name values v [[n c] [Heq Hin]]%list_elem_of_fmap Hv. simpl in Heq.
    destruct c as [vs|vs|vs].
    + by rewrite zeroed_float64_code in Heq.
    + rewrite zeroed_int64_code in Heq. injection Heq as _ ->.
      apply list_elem_of_In, in_map_iff in Hv as (y & <- & _).
      destruct (FrameFacts.int_too_large y) eqn:Hy; [by right|].
      destruct (decide (y = (- 2 ^ 63)%Z)) as [->|Hmin]; [by left|]. right.
      unfold FrameFacts.int_too_large, Sanitizer.int64_abs in Hy.
      destruct (Z.eqb_spec y (- 2 ^ 63)) as [|_]; [done|]. exact Hy.
    + done.
  - intros name values Hin Hv. eexists. split.
    + apply list_elem_of_fmap. exists (name, Sanitizer.Int64 values).
      split; [|done]. cbn [fst snd]. by rewrite zeroed_int64_code.
    + apply list_elem_of_In, in_map_iff. exists (- 2 ^ 63)%Z.
      split; [|by apply list_elem_of_In]. reflexivity.
Qed.

Lemma sanitizer_result_within_bound_witness :
  (∀ name values x,
     (name, Sanitizer.Float64 values) ∈ Sanitizer.fix_all_large_values Examples.measurements →
     x ∈ values → FrameFacts.float_too_large x = false)
  ∧ (∀ name values v,
       (name, Sanitizer.Int64 values) ∈ Sanitizer.fix_all_large_values Examples.measurements →
       v ∈ values →
       v = (- 2 ^ 63)%Z ∨ FrameFacts.int_beyond_bound v = false)
  ∧ (∀ name values,
       (name, Sanitizer.Int64 values) ∈ Examples.measurements →
       (- 2 ^ 63)%Z ∈ values →
       ∃ values',
         (name, Sanitizer.Int64 values')
           ∈ Sanitizer.fix_all_large_values Examples.measurements
         ∧ (- 2 ^ 63)%Z ∈ values').
Proof.
  apply (sanitizer_result_within_bound Examples.measurements).
  apply (bool_decide_unpack _). vm_compute. exact I.
Defined.

(** ** Chaining segments *)

Section ChainFacts.
Import Chain.
Context {point : Type} (allclose : point -> point -> bool).
Implicit Types (ring seg : list point) (m : list (list point)).

Lemma final_nonempty ring : ring ≠ [] → ∃ p, final ring = Ok p.
Proof.
  intros Hne. unfold final.
  destruct (last ring) as [p|] eqn:Hl; [by eexists|].
  apply last_None in Hl. done.
Qed.

Lemma first_nonempty ring : ring ≠ [] → ∃ p, first ring = Ok p.
Proof. destruct ring; [done|]. by eexists. Qed.

Lemma length_removelast (l : list point) : l ≠ [] → length (removelast l) = length l - 1.
Proof.
  intros Hne. destruct (exists_last Hne) as (l' & x & ->).
  rewrite removelast_last, length_app. simpl. lia.
Qed.

Lemma elem_of_rev (l : list point) p : p ∈ rev l ↔ p ∈ l.
Proof. rewrite !list_elem_of_In. symmetry. apply in_rev. Qed.

Lemma elem_of_concat (ls : list (list point)) p :
  p ∈ concat ls ↔ ∃ l, l ∈ ls ∧ p ∈ l.
Proof.
  rewrite list_elem_of_In, in_concat. by setoid_rewrite list_elem_of_In.
Qed.

Lemma removelast_subseteq (l : list point) : removelast l ⊆ l.
Proof.
  destruct l as [|x l]; [done|].
  destruct (@exists_last _ (x :: l)) as (l' & y & ->); [done|].
  rewrite removelast_last. intros p Hp. apply elem_of_app. by left.
Qed.

(** A join keeps the ring non-empty, loses one point of the segment and
    brings no point that is not of the ring or of the segment. *)
Lemma join_spec ring seg :
  ring ≠ [] → seg ≠ [] →
  ∃ joined, join allclose ring seg = Ok joined
    ∧ ∀ ring', joined = Some ring' →
        ring' ≠ []
        ∧ length ring' + 1 = length ring + length seg
        ∧ ring' ⊆ ring ++ seg.
Proof.
  intros Hr Hs. unfold join.
  destruct (final_nonempty ring Hr) as [re ->].
  destruct (first_nonempty seg Hs) as [ss ->].
  destruct (final_nonempty seg Hs) as [se ->].
  destruct (first_nonempty ring Hr) as [rs ->].
  simpl.
  assert (length (tail seg) = length seg - 1) as Htl by (destruct seg; simpl; lia).
  assert (0 < length seg) as Hpos by (destruct seg; [done|simpl; lia]).
  assert (tail seg ⊆ seg) as Htsub.
  { destruct seg as [|s0 seg']; [done|]. intros q Hq. by right. }
  destruct (allclose re ss).
  { eexists. split; [reflexivity|]. intros ring' [= <-]. split_and!.
    - by destruct ring.
    - rewrite length_app. lia.
    - intros p [?|?%Htsub]%elem_of_app; apply elem_of_app; auto. }
  simpl. destruct (allclose re se).
  { eexists. split; [reflexivity|]. intros ring' [= <-]. split_and!.
    - by destruct ring.
    - rewrite length_app, length_rev, length_removelast by done. lia.
    - intros p [?|?%elem_of_rev%removelast_subseteq]%elem_of_app;
        apply elem_of_app; auto. }
  simpl. destruct (allclose rs se).
  { eexists. split; [reflexivity|]. intros ring' [= <-]. split_and!.
    - destruct (removelast seg); by destruct ring.
    - rewrite length_app, length_removelast by done. lia.
    - intros p [?%removelast_subseteq|?]%elem_of_app; apply elem_of_app; auto. }
  destruct (allclose rs ss).
  { eexists. split; [reflexivity|]. intros ring' [= <-]. split_and!.
    - destruct (removelast (rev seg)); by destruct ring.
    - rewrite length_app, length_removelast, length_rev; [lia|].
      intros Hrev. apply (f_equal (@length point)) in Hrev.
      rewrite length_rev in Hrev. simpl in Hrev. lia.
    - intros p [Hp%removelast_subseteq|?]%elem_of_app;
        apply elem_of_app; [right|by left].
      by apply elem_of_rev. }
  eexists. split; [reflexivity|]. done.
Qed.

Lemma scan_spec ring m :
  ring ≠ [] → Forall (fun seg => seg ≠ []) m →
  ∃ found, scan allclose ring m = Ok found
    ∧ ∀ ring' m', found = Some (ring', m') →
        ring' ≠ []
        ∧ Forall (fun seg => seg ≠ []) m'
        ∧ S (length m') = length m
        ∧ length ring' + points m' + 1 = length ring + points m
        ∧ ring' ++ concat m' ⊆ ring ++ concat m.
Proof.
  intros Hr Hm. induction Hm as [|seg m Hs Hm IH]; simpl.
  { eexists. split; [done|]. done. }
  destruct (join_spec ring seg Hr Hs) as (joined & -> & Hj). simpl.
  destruct joined as [ring'|].
  - eexists. split; [done|]. intros ? ? [= <- <-].
    destruct (Hj ring' eq_refl) as (Hne & Hlen & Hsub).
    split_and!; [done..| |].
    + unfold points in *. simpl. rewrite length_app. lia.
    + intros p [Hp%Hsub|Hp]%elem_of_app; simpl;
        rewrite ?elem_of_app in *; tauto.
  - destruct IH as (found & -> & Hf). simpl.
    eexists. split; [done|]. intros ring' m'.
    destruct found as [[r1 m1]|]; [|done]. intros [= <- <-].
    destruct (Hf r1 m1 eq_refl) as (Hne & Hm1 & Hlen & Hpts & Hsub).
    split_and!; [done|by constructor|simpl; lia| |].
    + unfold points in *. simpl. rewrite !length_app. lia.
    + intros p. simpl. rewrite !elem_of_app.
      intros [Hp|[Hp|Hp]]; [| tauto |].
      * assert (p ∈ ring ++ concat m) as Hin by (apply Hsub, elem_of_app; auto).
        apply elem_of_app in Hin. tauto.
      * assert (p ∈ ring ++ concat m) as Hin by (apply Hsub, elem_of_app; auto).
        apply elem_of_app in Hin. tauto.
Qed.

Lemma grow_spec rounds ring m :
  length m < rounds → ring ≠ [] → Forall (fun seg => seg ≠ []) m →
  ∃ ring' m', grow allclose rounds ring m = Ok (ring', m')
    ∧ ring' ≠ []
    ∧ Forall (fun seg => seg ≠ []) m'
    ∧ length m' ≤ length m
    ∧ length ring' + points m' + length m = length ring + points m + length m'
    ∧ ring' ++ concat m' ⊆ ring ++ concat m.
Proof.
  revert ring m. induction rounds as [|rounds IH]; intros ring m Hlen Hr Hm; [lia|].
  destruct m as [|seg m0] eqn:Hm0.
  { simpl. eexists _, _. split_and!; try done. }
  rewrite <-Hm0 in *.
  assert (grow allclose (S rounds) ring m =
          found ← scan allclose ring m;
          match found with
          | Some (ring', m') => grow allclose rounds ring' m'
          | None => Ok (ring, m)
          end) as -> by (by rewrite Hm0).
  destruct (scan_spec ring m Hr Hm) as (found & -> & Hf). simpl.
  destruct found as [[r1 m1]|].
  - destruct (Hf r1 m1 eq_refl) as (Hne & Hm1 & Hl1 & Hpts & Hsub).
    destruct (IH r1 m1) as (ring' & m' & -> & Hne' & Hm' & Hl' & Hpts' & Hsub');
      [lia|done..|].
    eexists _, _. split_and!; [done|done|done|lia|lia|by etrans].
  - eexists _, _. split_and!; try done.
Qed.

Lemma chain_spec rounds m :
  length m ≤ rounds → Forall (fun seg => seg ≠ []) m →
  ∃ lines, chain allclose rounds m = Ok lines
    ∧ length lines ≤ length m
    ∧ (m ≠ [] → lines ≠ [])
    ∧ points lines + length m = points m + length lines
    ∧ concat lines ⊆ concat m.
Proof.
  revert m. induction rounds as [|rounds IH]; intros m Hlen Hm.
  { destruct m; [|simpl in Hlen; lia]. simpl. eexists. split_and!; done. }
  destruct m as [|ring rest]; [simpl; eexists; split_and!; done|].
  apply Forall_cons in Hm as [Hr Hrest].
  cbn [chain].
  destruct (grow_spec (S (length rest)) ring rest) as
    (ring' & m' & -> & Hne' & Hm' & Hl' & Hpts' & Hsub'); [lia|done..|].
  simpl in Hlen. cbn [mbind result_bind fst snd].
  destruct (IH m') as (lines & -> & Hll & _ & Hpts & Hsub); [lia|done|].
  eexists. split_and!; [done|simpl; lia|done| |].
  - unfold points in *. simpl. rewrite !length_app in *. lia.
  - simpl. intros p [Hp|Hp%Hsub]%elem_of_app.
    + assert (p ∈ ring ++ concat rest) as Hin by (apply Hsub', elem_of_app; auto).
      done.
    + assert (p ∈ ring ++ concat rest) as Hin by (apply Hsub', elem_of_app; auto).
      done.
Qed.

End ChainFacts.

(** X19: segments that all have a point are always chained into rings: the
    chaining returns, with at least one ring for at least one segment and
    at most as many rings as segments, and each segment that is joined to a
    ring loses exactly the one point it shares: the rings have as many
    points as the segments, less one for every segment that did not start a
    ring. *)
Theorem chain_counts_points
    {point : Type} (allclose : point -> point -> bool) (m : list (list point)) :
  Forall (fun seg => seg ≠ []) m →
  ∃ lines, Chain.chain allclose (length m) m = Ok lines
    ∧ length lines ≤ length m
    ∧ (m ≠ [] → lines ≠ [])
    ∧ Chain.points lines + length m = Chain.points m + length lines.
Proof.
  intros Hm. destruct (chain_spec allclose (length m) m) as (lines & ? & ? & ? & ? & _);
    [done..|]. by exists lines.
Qed.

Lemma chain_counts_points_witness :
  ∃ lines,
    Chain.chain ChainExamples.same_point
      (length ChainExamples.sides) ChainExamples.sides = Ok lines
    ∧ length lines ≤ length ChainExamples.sides
    ∧ (ChainExamples.sides ≠ [] → lines ≠ [])
    ∧ Chain.points lines + length ChainExamples.sides
      = Chain.points ChainExamples.sides + length lines.
Proof.
  apply (chain_counts_points ChainExamples.same_point ChainExamples.sides).
  repeat constructor; discriminate.
Defined.

(** X20: the chaining invents no point: every point of every ring it
    returns is a point of one of the segments. *)
Theorem rings_points_from_segments
    {point : Type} (allclose : point -> point -> bool)
    (m rings : list (list point)) (ring : list point) (p : point) :
  Forall (fun seg => seg ≠ []) m →
  Chain.rings allclose m = Ok rings →
  ring ∈ rings → p ∈ ring →
  2 < length ring ∧ ∃ seg, seg ∈ m ∧ p ∈ seg.
Proof.
  intros Hm. unfold Chain.rings.
  destruct (chain_spec allclose (length m) m) as (lines & -> & _ & _ & _ & Hsub);
    [done..|].
  simpl. intros [= <-] [Hlen Hring]%list_elem_of_filter Hp. split; [done|].
  assert (p ∈ concat m) as Hin.
  { apply Hsub, elem_of_concat. by exists ring. }
  apply elem_of_concat in Hin as (seg & ? & ?). by exists seg.
Qed.

Lemma rings_points_from_segments_witness :
  2 < length ChainExamples.square
  ∧ ∃ seg, seg ∈ ChainExamples.sides ∧ (1, 1)%Z ∈ seg.
Proof.
  apply (rings_points_from_segments ChainExamples.same_point
           ChainExamples.sides [ChainExamples.square] ChainExamples.square
           (1, 1)%Z).
  - repeat constructor; discriminate.
  - reflexivity.
  - apply list_elem_of_here.
  - apply list_elem_of_further, list_elem_of_further, list_elem_of_here.
Defined.

(** ** Record layout *)

Section LayoutFacts.
Import Layout LayoutAux.

Lemma for_range_ok {A : Type} (body : nat -> result A) (g : nat -> A) start count :
  (∀ i, start ≤ i < start + count → body i = Ok (g i)) →
  for_range body start count = Ok (g <$> seq start count).
Proof.
  revert start. induction count as [|count IH]; intros start Hbody; [done|].
  simpl. rewrite Hbody by lia. simpl. rewrite IH; [done|].
  intros i Hi. apply Hbody. lia.
Qed.

Lemma adjacent_seq {A B : Type} (h : A -> option A -> B) (d : A) (l : list A) :
  (fun j => h (default d (l !! j)) (l !! S j)) <$> seq 0 (length l)
  = adjacent h l.
Proof.
  induction l as [|a l IH]; [done|].
  cbn [length seq adjacent]. rewrite fmap_cons. f_equal.
  - simpl. by rewrite head_lookup.
  - rewrite <-fmap_S_seq, <-list_fmap_compose, <-IH.
    by apply list_fmap_ext.
Qed.

Lemma length_adjacent {A B : Type} (h : A -> option A -> B) (l : list A) :
  length (adjacent h l) = length l.
Proof. induction l; simpl; congruence. Qed.

Lemma field_values_adjacent row offsets :
  field_values row offsets = Ok (adjacent (slice row) offsets).
Proof.
  unfold field_values. rewrite <-(adjacent_seq _ 0%Z).
  apply for_range_ok. intros j [_ Hj]. simpl in Hj.
  unfold field_value, item.
  destruct (lookup_lt_is_Some_2 offsets j Hj) as [o Ho]. rewrite Ho. simpl.
  destruct (decide (j < length offsets - 1)) as [Hlt|Hge].
  - replace (j + 1) with (S j) by lia.
    destruct (lookup_lt_is_Some_2 offsets (S j)) as [e He]; [lia|].
    by rewrite He.
  - rewrite (lookup_ge_None_2 offsets (S j)) by lia. done.
Qed.

Lemma field_actual_lengths_adjacent offsets record_length :
  field_actual_lengths offsets record_length
  = Ok (adjacent (fun o next => (default record_length next - o)%Z) offsets).
Proof.
  unfold field_actual_lengths. rewrite <-(adjacent_seq _ 0%Z).
  apply for_range_ok. intros j [_ Hj]. simpl in Hj.
  unfold item. replace (j + 1) with (S j) by lia.
  destruct (lookup_lt_is_Some_2 offsets j Hj) as [o Ho].
  rewrite (lookup_app_l _ _ j), Ho by done.
  destruct (decide (S j < length offsets)) as [Hlt|Hge].
  - destruct (lookup_lt_is_Some_2 offsets (S j) Hlt) as [e He].
    by rewrite (lookup_app_l _ _ (S j)), He by done.
  - rewrite (lookup_ge_None_2 offsets (S j)) by lia.
    rewrite lookup_app_r by lia.
    replace (S j - length offsets) with 0 by lia. done.
Qed.

Lemma take_drop_tile {A : Type} (l : list A) a b :
  a ≤ b →
  take (Nat.min b (length l) - Nat.min a (length l))
       (drop (Nat.min a (length l)) l) ++ drop b l
  = drop a l.
Proof.
  intros Hab. destruct (decide (a ≤ length l)) as [Ha|Ha].
  - rewrite (Nat.min_l a) by done.
    destruct (decide (b ≤ length l)) as [Hb|Hb].
    + rewrite (Nat.min_l b) by done.
      replace (drop b l) with (drop (b - a) (drop a l))
        by (rewrite drop_drop; f_equal; lia).
      apply take_drop.
    + rewrite (Nat.min_r b) by lia.
      rewrite (drop_ge l b) by lia. rewrite app_nil_r.
      apply take_ge. rewrite length_drop. lia.
  - rewrite (drop_ge l a), (drop_ge l b) by lia.
    rewrite (drop_ge l (Nat.min a (length l))) by lia.
    by rewrite take_nil.
Qed.

Lemma slice_bound_nonneg len (o : Z) :
  (0 ≤ o)%Z → slice_bound len o = Nat.min (Z.to_nat o) len.
Proof.
  intros Ho. unfold slice_bound.
  destruct (Z.ltb_spec o 0) as [?|?]; [lia|done].
Qed.

Lemma pieces_tile (row : list byte) o rest :
  Forall (fun x => (0 ≤ x)%Z) (o :: rest) → Sorted Z.le (o :: rest) →
  concat (adjacent (slice row) (o :: rest)) = drop (Z.to_nat o) row.
Proof.
  revert o. induction rest as [|o' rest IH]; intros o Hpos Hsorted.
  - apply Forall_cons in Hpos as [Ho _].
    simpl. rewrite app_nil_r. unfold slice.
    rewrite slice_bound_nonneg by done.
    destruct (decide (Z.to_nat o ≤ length row)).
    + rewrite Nat.min_l by done. apply take_ge. rewrite length_drop. lia.
    + rewrite Nat.min_r by lia. rewrite !drop_ge by lia. by rewrite take_nil.
  - apply Forall_cons in Hpos as [Ho Hpos].
    pose proof Hpos as [Ho' _]%Forall_cons.
    apply Sorted_inv in Hsorted as [Hsorted Hhd].
    apply HdRel_inv in Hhd.
    change (adjacent (slice row) (o :: o' :: rest))
      with (slice row o (Some o') :: adjacent (slice row) (o' :: rest)).
    cbn [concat]. rewrite IH by done.
    unfold slice. rewrite !slice_bound_nonneg by done.
    apply take_drop_tile. lia.
Qed.

Lemma pieces_lengths (row : list byte) record_length offsets :
  Z.of_nat (length row) = record_length →
  Forall (fun x => (0 ≤ x ≤ record_length)%Z) offsets → Sorted Z.le offsets →
  (fun v => Z.of_nat (length v)) <$> adjacent (slice row) offsets
  = adjacent (fun o next => (default record_length next - o)%Z) offsets.
Proof.
  intros Hrow Hbound Hsorted.
  induction offsets as [|o rest IH]; [done|].
  apply Forall_cons in Hbound as [Ho Hbound].
  apply Sorted_inv in Hsorted as [Hsorted Hhd].
  cbn [adjacent]. rewrite fmap_cons, IH by done. f_equal.
  unfold slice. rewrite length_take, length_drop.
  rewrite slice_bound_nonneg by lia.
  destruct rest as [|o' rest']; simpl.
  - lia.
  - apply Forall_cons in Hbound as [Ho' _]. apply HdRel_inv in Hhd.
    rewrite slice_bound_nonneg by lia. lia.
Qed.

End LayoutFacts.

(** X21: when the offsets of the fields are not negative and ascend, the
    field values cut from a row are one per field and lie end to end in the
    row: together they are the row from the first offset on, no byte of it
    left out and none taken twice. *)
Theorem field_values_tile_row (row : list byte) (o : Z) (rest : list Z) :
  Forall (fun x => (0 ≤ x)%Z) (o :: rest) → Sorted Z.le (o :: rest) →
  ∃ values, Layout.field_values row (o :: rest) = Ok values
    ∧ length values = S (length rest)
    ∧ concat values = drop (Z.to_nat o) row.
Proof.
  intros Hpos Hsorted. eexists. split; [apply field_values_adjacent|]. split.
  - by rewrite length_adjacent.
  - by apply pieces_tile.
Qed.

Lemma field_values_tile_row_witness :
  ∃ values,
    Layout.field_values LayoutExamples.row LayoutExamples.offsets = Ok values
    ∧ length values = 3
    ∧ concat values = drop 0 LayoutExamples.row.
Proof.
  apply (field_values_tile_row LayoutExamples.row 0%Z [4; 6]%Z).
  - repeat constructor; lia.
  - repeat constructor; lia.
Defined.

(** X22: for a row as long as the record, with field offsets that ascend
    within it, the length computed for each field of [self.fields] is the
    number of bytes that are cut from the row for that field. *)
Theorem field_lengths_match_values
    (row : list byte) (record_length : Z) (offsets : list Z) :
  Z.of_nat (length row) = record_length →
  Forall (fun x => (0 ≤ x ≤ record_length)%Z) offsets → Sorted Z.le offsets →
  ∃ values, Layout.field_values row offsets = Ok values
    ∧ Layout.field_actual_lengths offsets record_length
      = Ok ((fun v => Z.of_nat (length v)) <$> values).
Proof.
  intros Hrow Hbound Hsorted. eexists. split; [apply field_values_adjacent|].
  rewrite field_actual_lengths_adjacent. f_equal. symmetry.
  by apply pieces_lengths.
Qed.

Lemma field_lengths_match_values_witness :
  ∃ values,
    Layout.field_values LayoutExamples.row LayoutExamples.offsets = Ok values
    ∧ Layout.field_actual_lengths LayoutExamples.offsets 8
      = Ok ((fun v => Z.of_nat (length v)) <$> values).
Proof.
  apply (field_lengths_match_values LayoutExamples.row 8%Z LayoutExamples.offsets).
  - reflexivity.
  - repeat constructor; lia.
  - repeat constructor; lia.
Defined.

(** ** Field names for a shapefile *)

Section FieldNameFacts.
Import FieldNames TextFacts.

Lemma text_of_string_inj s1 s2 :
  text_of_string s1 = text_of_string s2 → s1 = s2.
Proof.
  revert s2. induction s1 as [|a s1 IH]; intros [|b s2]; try done.
  unfold text_of_string. simpl. intros [= Hab Hrest].
  f_equal; [|by apply IH].
  by rewrite <-(ascii_N_embedding a), <-(ascii_N_embedding b), Hab.
Qed.

Lemma digits_without_underscore s :
  all_chars Attributes.is_digit s = true → underscore ∉ text_of_string s.
Proof.
  induction s as [|c s IH]; simpl.
  - intros _ Hin. by apply elem_of_nil in Hin.
  - intros [Hc Hs]%andb_true_iff. unfold text_of_string. simpl.
    intros [Heq|Hin]%elem_of_cons; [|by apply IH].
    unfold Attributes.is_digit in Hc. rewrite <-Heq in Hc. done.
Qed.

Lemma pretty_without_underscore (idx : nat) :
  underscore ∉ text_of_string (pretty idx).
Proof.
  apply digits_without_underscore.
  by destruct (pretty_N_digits (N.of_nat idx)) as (_ & Hdig & _).
Qed.

(** The text after the last underscore is the same in equal texts. *)
Lemma after_underscore_eq (p1 p2 d1 d2 : text) :
  p1 ++ underscore :: d1 = p2 ++ underscore :: d2 →
  underscore ∉ d1 → underscore ∉ d2 → d1 = d2.
Proof.
  revert p2. induction p1 as [|x p1 IH]; intros [|y p2] Heq H1 H2; simpl in Heq.
  - by injection Heq.
  - injection Heq as _ ->. destruct H1. apply elem_of_app. right. by left.
  - injection Heq as _ <-. destruct H2. apply elem_of_app. right. by left.
  - injection Heq as _ Heq. by apply (IH p2).
Qed.

Lemma suffix_eq (p1 p2 : text) (i j : nat) :
  p1 ++ suffix i = p2 ++ suffix j → i = j.
Proof.
  intros Heq. apply after_underscore_eq in Heq;
    [|apply pretty_without_underscore..].
  by apply text_of_string_inj, (inj pretty) in Heq.
Qed.

#[local] Instance suffixed_name_inj (eng_col : text) :
  Inj (=) (=) (fun idx => eng_col ++ suffix idx).
Proof. intros i j Heq. by apply suffix_eq in Heq. Qed.

#[local] Instance numbered_inj (orig : text) : Inj (=) (=) (numbered orig).
Proof. intros i j Heq. unfold numbered in Heq. by apply suffix_eq in Heq. Qed.

Lemma while_in_used_spec fuel candidate idx used :
  (∃ name, while_in_used fuel candidate idx used = Ok name ∧ name ∉ used)
  ∨ (while_in_used fuel candidate idx used = Raise RecursionError
     ∧ ∀ k, idx ≤ k < idx + fuel → candidate k ∈ used).
Proof.
  revert idx. induction fuel as [|fuel IH]; intros idx; simpl.
  { right. split; [done|]. intros k Hk. lia. }
  destruct (decide (candidate idx ∈ used)) as [Hin|Hnin].
  - destruct (IH (S idx)) as [Hok|[Hraise Hall]]; [by left|].
    right. split; [done|]. intros k Hk.
    destruct (decide (k = idx)) as [->|]; [done|]. apply Hall. lia.
  - left. by exists (candidate idx).
Qed.

(** The loops end: [used] cannot hold one more candidate than it has
    elements. *)
Lemma while_in_used_total (candidate : nat -> text) (idx : nat) (used : gset text) :
  Inj (=) (=) candidate →
  ∃ name, while_in_used (S (size used)) candidate idx used = Ok name
          ∧ name ∉ used.
Proof.
  intros Hinj.
  destruct (while_in_used_spec (S (size used)) candidate idx used)
    as [Hok|[_ Hall]]; [done|].
  exfalso.
  set (cands := candidate <$> seq idx (S (size used))).
  assert (list_to_set cands ⊆ used) as Hsub.
  { intros x [k [-> Hk%elem_of_seq]]%elem_of_list_to_set%list_elem_of_fmap.
    apply Hall. lia. }
  apply subseteq_size in Hsub.
  rewrite size_list_to_set in Hsub.
  - unfold cands in Hsub. rewrite length_fmap, length_seq in Hsub. lia.
  - apply NoDup_fmap_2; [done|apply NoDup_seq].
Qed.

Lemma initials_ok (syllables : list (list text)) :
  Forall (fun i => i ≠ []) syllables → ∃ s, initials syllables = Ok s.
Proof.
  induction 1 as [|i rest Hi _ [s IH]]; simpl; [by eexists|].
  destruct i as [|first i']; [done|]. simpl. rewrite IH. simpl. by eexists.
Qed.

Section Rounds.
Variable pypinyin : option (text -> list (list text)).
Variable isalnum : N -> bool.
Hypothesis readings :
  ∀ pinyin col, pypinyin = Some pinyin → Forall (fun i => i ≠ []) (pinyin col).

Lemma sanitize_for_col_spec table st col :
  ∃ name,
    FieldNames.for_col pypinyin isalnum table st col
    = Ok ({[ name ]} ∪ st.1, st.2 ++ [name])
    ∧ name ∉ st.1.
Proof.
  destruct st as [used new_columns]. unfold FieldNames.for_col.
  cbn [fst snd].
  destruct (dict_get table col) as [eng_col|].
  - destruct (decide (eng_col ∈ used)) as [Hin|Hnin].
    + destruct (while_in_used_total (fun idx => eng_col ++ suffix idx) 1 used)
        as (name & -> & Hnew); [apply _|].
      by exists name.
    + by exists eng_col.
  - assert (∃ source,
              match pypinyin with
              | Some pinyin => initials (pinyin col)
              | None => Ok col
              end = Ok source) as [source ->].
    { destruct pypinyin as [pinyin|] eqn:Hp; [|by eexists].
      apply initials_ok. by apply readings. }
    cbn [mbind result_bind].
    destruct (decide (short_name isalnum source ∈ used)) as [Hin|Hnin].
    + destruct (while_in_used_total (numbered (short_name isalnum source)) 1 used)
        as (name & -> & Hnew); [apply _|].
      by exists name.
    + by eexists.
Qed.

Lemma names_inv_step st name :
  names_inv st → name ∉ st.1 →
  names_inv ({[ name ]} ∪ st.1, st.2 ++ [name]).
Proof.
  destruct st as [used new_columns]. intros [Hused Hnd] Hnew. split; simpl in *.
  - intros x. rewrite elem_of_union, elem_of_singleton, elem_of_app,
      list_elem_of_singleton, Hused. tauto.
  - apply NoDup_app. split_and!; [done| |apply NoDup_singleton].
    intros x Hx ->%list_elem_of_singleton. by apply Hnew, Hused.
Qed.

Lemma sanitize_for_columns_spec table columns st :
  names_inv st →
  ∃ st', FieldNames.for_columns pypinyin isalnum table columns st = Ok st'
         ∧ names_inv st'
         ∧ length (st'.2) = length (st.2) + length columns.
Proof.
  revert st. induction columns as [|col columns IH]; intros st Hinv; simpl.
  - exists st. split_and!; [done..|lia].
  - destruct (sanitize_for_col_spec table st col) as (name & -> & Hnew). simpl.
    destruct (IH _ (names_inv_step _ _ Hinv Hnew)) as (st' & -> & Hinv' & Hlen).
    exists st'. split_and!; [done..|].
    rewrite Hlen. simpl. rewrite length_app. simpl. lia.
Qed.

End Rounds.

End FieldNameFacts.

(** X23: as long as [pypinyin], where it is installed, gives every
    character at least one reading, the field names for a shapefile are
    always made: one name for each column, and no name twice, whatever the
    columns were called. *)
Theorem sanitized_names_distinct
    (pypinyin : option (text -> list (list text))) (isalnum : N -> bool)
    (columns : list text) :
  (∀ pinyin col, pypinyin = Some pinyin → Forall (fun i => i ≠ []) (pinyin col)) →
  ∃ names,
    FieldNames._sanitize_field_names pypinyin isalnum columns = Ok names
    ∧ length names = length columns
    ∧ NoDup names.
Proof.
  intros readings. unfold FieldNames._sanitize_field_names.
  destruct (sanitize_for_columns_spec pypinyin isalnum readings
              FieldNames.field_map columns (∅, []))
    as (st' & -> & [_ Hnd] & Hlen).
  - split; simpl; [set_solver|constructor].
  - exists (st'.2). done.
Qed.

Lemma sanitized_names_distinct_witness :
  ∃ names,
    FieldNames._sanitize_field_names (Some FieldNamesExamples.toy_pinyin)
      FieldNamesExamples.ascii_alnum FieldNamesExamples.columns = Ok names
    ∧ length names = length FieldNamesExamples.columns
    ∧ NoDup names.
Proof.
  apply (sanitized_names_distinct (Some FieldNamesExamples.toy_pinyin)
           FieldNamesExamples.ascii_alnum FieldNamesExamples.columns).
  intros pinyin col [= <-]. unfold FieldNamesExamples.toy_pinyin.
  induction col as [|c col IH]; [constructor|].
  rewrite fmap_cons. constructor; [|exact IH].
  destruct (c =? 0x540D)%N; [done|]. destruct (c =? 0x79F0)%N; done.
Defined.
